(** * DevAi orchestration core: a shallow embedding and its properties

    The development follows the TypeScript sources:
    - [Registry]  : the capability registry (FunctionRegistry), with its
      sliding-window rate limiter, timeout race and fallback execution;
    - [Types], [Config] : the message types and the static tables of models,
      plans, providers and personalities;
    - [Providers] : the provider manager with its circuit breaker;
    - [Adapter]   : the retry loop and the call of a provider adapter;
    - [Pipeline]  : the staged event pipeline;
    - [Router]    : the usage check and context assembly of the message router.
    The modules named [...Scenarios] hold concrete inputs, the modules named
    [...Facts] the lemmas and theorems.

    Numbers are [Z] (milliseconds, counters), JS maps are [gmap], JS arrays are
    lists.  Wall-clock time is an explicit [clock] field: every [Date.now()]
    of the source reads it, and awaiting a handler or an adapter advances it.
    What the outside world does (a capability handler, an upstream API, the
    cache, the history store) is a parameter of the functions that use it. *)

From stdpp Require Import gmap strings list fin_maps pretty.
From Stdlib Require Import Ascii ZArith QArith Lia.

Open Scope Z_scope.

(** ** Small JavaScript helpers shared by the modules *)

(** JS truthiness of a possibly-undefined string: [undefined] and [""] are
    falsy. *)
Definition truthy (s : option string) : bool :=
  match s with
  | None => false
  | Some s => negb (String.eqb s "")
  end.

(** [`${s}`] for a possibly-undefined string. *)
Definition template (s : option string) : string :=
  match s with
  | None => "undefined"
  | Some s => s
  end.


Module Registry.

(** *** Data model (function-reflector.ts, which is src/unnamed/part_003,
    lines 5-65) *)

Inductive Category := Ai | Utility | Integration | Analysis | Generation.

Definition categoryName (c : Category) : string :=
  match c with
  | Ai => "ai"
  | Utility => "utility"
  | Integration => "integration"
  | Analysis => "analysis"
  | Generation => "generation"
  end.

(** Values of type [any] that handlers take and return. *)
Inductive JsValue :=
| JsNull
| JsBool (b : bool)
| JsNumber (n : Z)
| JsString (s : string).

(** The limits and budgets of a definition, [z.number()] in the schema, are
    taken as whole numbers. *)
Record RateLimit := {
  requestsPerMinute : Z;
  burstLimit : Z;
}.

Record Execution := {
  ex_timeout : Z;
  ex_retries : Z;
  ex_fallback : option string;
  ex_requiresAuth : bool;
  ex_rateLimit : RateLimit;
}.

Record FunctionExecutionContext := {
  ctx_functionId : string;
  ctx_userId : option string;
  ctx_sessionId : string;
  ctx_parameters : gmap string JsValue;
  ctx_startTime : Z;
  ctx_retryCount : Z;
  ctx_fallbackChain : list string;
}.

(** What the promise returned by a handler does: it fulfils or rejects
    [after] milliseconds, or never settles. *)
Inductive Settlement :=
| Resolves (after : Z) (v : JsValue)
| Rejects (after : Z) (message : string)
| Pending.

Record FunctionDefinition := {
  fd_id : string;
  fd_name : string;
  fd_description : string;
  fd_version : string;
  fd_category : Category;
  fd_execution : Execution;
  fd_tags : list string;
  fd_handler : gmap string JsValue → FunctionExecutionContext → Settlement;
}.

Record ResultMetadata := {
  md_functionId : string;
  md_version : string;
  md_category : Category;
  md_parameters : gmap string JsValue;
}.

Record FunctionExecutionResult := {
  res_success : bool;
  res_result : JsValue;
  res_error : option string;
  res_executionTime : Z;
  res_metadata : option ResultMetadata;
  res_fallbackUsed : option string;
}.

(** The limiter object built by [initializeRateLimiter]. *)
Record Limiter := {
  lim_requests : gmap string (list Z);
  lim_limit : Z;
  lim_window : Z;
}.

Inductive RegistryEvent :=
| FunctionRegistered (name : string)
| FunctionExecuted (name : string) (result : nat)
| BehaviorTracked (user : option string) (name : string) (ok : bool) (time : Z).

(** The registry object.  Result objects live in [heap] and are referred to
    by their index: the execution history and the caller may hold the same
    result object, and [executeFallback] writes to it after it was recorded. *)
Record FunctionRegistry := {
  functions : gmap string FunctionDefinition;
  categories : gmap string (gset string);
  executionHistory : gmap string (list nat);
  rateLimiters : gmap string Limiter;
  fallbackChains : gmap string (list string);
  heap : list FunctionExecutionResult;
  emitted : list RegistryEvent;
  clock : Z;
}.

Definition empty : FunctionRegistry := {|
  functions := ∅;
  categories := ∅;
  executionHistory := ∅;
  rateLimiters := ∅;
  fallbackChains := ∅;
  heap := [];
  emitted := [];
  clock := 0;
|}.

Inductive RegistryError :=
| NotFound (name : string)
| RateLimitExceeded (name : string)
| AuthRequired (name : string)
| SchemaInvalid (name : string)
| DuplicateName (name : string).

Definition errorMessage (e : RegistryError) : string :=
  match e with
  | NotFound n => "Function '" +:+ n +:+ "' not found"
  | RateLimitExceeded n => "Rate limit exceeded for function '" +:+ n +:+ "'"
  | AuthRequired n => "Authentication required for function '" +:+ n +:+ "'"
  | SchemaInvalid n => "Invalid function definition '" +:+ n +:+ "'"
  | DuplicateName n => "Function with name '" +:+ n +:+ "' already exists"
  end.

(** How an [async] method ends: with a result object or with a raised error. *)
Inductive Outcome :=
| Returned (result : nat)
| Thrown (e : RegistryError).

(** *** Field updates *)

Definition setRateLimiters (v : gmap string Limiter) (r : FunctionRegistry) :=
  {| functions := functions r; categories := categories r;
     executionHistory := executionHistory r; rateLimiters := v;
     fallbackChains := fallbackChains r; heap := heap r;
     emitted := emitted r; clock := clock r |}.

Definition setExecutionHistory (v : gmap string (list nat)) (r : FunctionRegistry) :=
  {| functions := functions r; categories := categories r;
     executionHistory := v; rateLimiters := rateLimiters r;
     fallbackChains := fallbackChains r; heap := heap r;
     emitted := emitted r; clock := clock r |}.

Definition setHeap (v : list FunctionExecutionResult) (r : FunctionRegistry) :=
  {| functions := functions r; categories := categories r;
     executionHistory := executionHistory r; rateLimiters := rateLimiters r;
     fallbackChains := fallbackChains r; heap := v;
     emitted := emitted r; clock := clock r |}.

Definition emit (e : list RegistryEvent) (r : FunctionRegistry) :=
  {| functions := functions r; categories := categories r;
     executionHistory := executionHistory r; rateLimiters := rateLimiters r;
     fallbackChains := fallbackChains r; heap := heap r;
     emitted := emitted r ++ e; clock := clock r |}.

(** Time passes while a promise is awaited. *)
Definition elapse (ms : Z) (r : FunctionRegistry) :=
  {| functions := functions r; categories := categories r;
     executionHistory := executionHistory r; rateLimiters := rateLimiters r;
     fallbackChains := fallbackChains r; heap := heap r;
     emitted := emitted r; clock := clock r + ms |}.

Definition setRequests (v : gmap string (list Z)) (l : Limiter) :=
  {| lim_requests := v; lim_limit := lim_limit l; lim_window := lim_window l |}.

Definition setFallbackUsed (v : option string) (x : FunctionExecutionResult) :=
  {| res_success := res_success x; res_result := res_result x;
     res_error := res_error x; res_executionTime := res_executionTime x;
     res_metadata := res_metadata x; res_fallbackUsed := v |}.

(** [context.retryCount++; context.fallbackChain.push(name)] on the shared
    context object. *)
Definition noteFallback (name : string) (c : FunctionExecutionContext) :=
  {| ctx_functionId := ctx_functionId c; ctx_userId := ctx_userId c;
     ctx_sessionId := ctx_sessionId c; ctx_parameters := ctx_parameters c;
     ctx_startTime := ctx_startTime c;
     ctx_retryCount := ctx_retryCount c + 1;
     ctx_fallbackChain := ctx_fallbackChain c ++ [name] |}.

(** *** Registration (lines 87-121, 253-262) *)

Definition isHex (a : Ascii.ascii) : bool :=
  let n := Ascii.nat_of_ascii a in
  ((48 <=? n) && (n <=? 57) || (65 <=? n) && (n <=? 70) ||
   (97 <=? n) && (n <=? 102))%nat.

(** [z.string().uuid()]: the 8-4-4-4-12 hexadecimal layout. *)
Definition isUuid (s : string) : bool :=
  let cs := String.list_ascii_of_string s in
  (length cs =? 36)%nat &&
  forallb (λ '(i, a),
             if (i =? 8)%nat || (i =? 13)%nat || (i =? 18)%nat || (i =? 23)%nat
             then Ascii.eqb a "-"%char else isHex a)
          (imap (λ i a, (i, a)) cs).

(** [FunctionDefinitionSchema.parse]: the record types already carry the
    field types and enums of the schema; what is left is the identifier
    format. *)
Definition schemaParse (d : FunctionDefinition) : bool := isUuid (fd_id d).

Definition initializeRateLimiter (d : FunctionDefinition) (r : FunctionRegistry) :=
  let limiter := {| lim_requests := ∅;
                    lim_limit := requestsPerMinute (ex_rateLimit (fd_execution d));
                    lim_window := 60000 |} in
  setRateLimiters (<[fd_name d := limiter]> (rateLimiters r)) r.

Definition registerFunction (d : FunctionDefinition) (r : FunctionRegistry)
  : FunctionRegistry + RegistryError :=
  if negb (schemaParse d) then inr (SchemaInvalid (fd_name d))
  else if decide (is_Some (functions r !! fd_name d)) then inr (DuplicateName (fd_name d))
  else
    let cat := categoryName (fd_category d) in
    let members := default ∅ (categories r !! cat) in
    let r1 := {| functions := <[fd_name d := d]> (functions r);
                 categories := <[cat := members ∪ {[fd_name d]}]> (categories r);
                 executionHistory := executionHistory r;
                 rateLimiters := rateLimiters r;
                 fallbackChains := fallbackChains r;
                 heap := heap r; emitted := emitted r; clock := clock r |} in
    let r2 := initializeRateLimiter d r1 in
    let r3 := match ex_fallback (fd_execution d) with
              | Some f =>
                  if truthy (Some f) then
                    {| functions := functions r2; categories := categories r2;
                       executionHistory := executionHistory r2;
                       rateLimiters := rateLimiters r2;
                       fallbackChains := <[fd_name d := [f]]> (fallbackChains r2);
                       heap := heap r2; emitted := emitted r2; clock := clock r2 |}
                  else r2
              | None => r2
              end in
    inl (emit [FunctionRegistered (fd_name d)] r3).

Definition getFunction (name : string) (r : FunctionRegistry) : option FunctionDefinition :=
  functions r !! name.

(** *** Rate limiting (lines 264-284) *)

Definition userKey (d : FunctionDefinition) (c : FunctionExecutionContext) : string :=
  template (ctx_userId c) +:+ ":" +:+ fd_name d.

(** [userRequests.filter(time => now - time < limiter.window)] *)
Definition prune (now window : Z) (times : list Z) : list Z :=
  List.filter (λ time, now - time <? window) times.

Definition checkRateLimit (d : FunctionDefinition) (c : FunctionExecutionContext)
    (r : FunctionRegistry) : bool * FunctionRegistry :=
  match rateLimiters r !! fd_name d with
  | None => (true, r)
  | Some limiter =>
      let now := clock r in
      let userRequests := default [] (lim_requests limiter !! userKey d c) in
      let recentRequests := prune now (lim_window limiter) userRequests in
      if lim_limit limiter <=? Z.of_nat (length recentRequests) then (false, r)
      else
        let recorded := <[userKey d c := recentRequests ++ [now]]> (lim_requests limiter) in
        (true, setRateLimiters (<[fd_name d := setRequests recorded limiter]> (rateLimiters r)) r)
  end.

(** *** Timeout race (lines 189-192, 287-293) *)

(** Node clamps a timer delay below 1 ms or above 2^31-1 ms to 1 ms. *)
Definition timerDelay (ms : Z) : Z :=
  if (ms <? 1) || (2147483647 <? ms) then 1 else ms.

Definition timeoutMessage (ms : Z) : string :=
  "Function execution timed out after " +:+ pretty ms +:+ "ms".

(** The handler does not settle before the timer of [createTimeout ms]
    fires.  A handler settling in the same millisecond wins: its promise was
    created first. *)
Definition timesOut (h : Settlement) (ms : Z) : bool :=
  match h with
  | Resolves after _ | Rejects after _ => timerDelay ms <? after
  | Pending => true
  end.

(** [Promise.race([handler(...), createTimeout(ms)])]: the time awaited and
    the value, or the message of the rejection. *)
Definition race (h : Settlement) (ms : Z) : Z * (JsValue + string) :=
  if timesOut h ms then (timerDelay ms, inr (timeoutMessage ms))
  else match h with
       | Resolves after v => (Z.max 0 after, inl v)
       | Rejects after m => (Z.max 0 after, inr m)
       | Pending => (timerDelay ms, inr (timeoutMessage ms))
       end.

(** *** Execution history (lines 296-308) *)

Definition recordExecution (name : string) (result : nat) (r : FunctionRegistry) :=
  let history := default [] (executionHistory r !! name) ++ [result] in
  let history := if (100 <? length history)%nat then tail history else history in
  setExecutionHistory (<[name := history]> (executionHistory r)) r.

(** A new result object. *)
Definition alloc (x : FunctionExecutionResult) (r : FunctionRegistry) : nat * FunctionRegistry :=
  (length (heap r), setHeap (heap r ++ [x]) r).

(** [emit('function:executed', ...)] runs [handleFunctionExecuted], which
    emits ['behavior:tracked'] from [trackUserBehavior]. *)
Definition emitExecuted (name : string) (c : FunctionExecutionContext)
    (result : nat) (x : FunctionExecutionResult) (r : FunctionRegistry) :=
  emit [FunctionExecuted name result;
        BehaviorTracked (ctx_userId c) name (res_success x)
          (if res_success x then res_executionTime x else 0)] r.

(** *** Execution (lines 159-250) *)

Definition Run : Type := FunctionRegistry * FunctionExecutionContext * Outcome.

(** Lines 214-220: record, emit, return. *)
Definition complete (name : string) (c : FunctionExecutionContext)
    (x : FunctionExecutionResult) (r : FunctionRegistry) : Run :=
  let '(a, r1) := alloc x r in
  (emitExecuted name c a x (recordExecution name a r1), c, Returned a).

Definition successResult (d : FunctionDefinition) (c : FunctionExecutionContext)
    (elapsed : Z) (v : JsValue) : FunctionExecutionResult :=
  {| res_success := true; res_result := v; res_error := None;
     res_executionTime := elapsed;
     res_metadata := Some {| md_functionId := fd_id d; md_version := fd_version d;
                             md_category := fd_category d;
                             md_parameters := ctx_parameters c |};
     res_fallbackUsed := None |}.

Definition failureResult (message : string) : FunctionExecutionResult :=
  {| res_success := false; res_result := JsNull; res_error := Some message;
     res_executionTime := 0; res_metadata := None; res_fallbackUsed := None |}.

(** [executeFallback]; [exec] is the recursive [this.executeFunction]. *)
Definition executeFallback (exec : string → FunctionExecutionContext → FunctionRegistry → option Run)
    (d : FunctionDefinition) (c : FunctionExecutionContext)
    (originalResult : FunctionExecutionResult) (r : FunctionRegistry) : option Run :=
  let fallbackName := default "" (ex_fallback (fd_execution d)) in
  match getFunction fallbackName r with
  | None =>
      let '(a, r1) := alloc originalResult r in Some (r1, c, Returned a)
  | Some _ =>
      let c1 := noteFallback fallbackName c in
      match exec fallbackName c1 r with
      | None => None
      | Some (r1, c2, Returned a) =>
          Some (setHeap (alter (setFallbackUsed (Some fallbackName)) a (heap r1)) r1,
                c2, Returned a)
      | Some (r1, c2, Thrown _) =>
          let '(a, r2) := alloc originalResult r1 in Some (r2, c2, Returned a)
      end
  end.

(** Lines 178-220: the handler against the timer, then the fallback or the
    recorded result. *)
Definition runHandler (exec : string → FunctionExecutionContext → FunctionRegistry → option Run)
    (name : string) (d : FunctionDefinition) (c : FunctionExecutionContext)
    (r : FunctionRegistry) : option Run :=
  let '(elapsed, settled) :=
    race (fd_handler d (ctx_parameters c) c) (ex_timeout (fd_execution d)) in
  let r1 := elapse elapsed r in
  match settled with
  | inl v => Some (complete name c (successResult d c elapsed v) r1)
  | inr message =>
      if truthy (ex_fallback (fd_execution d)) &&
         (ctx_retryCount c <? ex_retries (fd_execution d))
      then executeFallback exec d c (failureResult message) r1
      else Some (complete name c (failureResult message) r1)
  end.

(** One activation of [executeFunction]: lookup, rate limit, authentication
    (lines 163-176), then the handler. *)
Definition executeFunctionBody (exec : string → FunctionExecutionContext → FunctionRegistry → option Run)
    (name : string) (c : FunctionExecutionContext) (r : FunctionRegistry) : option Run :=
  match getFunction name r with
  | None => Some (r, c, Thrown (NotFound name))
  | Some d =>
      let '(admitted, r1) := checkRateLimit d c r in
      if negb admitted then Some (r1, c, Thrown (RateLimitExceeded name))
      else if ex_requiresAuth (fd_execution d) && negb (truthy (ctx_userId c))
      then Some (r1, c, Thrown (AuthRequired name))
      else runHandler exec name d c r1
  end.

Fixpoint executeFunctionFuel (fuel : nat) (name : string)
    (c : FunctionExecutionContext) (r : FunctionRegistry) : option Run :=
  match fuel with
  | O => None
  | S fuel => executeFunctionBody (executeFunctionFuel fuel) name c r
  end.

(** The largest retry budget of a registered capability: a fallback hop needs
    [retryCount] below the budget of the capability that failed. *)
Definition maxRetries (fs : gmap string FunctionDefinition) : Z :=
  foldr (λ p acc, Z.max (ex_retries (fd_execution p.2)) acc) 0 (map_to_list fs).

Definition hops (c : FunctionExecutionContext) (r : FunctionRegistry) : nat :=
  S (Z.to_nat (maxRetries (functions r) - ctx_retryCount c)).

(** [executeFunction]: [hops] activations always suffice, so the default is
    never taken (see [executeFunction_fuel] and [executeFunction_unfold]). *)
Definition executeFunction (name : string) (c : FunctionExecutionContext)
    (r : FunctionRegistry) : Run :=
  default (r, c, Thrown (NotFound name)) (executeFunctionFuel (hops c r) name c r).

(** *** Predicates used in the statements *)

(** A result that reports a failure carries its error message. *)
Definition wellFormed (x : FunctionExecutionResult) : Prop :=
  res_success x = false → is_Some (res_error x).

(** The requests of [key] that the limiter of capability [name] counts at the
    current time. *)
Definition recentRequests (name key : string) (r : FunctionRegistry) : list Z :=
  match rateLimiters r !! name with
  | Some limiter =>
      prune (clock r) (lim_window limiter) (default [] (lim_requests limiter !! key))
  | None => []
  end.

(** The limiter of capability [name] admits [limit] requests per [window]
    and holds, for [key], a request made at or after time [since]. *)
Definition holdsSlot (name key : string) (since limit window : Z)
    (r : FunctionRegistry) : Prop :=
  since ≤ clock r ∧
  ∃ limiter times t,
    rateLimiters r !! name = Some limiter ∧
    lim_limit limiter = limit ∧ lim_window limiter = window ∧
    lim_requests limiter !! key = Some times ∧ t ∈ times ∧ since ≤ t.

End Registry.

(** ** Shared message types (src/lib/types/index.ts) *)

Module Types.

Record ChatMessage := {
  role : string;
  content : string;
}.

Record ProviderRequest := {
  rq_model : string;
  rq_messages : list ChatMessage;
  rq_maxTokens : Z;
}.

Record ResponseMetadata := {
  processingTime : Z;
  fallbackUsed : bool;
  providerUsed : option string;
  fallbackReason : option string;
  cost : Q;
}.

Record ProviderResponse := {
  rs_id : string;
  rs_model : string;
  rs_content : string;
  rs_totalTokens : Z;
  rs_provider : string;
  rs_metadata : ResponseMetadata;
}.

End Types.

(** ** Static configuration tables (src/lib/config) *)

Module Config.

Record Model := {
  m_id : string;
  m_provider : string;
  m_enabled : bool;
}.

Record Plan := {
  p_id : string;
  p_dailyMessageLimit : Z;
  p_contextSize : Z;
  p_memoryEnabled : bool;
  p_contextReductionFactor : Q;
  p_modelDowngradeChain : list string;
  p_enabled : bool;
}.

Record Provider := {
  pv_name : string;
  pv_apiKey : string;
  pv_models : list string;
  pv_fallbackPriority : Z;
  pv_enabled : bool;
}.

Record Personality := {
  ps_id : string;
  ps_systemPrompt : string;
  ps_allowedTasks : list string;
  ps_defaultModel : string;
  ps_maxTokens : Z;
  ps_enabled : bool;
}.

(** models.ts, lines 21-164 *)
Definition models : gmap string Model :=
  list_to_map (M := gmap string Model)
    ((λ '(i, p), (i, {| m_id := i; m_provider := p; m_enabled := true |})) <$>
     [ ("gpt-4", "openai"); ("gpt-4-turbo", "openai"); ("gpt-3.5-turbo", "openai");
       ("claude-3-opus", "anthropic"); ("claude-3-sonnet", "anthropic");
       ("claude-3-haiku", "anthropic");
       ("llama-3.1-70b-instruct", "perplexity");
       ("llama-3.1-8b-instruct", "perplexity");
       ("gpt-4-openrouter", "openrouter") ]).

Definition getModel (id : string) : option Model :=
  match models !! id with
  | Some m => if m_enabled m then Some m else None
  | None => None
  end.

(** plans.ts, lines 34-147 *)
Definition plans : gmap string Plan :=
  list_to_map (M := gmap string Plan)
    [ ("free", {| p_id := "free"; p_dailyMessageLimit := 10; p_contextSize := 5;
                  p_memoryEnabled := false; p_contextReductionFactor := 5 # 10;
                  p_modelDowngradeChain := ["gpt-3.5-turbo"; "claude-3-haiku"];
                  p_enabled := true |});
      ("basic", {| p_id := "basic"; p_dailyMessageLimit := 50; p_contextSize := 15;
                   p_memoryEnabled := true; p_contextReductionFactor := 7 # 10;
                   p_modelDowngradeChain := ["gpt-4-turbo"; "claude-3-sonnet"; "gpt-3.5-turbo"];
                   p_enabled := true |});
      ("pro", {| p_id := "pro"; p_dailyMessageLimit := 300; p_contextSize := 50;
                 p_memoryEnabled := true; p_contextReductionFactor := 9 # 10;
                 p_modelDowngradeChain := ["gpt-4"; "claude-3-opus"; "gpt-4-turbo"];
                 p_enabled := true |});
      ("enterprise", {| p_id := "enterprise"; p_dailyMessageLimit := 1000;
                        p_contextSize := 100; p_memoryEnabled := true;
                        p_contextReductionFactor := 1;
                        p_modelDowngradeChain := ["gpt-4"; "claude-3-opus"];
                        p_enabled := true |}) ].

Definition getPlan (id : string) : option Plan :=
  match plans !! id with
  | Some p => if p_enabled p then Some p else None
  | None => None
  end.

(** config/providers.ts (src/unnamed/part_004); the API keys come from the
    process environment and are a parameter here. *)
Definition providers (apiKey : string → string) : gmap string Provider :=
  list_to_map (M := gmap string Provider)
    [ ("openai", {| pv_name := "OpenAI"; pv_apiKey := apiKey "openai";
                    pv_models := ["gpt-4"; "gpt-4-turbo"; "gpt-3.5-turbo"];
                    pv_fallbackPriority := 1; pv_enabled := true |});
      ("anthropic", {| pv_name := "Anthropic"; pv_apiKey := apiKey "anthropic";
                       pv_models := ["claude-3-opus"; "claude-3-sonnet"; "claude-3-haiku"];
                       pv_fallbackPriority := 2; pv_enabled := true |});
      ("perplexity", {| pv_name := "Perplexity"; pv_apiKey := apiKey "perplexity";
                        pv_models := ["llama-3.1-8b-instruct"; "llama-3.1-70b-instruct";
                                      "mixtral-8x7b-instruct"];
                        pv_fallbackPriority := 3; pv_enabled := true |});
      ("openrouter", {| pv_name := "OpenRouter"; pv_apiKey := apiKey "openrouter";
                        pv_models := ["gpt-4"; "claude-3-opus"; "llama-3.1-70b"];
                        pv_fallbackPriority := 4; pv_enabled := true |}) ].

Definition getProvider (apiKey : string → string) (name : string) : option Provider :=
  match providers apiKey !! name with
  | Some p => if pv_enabled p then Some p else None
  | None => None
  end.

(** personalities.ts, lines 20-165: the system prompts, line breaks
    included, and the table. *)
Definition researcherPrompt : string :=
"You are Researcher, an AI assistant with exceptional analytical and research capabilities. Your core traits include:

- **Analytical Mindset**: You approach problems systematically, breaking them down into logical components
- **Evidence-Based**: You always seek factual evidence and cite reliable sources when possible
- **Comprehensive**: You provide thorough, well-structured responses that cover multiple angles
- **Curious**: You ask clarifying questions to better understand the user's needs
- **Objective**: You present balanced perspectives and acknowledge limitations in your knowledge

Your expertise includes:
- Academic research and literature review
- Data analysis and interpretation
- Fact-checking and verification
- Critical thinking and logical reasoning
- Cross-disciplinary knowledge synthesis

When responding:
1. Structure your answers clearly with headings and bullet points
2. Acknowledge uncertainties and limitations
3. Suggest additional research directions when appropriate
4. Use precise, academic language while remaining accessible
5. Always maintain intellectual honesty

Remember: Your goal is to help users think more clearly and make informed decisions through rigorous analysis.".

Definition visheshagyaPrompt : string :=
"You are Visheshagya, an AI assistant embodying wisdom, spiritual insight, and philosophical depth. Your core traits include:

- **Wise**: You draw from timeless wisdom traditions and philosophical insights
- **Contemplative**: You encourage deep reflection and self-examination
- **Compassionate**: You approach all situations with empathy and understanding
- **Balanced**: You see multiple perspectives and find harmony in complexity
- **Spiritual**: You recognize the deeper dimensions of human experience

Your expertise includes:
- Philosophical inquiry and ethical reasoning
- Spiritual guidance and personal growth
- Life wisdom and decision-making support
- Emotional intelligence and relationship insights
- Cultural and religious understanding

When responding:
1. Begin with understanding and empathy
2. Offer gentle guidance rather than direct answers
3. Encourage self-reflection and personal insight
4. Share relevant wisdom from various traditions
5. Help users find their own inner wisdom

Remember: Your role is to be a gentle guide, helping users discover their own truth and wisdom through thoughtful reflection.".

Definition shikshakPrompt : string :=
"You are Shikshak, an AI assistant dedicated to teaching, learning, and skill development. Your core traits include:

- **Patient**: You understand that learning takes time and repetition
- **Clear**: You explain complex concepts in simple, understandable terms
- **Adaptive**: You adjust your teaching style to the learner's level and preferences
- **Encouraging**: You celebrate progress and provide constructive feedback
- **Structured**: You organize information in logical, progressive sequences

Your expertise includes:
- Curriculum design and lesson planning
- Skill development and practice strategies
- Assessment and feedback techniques
- Learning psychology and motivation
- Subject matter expertise across domains

When responding:
1. Assess the learner's current level and goals
2. Break down complex topics into digestible parts
3. Provide examples and analogies for clarity
4. Include practice exercises and self-assessment questions
5. Encourage questions and active engagement

Remember: Your mission is to make learning accessible, engaging, and effective for every student, regardless of their starting point.".

Definition mitraPrompt : string :=
"You are Mitra, an AI assistant who is a friendly companion and everyday helper. Your core traits include:

- **Friendly**: You're warm, approachable, and easy to talk to
- **Supportive**: You provide emotional support and encouragement
- **Practical**: You help with everyday tasks and practical advice
- **Humorous**: You have a light, positive sense of humor
- **Relatable**: You understand common human experiences and challenges

Your expertise includes:
- Casual conversation and social interaction
- Emotional support and mental health awareness
- Practical life advice and problem-solving
- Entertainment and creative activities
- General knowledge and helpful information

When responding:
1. Be warm and conversational in tone
2. Show genuine interest in the user's situation
3. Offer practical, actionable advice when appropriate
4. Use humor to lighten difficult situations
5. Be a supportive friend who listens and cares

Remember: You're here to be a friendly companion - someone users can talk to about anything, from daily challenges to big dreams, always with warmth and understanding.".

Definition personalities : gmap string Personality :=
  list_to_map (M := gmap string Personality)
    [ ("researcher", {| ps_id := "researcher";
         ps_systemPrompt := researcherPrompt;
         ps_allowedTasks := ["research"; "analysis"; "fact-checking"; "summarization"; "web-search"];
         ps_defaultModel := "gpt-4-turbo"; ps_maxTokens := 4000; ps_enabled := true |});
      ("visheshagya", {| ps_id := "visheshagya";
         ps_systemPrompt := visheshagyaPrompt;
         ps_allowedTasks := ["guidance"; "philosophy"; "spiritual"; "personal-growth"; "wisdom"];
         ps_defaultModel := "claude-3-sonnet"; ps_maxTokens := 3000; ps_enabled := true |});
      ("shikshak", {| ps_id := "shikshak";
         ps_systemPrompt := shikshakPrompt;
         ps_allowedTasks := ["teaching"; "learning"; "skill-development"; "explanation"; "assessment"];
         ps_defaultModel := "claude-3-haiku"; ps_maxTokens := 3500; ps_enabled := true |});
      ("mitra", {| ps_id := "mitra";
         ps_systemPrompt := mitraPrompt;
         ps_allowedTasks := ["conversation"; "emotional-support"; "practical-help"; "entertainment"; "general"];
         ps_defaultModel := "gpt-3.5-turbo"; ps_maxTokens := 2500; ps_enabled := true |}) ].

Definition getPersonality (id : string) : option Personality :=
  match personalities !! id with
  | Some p => if ps_enabled p then Some p else None
  | None => None
  end.

End Config.

(** ** Provider manager (src/lib/providers/manager.ts, src/lib/db/redis.ts) *)

Module Providers.
Import Types Config.

Inductive Status := Closed | Open | HalfOpen.

(** The state object read from and written to the circuit-breaker store. *)
Record CircuitState := {
  status : Status;
  failureCount : Z;
  lastFailureTime : option Z;
  nextAttemptTime : option Z;
}.

(** A Redis hash [circuit:<key>] with its expiry time. *)
Record CircuitHash := {
  h_state : CircuitState;
  h_expiresAt : Z;
}.

Record ProviderManagerConfig := {
  enableCircuitBreaker : bool;
  enableRateLimiting : bool;
  maxRetries : Z;
  fallbackTimeout : Z;
}.

Record CallOptions := {
  o_userId : option string;
  o_planId : option string;
  o_personality : option string;
  o_task : option string;
  o_forceProvider : option string;
}.

(** What a provider adapter's [call] does when invoked at a given time. *)
Inductive Reply :=
| Responds (after : Z) (response : ProviderResponse)
| Fails (after : Z) (message : string).

Definition Adapters : Type := string → ProviderRequest → Z → Reply.

(** The manager object, the Redis store it shares, and two traces: the
    provider names passed to [callProvider] and the adapters invoked. *)
Record ProviderManager := {
  providers : list (string * Provider);
  config : ProviderManagerConfig;
  breakers : gmap string CircuitHash;
  attempts : list string;
  adapterCalls : list string;
  clock : Z;
}.

Inductive ManagerError :=
| ModelNotFound (model : string)
| ForcedProviderNotFound (provider : string)
| NoProviderForModel (model : string)
| AllProvidersFailed (model : string).

Definition errorMessage (e : ManagerError) : string :=
  "Provider manager error: " +:+
  match e with
  | ModelNotFound m => "Model " +:+ m +:+ " not found"
  | ForcedProviderNotFound p => "Forced provider " +:+ p +:+ " not found"
  | NoProviderForModel m => "No provider found for model " +:+ m
  | AllProvidersFailed m => "All providers failed for model " +:+ m
  end.

Inductive ProviderError :=
| ProviderNotFound (provider : string)
| CircuitOpen (provider : string)
| AdapterFailed (message : string).

Definition defaultConfig : ProviderManagerConfig :=
  {| enableCircuitBreaker := true; enableRateLimiting := true;
     maxRetries := 3; fallbackTimeout := 30000 |}.

(** [initializeProviders]: OpenAI and Perplexity, in this order. *)
Definition initializeProviders (apiKey : string → string) : list (string * Provider) :=
  match getProvider apiKey "openai" with Some p => [("openai", p)] | None => [] end ++
  match getProvider apiKey "perplexity" with Some p => [("perplexity", p)] | None => [] end.

Definition newManager (apiKey : string → string) (now : Z) : ProviderManager :=
  {| providers := initializeProviders apiKey; config := defaultConfig;
     breakers := ∅; attempts := []; adapterCalls := []; clock := now |}.

Definition providersGet (name : string) (m : ProviderManager) : option Provider :=
  snd <$> List.find (λ p, String.eqb (fst p) name) (providers m).

Definition setBreakers (v : gmap string CircuitHash) (m : ProviderManager) :=
  {| providers := providers m; config := config m; breakers := v;
     attempts := attempts m; adapterCalls := adapterCalls m; clock := clock m |}.

Definition noteAttempt (name : string) (m : ProviderManager) :=
  {| providers := providers m; config := config m; breakers := breakers m;
     attempts := attempts m ++ [name]; adapterCalls := adapterCalls m;
     clock := clock m |}.

Definition noteAdapterCall (name : string) (m : ProviderManager) :=
  {| providers := providers m; config := config m; breakers := breakers m;
     attempts := attempts m; adapterCalls := adapterCalls m ++ [name];
     clock := clock m |}.

Definition elapse (ms : Z) (m : ProviderManager) :=
  {| providers := providers m; config := config m; breakers := breakers m;
     attempts := attempts m; adapterCalls := adapterCalls m;
     clock := clock m + Z.max 0 ms |}.

(** *** The circuit-breaker store (redis.ts, lines 119-167)

    The store as long as it answers; what the helpers do when it fails is
    embedded in [Outage] below. *)

Definition closedState : CircuitState :=
  {| status := Closed; failureCount := 0; lastFailureTime := None;
     nextAttemptTime := None |}.

(** The hash under [key], unless it has expired. *)
Definition liveHash (key : string) (m : ProviderManager) : option CircuitState :=
  match breakers m !! key with
  | Some h => if clock m <? h_expiresAt h then Some (h_state h) else None
  | None => None
  end.

Definition getCircuitBreakerState (key : string) (m : ProviderManager) : CircuitState :=
  default closedState (liveHash key m).

(** A time is written to the hash only when it is truthy. *)
Definition truthyTime (t : option Z) : option Z :=
  match t with
  | Some 0 | None => None
  | Some t => Some t
  end.

(** [hSet] overwrites the fields it is given and keeps the others, then
    [expire] restarts the 24 hour time to live. *)
Definition updateCircuitBreakerState (key : string) (s : CircuitState)
    (m : ProviderManager) : ProviderManager :=
  let old := default {| status := Closed; failureCount := 0;
                        lastFailureTime := None; nextAttemptTime := None |}
                     (liveHash key m) in
  let merged := {| status := status s; failureCount := failureCount s;
                   lastFailureTime :=
                     match truthyTime (lastFailureTime s) with
                     | Some t => Some t | None => lastFailureTime old end;
                   nextAttemptTime :=
                     match truthyTime (nextAttemptTime s) with
                     | Some t => Some t | None => nextAttemptTime old end |} in
  setBreakers (<[key := {| h_state := merged;
                           h_expiresAt := clock m + 24 * 60 * 60 * 1000 |}]> (breakers m)) m.

(** *** Provider selection (manager.ts, lines 129-196) *)

Definition supportsModel (p : Provider) (model : string) : bool :=
  bool_decide (model ∈ pv_models p).

Definition findProviderForModel (modelId : string) (m : ProviderManager) : option string :=
  fst <$> List.find (λ p, supportsModel (snd p) modelId) (providers m).

(** [modelDowngradeChain.map(id => getModel(id)?.provider).filter(Boolean)] *)
Definition chainProviders (chain : list string) : list string :=
  omap (λ modelId,
          match getModel modelId with
          | Some model => if truthy (Some (m_provider model)) then Some (m_provider model) else None
          | None => None
          end) chain.

Definition selectProvider (modelId : string) (options : CallOptions) (m : ProviderManager)
  : (string * string * list string) + ManagerError :=
  match getModel modelId with
  | None => inr (ModelNotFound modelId)
  | Some _ =>
      if truthy (o_forceProvider options) then
        let forced := default "" (o_forceProvider options) in
        match providersGet forced m with
        | None => inr (ForcedProviderNotFound forced)
        | Some _ => inl (forced, modelId, [])
        end
      else
        let fallbackChain :=
          if truthy (o_planId options) then
            match getPlan (default "" (o_planId options)) with
            | Some plan => chainProviders (p_modelDowngradeChain plan)
            | None => []
            end
          else [] in
        match findProviderForModel modelId m with
        | None => inr (NoProviderForModel modelId)
        | Some provider =>
            inl (provider, modelId,
                 List.filter (λ p, negb (String.eqb p provider)) fallbackChain)
        end
  end.

(** *** Calling one provider (lines 198-235) *)

Definition setStatus (v : Status) (s : CircuitState) :=
  {| status := v; failureCount := failureCount s;
     lastFailureTime := lastFailureTime s; nextAttemptTime := nextAttemptTime s |}.

Definition isOpen (s : Status) : bool :=
  match s with Open => true | _ => false end.

Definition callProvider (adapters : Adapters) (providerName : string)
    (request : ProviderRequest) (m : ProviderManager)
  : ProviderManager * (ProviderResponse + ProviderError) :=
  let m := noteAttempt providerName m in
  match providersGet providerName m with
  | None => (m, inr (ProviderNotFound providerName))
  | Some _ =>
      let circuitState := getCircuitBreakerState providerName m in
      if enableCircuitBreaker (config m) && isOpen (status circuitState) &&
         match truthyTime (nextAttemptTime circuitState) with
         | Some next => clock m <? next
         | None => false
         end
      then (m, inr (CircuitOpen providerName))
      else
        let m1 :=
          if enableCircuitBreaker (config m) && isOpen (status circuitState)
          then updateCircuitBreakerState providerName (setStatus HalfOpen circuitState) m
          else m in
        let m2 := noteAdapterCall providerName m1 in
        match adapters providerName request (clock m2) with
        | Responds after response => (elapse after m2, inl response)
        | Fails after message => (elapse after m2, inr (AdapterFailed message))
        end
  end.

(** *** Circuit-breaker update (lines 237-271) *)

Definition threshold : Z := 5.
Definition timeout : Z := 60000.

Definition updateCircuitBreaker (providerName : string) (success : bool)
    (m : ProviderManager) : ProviderManager :=
  if negb (enableCircuitBreaker (config m)) then m
  else
    let currentState := getCircuitBreakerState providerName m in
    if success then
      updateCircuitBreakerState providerName
        {| status := Closed; failureCount := 0; lastFailureTime := None;
           nextAttemptTime := None |} m
    else
      let newFailureCount := failureCount currentState + 1 in
      let shouldOpen := threshold <=? newFailureCount in
      updateCircuitBreakerState providerName
        {| status := if shouldOpen then Open else Closed;
           failureCount := newFailureCount;
           lastFailureTime := Some (clock m);
           nextAttemptTime := if shouldOpen then Some (clock m + timeout) else None |} m.

(** *** The router call (lines 49-127) *)

Definition tagResponse (response : ProviderResponse) (elapsed : Z) (fallback : bool)
    (provider : string) (reason : option string) : ProviderResponse :=
  {| rs_id := rs_id response; rs_model := rs_model response;
     rs_content := rs_content response; rs_totalTokens := rs_totalTokens response;
     rs_provider := rs_provider response;
     rs_metadata := {| processingTime := elapsed; fallbackUsed := fallback;
                       providerUsed := Some provider;
                       fallbackReason :=
                         match reason with
                         | Some r => Some r
                         | None => fallbackReason (rs_metadata response)
                         end;
                       cost := cost (rs_metadata response) |} |}.

(** The loop over the fallback chain (lines 90-119); [None] when every
    fallback provider failed. *)
Fixpoint tryFallbacks (adapters : Adapters) (provider : string)
    (request : ProviderRequest) (startTime : Z) (fallbackChain : list string)
    (m : ProviderManager) : ProviderManager * option ProviderResponse :=
  match fallbackChain with
  | [] => (m, None)
  | fallbackProvider :: rest =>
      match callProvider adapters fallbackProvider request m with
      | (m1, inl response) =>
          let m2 := if enableCircuitBreaker (config m1)
                    then updateCircuitBreaker fallbackProvider true m1 else m1 in
          (m2, Some (tagResponse response (clock m2 - startTime) true fallbackProvider
                       (Some ("Primary provider " +:+ provider +:+ " failed"))))
      | (m1, inr _) =>
          let m2 := if enableCircuitBreaker (config m1)
                    then updateCircuitBreaker fallbackProvider false m1 else m1 in
          tryFallbacks adapters provider request startTime rest m2
      end
  end.

Definition call (adapters : Adapters) (request : ProviderRequest)
    (options : CallOptions) (m : ProviderManager)
  : ProviderManager * (ProviderResponse + ManagerError) :=
  let startTime := clock m in
  match selectProvider (rq_model request) options m with
  | inr e => (m, inr e)
  | inl (provider, _, fallbackChain) =>
      match callProvider adapters provider request m with
      | (m1, inl response) =>
          let m2 := if enableCircuitBreaker (config m1)
                    then updateCircuitBreaker provider true m1 else m1 in
          (m2, inl (tagResponse response (clock m2 - startTime) false provider None))
      | (m1, inr _) =>
          match tryFallbacks adapters provider request startTime fallbackChain m1 with
          | (m2, Some response) => (m2, inl response)
          | (m2, None) => (m2, inr (AllProvidersFailed (rq_model request)))
          end
      end
  end.

End Providers.

(** ** Provider adapters (src/lib/providers/base.ts) *)

Module Adapter.
Import Types Config.

(** Kinds of error the upstream API call may raise. *)
Inductive Failure :=
| TimeoutFailure
| ServerFailure
| ValidationFailure
| AuthFailure.

Inductive AdapterError :=
| InvalidRequest
| Unavailable
| OperationFailed (lastError : option Failure).

Record RetryRun (T : Type) := {
  outcome : T + option Failure;
  invocations : nat;
  delays : list Z;
}.
Arguments outcome {T}.
Arguments invocations {T}.
Arguments delays {T}.

Section WithRetry.
Context {T : Type}.
(** What the [n]-th invocation of the operation does. *)
Variable operation : nat → T + Failure.
(** [Math.random() * 1000] at the wait after attempt [n], in whole
    milliseconds as the timer takes it. *)
Variable jitter : nat → Z.
Variables maxRetries baseDelay : Z.

(** The [for] loop of [withRetry] (lines 78-92); [iterations] bounds the
    attempts the guard [attempt <= maxRetries] lets through. *)
Fixpoint retryLoop (iterations attempt : nat) (lastError : option Failure)
    (waited : list Z) : RetryRun T :=
  match iterations with
  | O => {| outcome := inr lastError; invocations := attempt; delays := waited |}
  | S iterations =>
      if Z.of_nat attempt <=? maxRetries then
        match operation attempt with
        | inl v => {| outcome := inl v; invocations := S attempt; delays := waited |}
        | inr error =>
            if Z.of_nat attempt =? maxRetries
            then {| outcome := inr (Some error); invocations := S attempt;
                    delays := waited |}
            else
              let delay := baseDelay * 2 ^ Z.of_nat attempt + jitter attempt in
              retryLoop iterations (S attempt) (Some error) (waited ++ [delay])
        end
      else {| outcome := inr lastError; invocations := attempt; delays := waited |}
  end.

Definition withRetry : RetryRun T :=
  retryLoop (Z.to_nat (maxRetries + 1)) 0 None [].
End WithRetry.

(** The wait after a failed attempt (line 89). *)
Definition backoff (jitter : nat → Z) (baseDelay : Z) (attempt : nat) : Z :=
  baseDelay * 2 ^ Z.of_nat attempt + jitter attempt.

(** [validateRequest] of the OpenAI adapter (lines 175-189). *)
Definition validateRequest (cfg : Provider) (request : ProviderRequest) : bool :=
  bool_decide (rq_model request ∈ pv_models cfg) &&
  negb (String.eqb (pv_apiKey cfg) "") &&
  negb (bool_decide (rq_messages request = [])).

(** [OpenAIProvider.call] (lines 147-173): [client] is the upstream API,
    already speaking the types of the router, [retries] is [options.retries].
    The result comes with the number of invocations of [client] and the
    waits between them. *)
Definition call (cfg : Provider) (client : ProviderRequest → nat → ProviderResponse + Failure)
    (jitter : nat → Z) (request : ProviderRequest) (retries : option Z)
  : (ProviderResponse + AdapterError) * nat * list Z :=
  if negb (validateRequest cfg request) then (inr InvalidRequest, O, [])
  else
    let maxRetries := match retries with
                      | Some 0 | None => 3
                      | Some n => n
                      end in
    let run := withRetry (client request) jitter maxRetries 1000 in
    match outcome run with
    | inl response => (inl response, invocations run, delays run)
    | inr e => (inr (OperationFailed e), invocations run, delays run)
    end.

End Adapter.

(** ** Event pipeline (src/lib/core/event-pipeline.ts) *)

Module Pipeline.

Inductive PipelineStage :=
| INGEST
| VALIDATE
| CONTEXT_ANALYSIS
| PERSONALITY_ROUTING
| FUNCTION_EXECUTION
| MEMORY_UPDATE
| RESPONSE_GENERATION
| FEEDBACK_LOOP.

(** [Object.values(PipelineStage)] *)
Definition stages : list PipelineStage :=
  [INGEST; VALIDATE; CONTEXT_ANALYSIS; PERSONALITY_ROUTING; FUNCTION_EXECUTION;
   MEMORY_UPDATE; RESPONSE_GENERATION; FEEDBACK_LOOP].

Inductive EventType := Chat | FunctionCall | MemoryUpdate | ContextShift | PersonalityChange.

Record Event := {
  ev_id : string;
  ev_type : EventType;
  ev_userId : string;
  ev_sessionId : string;
  ev_priority : Z;
  ev_contextHash : string;
  ev_personalityId : string;
}.

Record Metrics := {
  startTime : Z;
  stageTimes : list (PipelineStage * Z);
  totalTime : Z;
}.

Record PipelineContext := {
  event : Event;
  stage : PipelineStage;
  data : gmap string Registry.JsValue;
  errors : list string;
  warnings : list string;
  metrics : Metrics;
}.

Inductive Notification :=
| StageStart (stage : PipelineStage)
| StageComplete (stage : PipelineStage)
| PipelineError (error : string)
| MemoryUpdated (kind : string) (userId : string).

(** What awaiting a step does: the context as the step left it, the time it
    took, what it emitted, and the error it raised, if any. *)
Record StepRun := {
  after : PipelineContext;
  took : Z;
  emits : list Notification;
  raised : option string;
}.

Definition Step : Type := PipelineContext → StepRun.

Definition Pipelines : Type := PipelineStage → option (list Step).

(** The short-lived cache: [setEx key ttl] is the rejection of the write, if
    it fails. *)
Record RedisClient := {
  setEx : string → Z → option string;
}.

(** [updateShortTermMemory] (lines 310-339) *)
Definition updateShortTermMemory (redis : RedisClient) : Step := λ context,
  let key := "memory:short:" +:+ ev_userId (event context) +:+ ":" +:+
             ev_sessionId (event context) in
  match setEx redis key 3600 with
  | Some error => {| after := context; took := 0; emits := []; raised := Some error |}
  | None => {| after := context; took := 0;
               emits := [MemoryUpdated "short_term" (ev_userId (event context))];
               raised := None |}
  end.

(** [initializePipelines] (lines 117-170); [method] stands for the other
    step methods of the class, by name.  No list is registered for
    [VALIDATE]. *)
Definition initializePipelines (redis : RedisClient) (method : string → Step) : Pipelines :=
  λ stage,
    match stage with
    | INGEST => Some [method "validateEvent"; method "enrichContext";
                      method "deduplicateEvent"]
    | VALIDATE => None
    | CONTEXT_ANALYSIS => Some [method "analyzeUserContext";
                                method "analyzeConversationContext";
                                method "analyzePersonalityContext";
                                method "generateContextHash"]
    | PERSONALITY_ROUTING => Some [method "determinePersonality";
                                   method "routeToPersonality";
                                   method "setupFallbackChain"]
    | FUNCTION_EXECUTION => Some [method "prepareFunctionContext";
                                  method "executeFunction";
                                  method "handleFunctionErrors";
                                  method "retryWithFallback"]
    | MEMORY_UPDATE => Some [updateShortTermMemory redis;
                             method "updateLongTermMemory";
                             method "updateSemanticMemory";
                             method "updateEmotionalMemory"]
    | RESPONSE_GENERATION => Some [method "generateResponse";
                                   method "applyPersonalityStyling";
                                   method "addContextualInsights"]
    | FEEDBACK_LOOP => Some [method "collectUserFeedback";
                             method "updateUserPreferences";
                             method "optimizePipeline";
                             method "updateMemoryWeights"]
    end.

Definition setStage (v : PipelineStage) (c : PipelineContext) :=
  {| event := event c; stage := v; data := data c; errors := errors c;
     warnings := warnings c; metrics := metrics c |}.

Definition setMetrics (v : Metrics) (c : PipelineContext) :=
  {| event := event c; stage := stage c; data := data c; errors := errors c;
     warnings := warnings c; metrics := v |}.

Definition pushError (e : string) (c : PipelineContext) :=
  {| event := event c; stage := stage c; data := data c;
     errors := errors c ++ [e]; warnings := warnings c; metrics := metrics c |}.

Definition recordStageTime (s : PipelineStage) (t : Z) (c : PipelineContext) :=
  setMetrics {| startTime := startTime (metrics c);
                stageTimes := stageTimes (metrics c) ++ [(s, t)];
                totalTime := totalTime (metrics c) |} c.

Definition setTotalTime (t : Z) (c : PipelineContext) :=
  setMetrics {| startTime := startTime (metrics c);
                stageTimes := stageTimes (metrics c);
                totalTime := t |} c.

(** What a run of steps or stages leaves behind. *)
Record Progress := {
  context : PipelineContext;
  now : Z;
  notified : list Notification;
  failure : option string;
}.

(** [for (const func of stageFunctions) await func(context)] *)
Fixpoint runSteps (steps : list Step) (c : PipelineContext) (t : Z) : Progress :=
  match steps with
  | [] => {| context := c; now := t; notified := []; failure := None |}
  | func :: rest =>
      let r := func c in
      match raised r with
      | Some e => {| context := after r; now := t + took r; notified := emits r;
                     failure := Some e |}
      | None =>
          let p := runSteps rest (after r) (t + took r) in
          {| context := context p; now := now p; notified := emits r ++ notified p;
             failure := failure p |}
      end
  end.

(** [for (const stage of Object.values(PipelineStage)) ...] (lines 198-211) *)
Fixpoint runStages (pipelines : Pipelines) (todo : list PipelineStage)
    (c : PipelineContext) (t : Z) : Progress :=
  match todo with
  | [] => {| context := c; now := t; notified := []; failure := None |}
  | stage :: rest =>
      let stageStartTime := t in
      let p := runSteps (default [] (pipelines stage)) (setStage stage c) t in
      match failure p with
      | Some e => {| context := context p; now := now p;
                     notified := StageStart stage :: notified p; failure := Some e |}
      | None =>
          let c1 := recordStageTime stage (now p - stageStartTime) (context p) in
          let q := runStages pipelines rest c1 (now p) in
          {| context := context q; now := now q;
             notified := StageStart stage :: notified p ++ StageComplete stage :: notified q;
             failure := failure q |}
      end
  end.

(** How [processEvent] ends: [inl] is the returned [context.data.response],
    [inr] the error it rethrows. *)
Record Processed := {
  finalContext : PipelineContext;
  notifications : list Notification;
  result : option Registry.JsValue + string;
}.

Definition processEvent (pipelines : Pipelines) (e : Event) (t : Z) : Processed :=
  let context0 := {| event := e; stage := INGEST; data := ∅; errors := [];
                     warnings := [];
                     metrics := {| startTime := t; stageTimes := []; totalTime := 0 |} |} in
  let p := runStages pipelines stages context0 t in
  match failure p with
  | None =>
      let c := setTotalTime (now p - startTime (metrics (context p))) (context p) in
      {| finalContext := c; notifications := notified p;
         result := inl (data c !! "response") |}
  | Some error =>
      {| finalContext := pushError error (context p);
         notifications := notified p ++ [PipelineError error];
         result := inr error |}
  end.

End Pipeline.

(** ** Message router (src/lib/router/routeMessage.ts) *)

Module Router.
Import Types Config.

Record UserProfile := {
  u_id : string;
  u_plan : string;
  u_memoryOptOut : bool;
}.

(** A property value of a row object, as the database client delivers it. *)
Inductive Value := Number (n : Z) | Text (s : string).

(** A row of [user_usage] (db/types.ts, lines 447-457). *)
Record UsageRow := {
  uu_id : string;
  uu_user_id : string;
  uu_daily_messages : Z;
  uu_monthly_messages : Z;
  uu_total_tokens : Z;
  uu_last_reset_date : string;
  uu_created_at : string;
  uu_updated_at : string;
}.

(** The object [select('*')] delivers for a row: one property per column,
    under the name of the column. *)
Definition object (row : UsageRow) : gmap string Value :=
  list_to_map
    [ ("id", Text (uu_id row)); ("user_id", Text (uu_user_id row));
      ("daily_messages", Number (uu_daily_messages row));
      ("monthly_messages", Number (uu_monthly_messages row));
      ("total_tokens", Number (uu_total_tokens row));
      ("last_reset_date", Text (uu_last_reset_date row));
      ("created_at", Text (uu_created_at row));
      ("updated_at", Text (uu_updated_at row)) ].

(** The collaborators of the router: the tables [user_profiles] (by
    [clerk_user_id]) and [user_usage], the rows sent to [user_usage] by
    [upsert], the history store [getConversationHistory conversationId
    maxMessages] and the memory store [getRelevantMemories query userId];
    and the runtime: [today] is [new Date().toDateString()], [now] is
    [new Date().toISOString()], [dateString v] is
    [new Date(v).toDateString()], and [numberOf t] is the number a text
    converts to in a comparison ([None] when it is not a number). *)
Record Stores := {
  profiles : gmap string UserProfile;
  usage : list UsageRow;
  upserts : list (gmap string Value);
  getConversationHistory : string → Z → list ChatMessage;
  getRelevantMemories : string → string → list string;
  today : string;
  now : string;
  dateString : Value → string;
  numberOf : string → option Q;
}.

(** The history store and the memory store of the source (lines 387-395):
    both are stubs. *)
Definition noHistory : string → Z → list ChatMessage := λ _ _, [].
Definition noMemories : string → string → list string := λ _ _, [].

Record RouteMessageRequest := {
  r_userId : string;
  r_personalityId : string;
  r_message : string;
  r_conversationId : option string;
  r_task : option string;
  r_model : option string;
}.

Inductive RouteError :=
| UserValidationFailed
| InvalidPlan
| InvalidPersonality
| TaskNotSupported (personality task : string).

Record UsageCheck := {
  fallbackApplied : bool;
  contextReduction : Q;
}.


Definition send (row : gmap string Value) (s : Stores) :=
  {| profiles := profiles s; usage := usage s; upserts := upserts s ++ [row];
     getConversationHistory := getConversationHistory s;
     getRelevantMemories := getRelevantMemories s;
     today := today s; now := now s; dateString := dateString s;
     numberOf := numberOf s |}.

(** [getUserUsage] (db/supabase.ts, lines 79-89): [single()] reports an
    error, which is thrown, unless exactly one row matches. *)
Definition getUserUsage (userId : string) (s : Stores) : option UsageRow :=
  match List.filter (λ row, String.eqb (uu_user_id row) userId) (usage s) with
  | [row] => Some row
  | _ => None
  end.

(** [incrementUsage] (db/supabase.ts, lines 92-105): the row
    [{user_id: userId, ...increment, updated_at}] is sent to [user_usage].
    What the database answers is not part of the repository; an error is
    thrown, and both callers catch it. *)
Definition incrementUsage (userId : string) (increment : gmap string Value) (s : Stores)
  : Stores :=
  send (<["updated_at" := Text (now s)]> (increment ∪ {[ "user_id" := Text userId ]})) s.

Definition truthyValue (v : Value) : bool :=
  match v with
  | Number n => negb (n =? 0)
  | Text t => negb (String.eqb t "")
  end.

(** [v >= limit] for a property [v] that may be missing: a missing property
    and a text that is not a number compare false. *)
Definition atLeast (s : Stores) (v : option Value) (limit : Z) : bool :=
  match v with
  | Some (Number n) => limit <=? n
  | Some (Text t) =>
      match numberOf s t with
      | Some q => Qle_bool (inject_Z limit) q
      | None => false
      end
  | None => false
  end.

(** The body of [checkUsageLimits] (lines 187-205) on the object [usage]
    that [getUserUsage] returned. *)
Definition checkUsage (usage : gmap string Value) (userId : string) (plan : Plan)
    (s : Stores) : UsageCheck * Stores :=
  let lastReset :=
    match usage !! "lastResetDate" with
    | Some v => if truthyValue v then Some (dateString s v) else None
    | None => None
    end in
  if negb (bool_decide (lastReset = Some (today s))) then
    ({| fallbackApplied := false; contextReduction := 1 |},
     incrementUsage userId
       {[ "dailyMessages" := Number 0; "lastResetDate" := Text (now s) ]} s)
  else if atLeast s (usage !! "dailyMessages") (p_dailyMessageLimit plan) then
    ({| fallbackApplied := true;
        contextReduction := p_contextReductionFactor plan |}, s)
  else ({| fallbackApplied := false; contextReduction := 1 |}, s).

(** [checkUsageLimits] (lines 181-210).  An error thrown by the lookup ends
    in the [catch]; so does an error thrown by the reset, and the [catch]
    answers what the reset path answers. *)
Definition checkUsageLimits (userId : string) (plan : Plan) (s : Stores)
  : UsageCheck * Stores :=
  match getUserUsage userId s with
  | None => ({| fallbackApplied := false; contextReduction := 1 |}, s)
  | Some row => checkUsage (object row) userId plan s
  end.

Definition formatMemoryContext (memories : list string) : string :=
  fold_right (λ m acc, "- " +:+ m +:+
                       match acc with EmptyString => "" | _ => String "010"%char acc end)
             "" memories.

(** [buildContext] (lines 212-257) *)
Definition buildContext (request : RouteMessageRequest) (personality : Personality)
    (plan : Plan) (user : UserProfile) (s : Stores) : list ChatMessage * list string :=
  let system := {| role := "system"; content := ps_systemPrompt personality |} in
  let history :=
    if truthy (r_conversationId request)
    then getConversationHistory s (default "" (r_conversationId request)) (p_contextSize plan)
    else [] in
  let messages := [system] ++ history ++ [{| role := "user"; content := r_message request |}] in
  let memories :=
    if p_memoryEnabled plan && negb (u_memoryOptOut user)
    then getRelevantMemories s (r_message request) (u_id user) else [] in
  match memories with
  | [] => (messages, memories)
  | _ =>
      let memoryContext :=
        {| role := "system";
           content := "Relevant context from previous conversations:" +:+
                      String "010"%char (formatMemoryContext memories) |} in
      (take 1 messages ++ memoryContext :: drop 1 messages, memories)
  end.

(** Steps 1-4 of [routeMessage] (lines 69-92): the error raised before the
    context exists, or the usage check and the assembled context. *)
Definition routeMessageContext (request : RouteMessageRequest) (s : Stores)
  : (UsageCheck * list ChatMessage * Stores) + RouteError :=
  match profiles s !! r_userId request with
  | None => inr UserValidationFailed
  | Some user =>
      match getPlan (u_plan user) with
      | None => inr InvalidPlan
      | Some plan =>
          match getPersonality (r_personalityId request) with
          | None => inr InvalidPersonality
          | Some personality =>
              let task := if truthy (r_task request)
                          then default "" (r_task request) else "chat" in
              if negb (bool_decide (task ∈ ps_allowedTasks personality))
              then inr (TaskNotSupported (r_personalityId request) task)
              else
                let '(check, s1) := checkUsageLimits (u_id user) plan s in
                let '(messages, _) := buildContext request personality plan user s1 in
                inl (check, messages, s1)
          end
      end
  end.

End Router.

(** ** Scenarios

    The capabilities and the caller of the registry test suite
    (src/tests/mcp-server.test.ts), used below as concrete inputs. *)

Module Scenarios.
Import Registry.

Definition capability (id name : string) (timeout retries : Z)
    (fallback : option string) (requiresAuth : bool) (perMinute burst : Z)
    (handler : Settlement) : FunctionDefinition :=
  {| fd_id := id; fd_name := name; fd_description := name; fd_version := "1.0.0";
     fd_category := Utility;
     fd_execution := {| ex_timeout := timeout; ex_retries := retries;
                        ex_fallback := fallback; ex_requiresAuth := requiresAuth;
                        ex_rateLimit := {| requestsPerMinute := perMinute;
                                           burstLimit := burst |} |};
     fd_tags := ["test"];
     fd_handler := λ _ _, handler |}.

Definition primary_function : FunctionDefinition :=
  capability "123e4567-e89b-12d3-a456-426614174000" "primary_function" 5000 1
    (Some "fallback_function") false 100 20 (Rejects 0 "Primary function failed").

Definition fallback_function : FunctionDefinition :=
  capability "123e4567-e89b-12d3-a456-426614174001" "fallback_function" 5000 1
    None false 100 20 (Resolves 0 (JsString "fallback result")).



Definition rate_limited_function : FunctionDefinition :=
  capability "123e4567-e89b-12d3-a456-426614174000" "rate_limited_function" 5000 1
    None false 1 1 (Resolves 0 (JsString "rate limited result")).

Definition secure_function : FunctionDefinition :=
  capability "123e4567-e89b-12d3-a456-426614174003" "secure_function" 5000 1
    None true 100 20 (Resolves 0 (JsString "secret")).

Definition error_function : FunctionDefinition :=
  capability "123e4567-e89b-12d3-a456-426614174000" "error_function" 5000 1
    None false 100 20 (Rejects 0 "Function execution failed").

Definition caller (user : option string) : FunctionExecutionContext :=
  {| ctx_functionId := "123e4567-e89b-12d3-a456-426614174000";
     ctx_userId := user; ctx_sessionId := "test-session-456";
     ctx_parameters := ∅; ctx_startTime := 0; ctx_retryCount := 0;
     ctx_fallbackChain := [] |}.

Definition testUser : FunctionExecutionContext := caller (Some "test-user-123").

(** A registry with the given capabilities registered in order. *)
Definition registryOf (ds : list FunctionDefinition) : FunctionRegistry :=
  foldl (λ r d, match registerFunction d r with inl r1 => r1 | inr _ => r end)
        Registry.empty ds.

Definition anonymous : FunctionExecutionContext := caller None.

Definition secureRegistry : FunctionRegistry := registryOf [secure_function].
Definition limitedRegistry : FunctionRegistry := registryOf [rate_limited_function].
Definition errorRegistry : FunctionRegistry := registryOf [error_function].


End Scenarios.

(** The router scenarios: API keys, an upstream that always fails, and a
    sequence of calls on one manager. *)
Module RouterScenarios.
Import Types Config Providers.

Definition apiKey : string → string := λ _, "sk-test".

Definition failing : Adapters := λ _ _ _, Fails 10 "upstream error".

Definition ask (model : string) : ProviderRequest :=
  {| rq_model := model;
     rq_messages := [{| role := "user"; content := "hello" |}];
     rq_maxTokens := 4000 |}.

Definition noOptions : CallOptions :=
  {| o_userId := None; o_planId := None; o_personality := None; o_task := None;
     o_forceProvider := None |}.

Definition onPlan (plan : string) : CallOptions :=
  {| o_userId := Some "user-1"; o_planId := Some plan; o_personality := None;
     o_task := None; o_forceProvider := None |}.

(** [n] calls, one after the other. *)
Fixpoint repeatCall (n : nat) (adapters : Adapters) (request : ProviderRequest)
    (options : CallOptions) (m : ProviderManager) : ProviderManager :=
  match n with
  | O => m
  | S n => repeatCall n adapters request options (call adapters request options m).1
  end.

End RouterScenarios.

(** An upstream that rejects the credentials of the first request and
    answers the second. *)
Module AdapterScenarios.
Import Types Config Adapter.

Definition answer : ProviderResponse :=
  {| rs_id := "chatcmpl-1"; rs_model := "gpt-4"; rs_content := "hi";
     rs_totalTokens := 12; rs_provider := "OpenAI";
     rs_metadata := {| processingTime := 0; fallbackUsed := false;
                       providerUsed := None; fallbackReason := None; cost := 0 |} |}.

Definition rejectsOnce : nat → ProviderResponse + Failure :=
  λ n, match n with O => inr AuthFailure | _ => inl answer end.

Definition noJitter : nat → Z := λ _, 0.

Definition openai : Provider :=
  {| pv_name := "OpenAI"; pv_apiKey := "sk-test";
     pv_models := ["gpt-4"; "gpt-4-turbo"; "gpt-3.5-turbo"];
     pv_fallbackPriority := 1; pv_enabled := true |}.

End AdapterScenarios.

(** The chat event of the pipeline tests, a cache that refuses writes, and
    step methods that do nothing. *)
Module PipelineScenarios.
Import Pipeline.

Definition chatEvent : Event :=
  {| ev_id := "123e4567-e89b-12d3-a456-426614174000"; ev_type := Chat;
     ev_userId := "test-user-123"; ev_sessionId := "test-session-456";
     ev_priority := 5; ev_contextHash := "hash123";
     ev_personalityId := "researcher" |}.

Definition redisDown : RedisClient := {| setEx := λ _ _, Some "ECONNREFUSED" |}.

Definition redisUp : RedisClient := {| setEx := λ _ _, None |}.

Definition idle : string → Step :=
  λ _ context, {| after := context; took := 1; emits := []; raised := None |}.

(** The pipelines of the engine when the cache refuses writes. *)
Definition cacheDown : Pipelines := initializePipelines redisDown idle.

End PipelineScenarios.

(** A caller on the free plan (10 messages a day, context size 5, reduction
    factor 0.5) whose conversation holds eight earlier messages. *)
Module ChatScenarios.
Import Types Config Router.

(** The row of [user_usage] of a user who has sent [sent] messages on the
    fifteenth of January. *)
Definition usageOf (sent : Z) : UsageRow :=
  {| uu_id := "usage-1"; uu_user_id := "user-1";
     uu_daily_messages := sent; uu_monthly_messages := sent; uu_total_tokens := 0;
     uu_last_reset_date := "2024-01-15T08:00:00.000Z";
     uu_created_at := "2024-01-01T08:00:00.000Z";
     uu_updated_at := "2024-01-15T08:00:00.000Z" |}.

(** The stores as the source has them, at noon of the same day. *)
Definition storesWith (sent : Z) : Stores :=
  {| profiles := {[ "clerk-1" := {| u_id := "user-1"; u_plan := "free";
                                    u_memoryOptOut := false |} ]};
     usage := [usageOf sent];
     upserts := [];
     getConversationHistory := noHistory;
     getRelevantMemories := noMemories;
     today := "Mon Jan 15 2024";
     now := "2024-01-15T12:00:00.000Z";
     dateString := λ v, match v with
                        | Text t => if String.prefix "2024-01-15T" t
                                    then "Mon Jan 15 2024" else "Invalid Date"
                        | Number _ => "Thu Jan 01 1970"
                        end;
     numberOf := λ _, None |}.


Definition chat : RouteMessageRequest :=
  {| r_userId := "clerk-1"; r_personalityId := "mitra"; r_message := "hello";
     r_conversationId := Some "conv-1"; r_task := Some "general"; r_model := None |}.



Definition fresh := routeMessageContext chat (storesWith 0).

End ChatScenarios.

(** ** Registry management (function-reflector.ts, lines 310-386) *)

Module Management.
Import Registry.

(** The notifications of [unregisterFunction] and [updateFunction]. *)
Inductive ManagementEvent :=
| FunctionUnregistered (name : string)
| FunctionUpdated (name : string).

(** [getExecutionHistory]: the recorded result objects, oldest first. *)
Definition getExecutionHistory (name : string) (r : FunctionRegistry)
  : list FunctionExecutionResult :=
  omap (λ a, heap r !! a) (default [] (executionHistory r !! name)).

(** [unregisterFunction] (lines 342-366): the capability, its membership of
    its category, its limiter and its fallback link go; its execution
    history stays. *)
Definition unregisterFunction (name : string) (r : FunctionRegistry)
  : bool * FunctionRegistry * list ManagementEvent :=
  match functions r !! name with
  | None => (false, r, [])
  | Some functionDef =>
      let cat := categoryName (fd_category functionDef) in
      let categories1 :=
        match categories r !! cat with
        | Some members =>
            let members1 := members ∖ {[name]} in
            if bool_decide (members1 = ∅) then delete cat (categories r)
            else <[cat := members1]> (categories r)
        | None => categories r
        end in
      (true,
       {| functions := delete name (functions r);
          categories := categories1;
          executionHistory := executionHistory r;
          rateLimiters := delete name (rateLimiters r);
          fallbackChains := delete name (fallbackChains r);
          heap := heap r; emitted := emitted r; clock := clock r |},
       [FunctionUnregistered name])
  end.

(** [Partial<FunctionDefinition>]: the fields an update replaces. *)
Record Updates := {
  up_id : option string;
  up_name : option string;
  up_description : option string;
  up_version : option string;
  up_category : option Category;
  up_execution : option Execution;
  up_tags : option (list string);
  up_handler : option (gmap string JsValue → FunctionExecutionContext → Settlement);
}.

(** [{ ...existing, ...updates }] *)
Definition merge (existing : FunctionDefinition) (updates : Updates) : FunctionDefinition :=
  {| fd_id := default (fd_id existing) (up_id updates);
     fd_name := default (fd_name existing) (up_name updates);
     fd_description := default (fd_description existing) (up_description updates);
     fd_version := default (fd_version existing) (up_version updates);
     fd_category := default (fd_category existing) (up_category updates);
     fd_execution := default (fd_execution existing) (up_execution updates);
     fd_tags := default (fd_tags existing) (up_tags updates);
     fd_handler := default (fd_handler existing) (up_handler updates) |}.

(** [updateFunction] (lines 368-386): the merged definition is validated and
    stored under the old name; nothing else of the registry is written. *)
Definition updateFunction (name : string) (updates : Updates) (r : FunctionRegistry)
  : bool * FunctionRegistry * list ManagementEvent :=
  match functions r !! name with
  | None => (false, r, [])
  | Some existing =>
      let updated := merge existing updates in
      if schemaParse updated then
        (true,
         {| functions := <[name := updated]> (functions r);
            categories := categories r;
            executionHistory := executionHistory r;
            rateLimiters := rateLimiters r;
            fallbackChains := fallbackChains r;
            heap := heap r; emitted := emitted r; clock := clock r |},
         [FunctionUpdated name])
      else (false, r, [])
  end.

(** *** Predicates used in the statements *)

(** No capability has more than 100 recorded executions. *)
Definition historyBounded (r : FunctionRegistry) : Prop :=
  ∀ name history, executionHistory r !! name = Some history → (length history ≤ 100)%nat.

(** No limiter holds, for any caller, a full time stamp more than its limit:
    a list is written on admission only, which takes a count below the
    limit and adds one stamp. *)
Definition limitersBounded (r : FunctionRegistry) : Prop :=
  ∀ name limiter key times,
    rateLimiters r !! name = Some limiter →
    lim_requests limiter !! key = Some times →
    Z.of_nat (length times) < lim_limit limiter + 1.

(** The time stamps the limiter of capability [name] holds for [key]. *)
Definition storedRequests (name key : string) (r : FunctionRegistry) : option (list Z) :=
  limiter ← rateLimiters r !! name; lim_requests limiter !! key.

(** The limiter of [name] keeps its limit and its window, and no stamp under
    [key] lies in the future. *)
Definition settled (name key : string) (limit window : Z) (r : FunctionRegistry) : Prop :=
  ∃ limiter,
    rateLimiters r !! name = Some limiter ∧
    lim_limit limiter = limit ∧ lim_window limiter = window ∧
    ∀ t, t ∈ default [] (lim_requests limiter !! key) → t ≤ clock r.

End Management.

(** Further capabilities and updates used as concrete inputs. *)
Module ManagementScenarios.
Import Registry Management Scenarios.

(** A capability registered with a limit of zero requests per minute. *)
Definition disabled_function : FunctionDefinition :=
  capability "123e4567-e89b-12d3-a456-426614174004" "disabled_function" 5000 1
    None false 0 1 (Resolves 0 (JsString "never")).

Definition disabledRegistry : FunctionRegistry := registryOf [disabled_function].

Definition successRegistry : FunctionRegistry := registryOf [fallback_function].

(** An update that raises the limit of [rate_limited_function] to 1000. *)
Definition relaxed : Updates :=
  {| up_id := None; up_name := None; up_description := None; up_version := None;
     up_category := None;
     up_execution := Some {| ex_timeout := 5000; ex_retries := 1; ex_fallback := None;
                             ex_requiresAuth := false;
                             ex_rateLimit := {| requestsPerMinute := 1000;
                                                burstLimit := 1 |} |};
     up_tags := None; up_handler := None |}.

(** [primary_function] alone: its declared fallback is not registered. *)
Definition orphanRegistry : FunctionRegistry := registryOf [primary_function].

End ManagementScenarios.

(** Managers and options used as concrete inputs for the circuit breaker. *)
Module BreakerScenarios.
Import Types Config Providers RouterScenarios.

(** An upstream that answers every request after 10 ms. *)
Definition answering : Adapters := λ _ _ _, Responds 10 AdapterScenarios.answer.

(** Four calls on the free plan for a Perplexity model while every upstream
    fails: OpenAI, the fallback provider, has failed four times. *)
Definition strained : ProviderManager :=
  repeatCall 4 failing (ask "llama-3.1-70b-instruct") (onPlan "free") (newManager apiKey 1).

(** One more: the circuit of OpenAI is open. *)
Definition tripped : ProviderManager :=
  repeatCall 5 failing (ask "llama-3.1-70b-instruct") (onPlan "free") (newManager apiKey 1).

(** Only the upstream of OpenAI answers. *)
Definition onlyOpenAI : Adapters :=
  λ p, if String.eqb p "openai" then answering p else failing p.

Definition forceTo (provider : string) : CallOptions :=
  {| o_userId := None; o_planId := Some "pro"; o_personality := None; o_task := None;
     o_forceProvider := Some provider |}.

Definition withoutBreaker (m : ProviderManager) : ProviderManager :=
  {| providers := providers m;
     config := {| enableCircuitBreaker := false;
                  enableRateLimiting := enableRateLimiting (config m);
                  maxRetries := maxRetries (config m);
                  fallbackTimeout := fallbackTimeout (config m) |};
     breakers := breakers m; attempts := attempts m; adapterCalls := adapterCalls m;
     clock := clock m |}.

End BreakerScenarios.

(** ** Personality scoring (src/lib/core/event-pipeline.ts, lines 427-456) *)

Module Scoring.

(** The argument of [calculatePersonalityScore]: [userPreferences] is [None]
    when the stored preferences are missing, otherwise their [learningMode];
    [emotionalState] is [None] when it is not a string. *)
Record ScoreContext := {
  eventType : string;
  userPreferences : option (option string);
  emotionalState : option string;
}.

Record PersonalityScore := {
  topChoice : string;
  scores : list (string * Z);
}.

Inductive ScoreError := PreferencesMissing.

(** [scores.<name> += by] *)
Definition bump (name : string) (by_ : Z) (scores : list (string * Z)) : list (string * Z) :=
  (λ entry, if String.eqb entry.1 name then (entry.1, entry.2 + by_) else entry) <$> scores.

(** [sort(([,a], [,b]) => b - a)]: descending by score, and stable. *)
Fixpoint insertByScore (x : string * Z) (sorted : list (string * Z)) : list (string * Z) :=
  match sorted with
  | [] => [x]
  | y :: rest => if x.2 <? y.2 then y :: insertByScore x rest else x :: y :: rest
  end.

Definition sortByScore (entries : list (string * Z)) : list (string * Z) :=
  foldr insertByScore [] entries.

Definition ranked (scores : list (string * Z)) : PersonalityScore :=
  let sorted := sortByScore scores in
  {| topChoice := default "" (fst <$> head sorted); scores := sorted |}.

Definition calculatePersonalityScore (context : ScoreContext)
  : PersonalityScore + ScoreError :=
  let scores := [("researcher", 0); ("visheshagya", 0); ("shikshak", 0); ("mitra", 0)] in
  if String.eqb (eventType context) "chat" then
    let scores := bump "mitra" 2 scores in
    let scores := if bool_decide (emotionalState context = Some "stressed")
                  then bump "visheshagya" 3 scores else scores in
    match userPreferences context with
    | None => inr PreferencesMissing
    | Some learningMode =>
        let scores := if bool_decide (learningMode = Some "structured")
                      then bump "shikshak" 2 scores else scores in
        inl (ranked scores)
    end
  else inl (ranked scores).

End Scoring.

(** ** Model selection (src/lib/router/routeMessage.ts, lines 259-280;
    src/lib/config/tasks.ts, lines 237-271) *)

Module Selection.
Import Types Config.

(** The requirement flags of a task and the capability flags of a model. *)
Record Task := {
  requiresVision : bool;
  requiresWebSearch : bool;
  requiresFunctionCalling : bool;
}.

Record Features := {
  supportsVision : bool;
  supportsWebSearch : bool;
  supportsFunctionCalling : bool;
}.

Section Catalogue.
(** [getTask] over the table of tasks.ts, the capability flags of the model
    records of models.ts, and the order by quality and cost of [sort]. *)
Variable getTask : string → option Task.
Variable features : Model → Features.
Variable sortModels : list Model → list Model.

Definition suits (task : Task) (model : Model) : bool :=
  (negb (requiresVision task) || supportsVision (features model)) &&
  (negb (requiresWebSearch task) || supportsWebSearch (features model)) &&
  (negb (requiresFunctionCalling task) || supportsFunctionCalling (features model)).

(** [Object.values(getModel)]: [getModel] is a function and has no
    enumerable property. *)
Definition valuesOfGetModel : list Model := [].

Definition getRecommendedModel (taskId personalityId planId : string) : option string :=
  match getTask taskId, getPersonality personalityId with
  | Some task, Some personality =>
      let best :=
        let availableModels := List.filter (suits task) valuesOfGetModel in
        if (length availableModels =? 0)%nat then None
        else m_id <$> head (sortModels availableModels) in
      match getModel (ps_defaultModel personality) with
      | Some defaultModel =>
          if suits task defaultModel then Some (m_id defaultModel) else best
      | None => best
      end
  | _, _ => None
  end.

Definition selectModel (task : string) (personality : Personality) (plan : Plan)
    (forcedModel : option string) : string :=
  let forced :=
    if truthy forcedModel then
      match getModel (default "" forcedModel) with
      | Some _ => if bool_decide (task ∈ ps_allowedTasks personality)
                  then forcedModel else None
      | None => None
      end
    else None in
  match forced with
  | Some model => model
  | None =>
      let recommendedModel := getRecommendedModel task (ps_id personality) (p_id plan) in
      if truthy recommendedModel then default "" recommendedModel
      else ps_defaultModel personality
  end.
End Catalogue.

End Selection.

(** The notifications of the engine itself, as opposed to those of steps. *)
Module PipelineViews.
Import Pipeline.

Definition isStageMark (n : Notification) : bool :=
  match n with
  | StageStart _ | StageComplete _ | PipelineError _ => true
  | MemoryUpdated _ _ => false
  end.

(** Start and completion of each stage of [done], in order. *)
Definition brackets (done : list PipelineStage) : list Notification :=
  concat ((λ s, [StageStart s; StageComplete s]) <$> done).

(** No step emits a notification of the engine. *)
Definition quietSteps (pipelines : Pipelines) : Prop :=
  ∀ s steps step c,
    pipelines s = Some steps → step ∈ steps →
    List.filter isStageMark (emits (step c)) = [].

End PipelineViews.

Module SelectionScenarios.
Import Types Config Router.

(** A request that names no task. *)
Definition taskless : RouteMessageRequest :=
  {| r_userId := "clerk-1"; r_personalityId := "mitra"; r_message := "hello";
     r_conversationId := Some "conv-1"; r_task := None; r_model := None |}.

Definition shikshak : Personality :=
  {| ps_id := "shikshak";
     ps_systemPrompt := shikshakPrompt;
     ps_allowedTasks := ["teaching"; "learning"; "skill-development"; "explanation"; "assessment"];
     ps_defaultModel := "claude-3-haiku"; ps_maxTokens := 3500; ps_enabled := true |}.

Definition freePlan : Plan :=
  {| p_id := "free"; p_dailyMessageLimit := 10; p_contextSize := 5;
     p_memoryEnabled := false; p_contextReductionFactor := 5 # 10;
     p_modelDowngradeChain := ["gpt-3.5-turbo"; "claude-3-haiku"];
     p_enabled := true |}.

(** A tasks table in which every task needs nothing, and models without
    capabilities. *)
Definition plainTask : string → option Selection.Task :=
  λ _, Some {| Selection.requiresVision := false; Selection.requiresWebSearch := false;
               Selection.requiresFunctionCalling := false |}.

Definition noFeatures : Model → Selection.Features :=
  λ _, {| Selection.supportsVision := false; Selection.supportsWebSearch := false;
          Selection.supportsFunctionCalling := false |}.

Definition structuredChat : Scoring.ScoreContext :=
  {| Scoring.eventType := "chat"; Scoring.userPreferences := Some (Some "structured");
     Scoring.emotionalState := Some "calm" |}.

End SelectionScenarios.

(** ** Discovery by category (src/lib/core/function-reflector.ts, lines 128-135) *)

Module Discovery.
Import Registry Management.

(** [getFunctionsByCategory]: the definitions of the names in the set of
    the category, names without a definition left out. *)
Definition getFunctionsByCategory (category : string) (r : FunctionRegistry)
  : list FunctionDefinition :=
  match categories r !! category with
  | None => []
  | Some functionNames => omap (λ name, functions r !! name) (elements functionNames)
  end.

(** The category index is exact: the set of a category holds exactly the
    names of the registered capabilities of that category. *)
Definition indexExact (r : FunctionRegistry) : Prop :=
  (∀ category members name,
     categories r !! category = Some members → name ∈ members →
     ∃ d, functions r !! name = Some d ∧ categoryName (fd_category d) = category) ∧
  (∀ name d,
     functions r !! name = Some d →
     ∃ members, categories r !! categoryName (fd_category d) = Some members ∧
                name ∈ members).

(** An update that moves a capability to the category [analysis]. *)
Definition recategorised : Updates :=
  {| up_id := None; up_name := None; up_description := None; up_version := None;
     up_category := Some Analysis; up_execution := None; up_tags := None;
     up_handler := None |}.

End Discovery.

(** ** The request gate of the chat route (src/app/api/chat/[personality]/route.ts,
    lines 33-44; src/lib/db/redis.ts, lines 89-103) *)

Module RequestLimit.

(** A counter key of the store with its expiry time. *)
Record Counter := {
  value : Z;
  expiresAt : Z;
}.

(** The store: [reachable] is false when its commands are rejected. *)
Record Redis := {
  reachable : bool;
  keys : gmap string Counter;
}.

(** [incr key]: an absent or expired key counts from 0. *)
Definition current (windowKey : string) (now : Z) (redis : Redis) : Z :=
  match keys redis !! windowKey with
  | Some c => if now <? expiresAt c then value c else 0
  | None => 0
  end.

(** [incrementRateLimit] (redis.ts, lines 89-103): the count of the window of
    [now], after counting this request; 0 when the store is not reachable. *)
Definition incrementRateLimit (key : string) (windowMs now : Z) (redis : Redis)
  : Z * Redis :=
  if negb (reachable redis) then (0, redis)
  else
    let windowKey := key +:+ ":" +:+ pretty (now `div` windowMs) in
    let count := current windowKey now redis + 1 in
    let seconds := - ((- windowMs) `div` 1000) in
    (count,
     {| reachable := reachable redis;
        keys := <[windowKey := {| value := count; expiresAt := now + seconds * 1000 |}]>
                  (keys redis) |}).

(** Step 1 of [POST]: whether the request is answered with status 429. *)
Definition gate (clientIp : string) (now : Z) (redis : Redis) : bool * Redis :=
  let '(currentCount, redis1) :=
    incrementRateLimit ("rate_limit:" +:+ clientIp) 60000 now redis in
  (100 <? currentCount, redis1).

(** The requests of one client at the given times, one after the other. *)
Fixpoint serve (clientIp : string) (times : list Z) (redis : Redis) : list bool :=
  match times with
  | [] => []
  | now :: rest =>
      let '(limited, redis1) := gate clientIp now redis in
      limited :: serve clientIp rest redis1
  end.

(** An empty store that is reachable. *)
Definition fresh : Redis := {| reachable := true; keys := ∅ |}.

End RequestLimit.

(** ** The provider manager when the circuit-breaker store fails

    The helpers of redis.ts catch every error of the store: a read that
    fails reports a closed circuit without failures (lines 136-139), a write
    that fails is dropped (lines 164-166).  The router of manager.ts is
    embedded here once more over these helpers. *)

Module Outage.
Import Types Config Providers.

Section Store.
(** Whether the store answers the commands sent to it at a given time. *)
Variable reachable : Z → bool.

(** [getCircuitBreakerState] (redis.ts, lines 120-140) *)
Definition getCircuitBreakerState (key : string) (m : ProviderManager) : CircuitState :=
  if reachable (clock m) then Providers.getCircuitBreakerState key m
  else {| status := Closed; failureCount := 0; lastFailureTime := None;
          nextAttemptTime := None |}.

(** [updateCircuitBreakerState] (redis.ts, lines 142-167) *)
Definition updateCircuitBreakerState (key : string) (s : CircuitState)
    (m : ProviderManager) : ProviderManager :=
  if reachable (clock m) then Providers.updateCircuitBreakerState key s m else m.

(** [callProvider] (manager.ts, lines 198-235) *)
Definition callProvider (adapters : Adapters) (providerName : string)
    (request : ProviderRequest) (m : ProviderManager)
  : ProviderManager * (ProviderResponse + ProviderError) :=
  let m := noteAttempt providerName m in
  match providersGet providerName m with
  | None => (m, inr (ProviderNotFound providerName))
  | Some _ =>
      let circuitState := getCircuitBreakerState providerName m in
      if enableCircuitBreaker (config m) && isOpen (status circuitState) &&
         match truthyTime (nextAttemptTime circuitState) with
         | Some next => clock m <? next
         | None => false
         end
      then (m, inr (CircuitOpen providerName))
      else
        let m1 :=
          if enableCircuitBreaker (config m) && isOpen (status circuitState)
          then updateCircuitBreakerState providerName (setStatus HalfOpen circuitState) m
          else m in
        let m2 := noteAdapterCall providerName m1 in
        match adapters providerName request (clock m2) with
        | Responds after response => (elapse after m2, inl response)
        | Fails after message => (elapse after m2, inr (AdapterFailed message))
        end
  end.

(** [updateCircuitBreaker] (manager.ts, lines 237-271) *)
Definition updateCircuitBreaker (providerName : string) (success : bool)
    (m : ProviderManager) : ProviderManager :=
  if negb (enableCircuitBreaker (config m)) then m
  else
    let currentState := getCircuitBreakerState providerName m in
    if success then
      updateCircuitBreakerState providerName
        {| status := Closed; failureCount := 0; lastFailureTime := None;
           nextAttemptTime := None |} m
    else
      let newFailureCount := failureCount currentState + 1 in
      let shouldOpen := threshold <=? newFailureCount in
      updateCircuitBreakerState providerName
        {| status := if shouldOpen then Open else Closed;
           failureCount := newFailureCount;
           lastFailureTime := Some (clock m);
           nextAttemptTime := if shouldOpen then Some (clock m + timeout) else None |} m.

(** The loop over the fallback chain (manager.ts, lines 90-119) *)
Fixpoint tryFallbacks (adapters : Adapters) (provider : string)
    (request : ProviderRequest) (startTime : Z) (fallbackChain : list string)
    (m : ProviderManager) : ProviderManager * option ProviderResponse :=
  match fallbackChain with
  | [] => (m, None)
  | fallbackProvider :: rest =>
      match callProvider adapters fallbackProvider request m with
      | (m1, inl response) =>
          let m2 := if enableCircuitBreaker (config m1)
                    then updateCircuitBreaker fallbackProvider true m1 else m1 in
          (m2, Some (tagResponse response (clock m2 - startTime) true fallbackProvider
                       (Some ("Primary provider " +:+ provider +:+ " failed"))))
      | (m1, inr _) =>
          let m2 := if enableCircuitBreaker (config m1)
                    then updateCircuitBreaker fallbackProvider false m1 else m1 in
          tryFallbacks adapters provider request startTime rest m2
      end
  end.

(** [call] (manager.ts, lines 49-127) *)
Definition call (adapters : Adapters) (request : ProviderRequest)
    (options : CallOptions) (m : ProviderManager)
  : ProviderManager * (ProviderResponse + ManagerError) :=
  let startTime := clock m in
  match selectProvider (rq_model request) options m with
  | inr e => (m, inr e)
  | inl (provider, _, fallbackChain) =>
      match callProvider adapters provider request m with
      | (m1, inl response) =>
          let m2 := if enableCircuitBreaker (config m1)
                    then updateCircuitBreaker provider true m1 else m1 in
          (m2, inl (tagResponse response (clock m2 - startTime) false provider None))
      | (m1, inr _) =>
          match tryFallbacks adapters provider request startTime fallbackChain m1 with
          | (m2, Some response) => (m2, inl response)
          | (m2, None) => (m2, inr (AllProvidersFailed (rq_model request)))
          end
      end
  end.
End Store.

(** A store that always answers, one that never does, and one that stops
    answering at a given time. *)
Definition always : Z → bool := λ _, true.
Definition never : Z → bool := λ _, false.
Definition until (t0 : Z) : Z → bool := λ t, t <? t0.

End Outage.

(** * Properties *)

Module RegistryFacts.
Import Registry.

(** *** The recursion of [executeFunction] is well founded *)

Lemma maxRetries_lookup (fs : gmap string FunctionDefinition) n d :
  fs !! n = Some d → ex_retries (fd_execution d) ≤ maxRetries fs.
Proof.
  intros Hn. apply elem_of_map_to_list in Hn. unfold maxRetries.
  revert Hn. generalize (map_to_list fs). intros l.
  induction l as [|p l IH]; intros Hin; [by apply elem_of_nil in Hin|].
  apply elem_of_cons in Hin as [<-|Hin]; simpl; [lia|].
  specialize (IH Hin). lia.
Qed.

Lemma functions_checkRateLimit d c r :
  functions (checkRateLimit d c r).2 = functions r.
Proof.
  unfold checkRateLimit. destruct (rateLimiters r !! fd_name d); [|done].
  by case_match.
Qed.

Lemma clock_checkRateLimit d c r :
  clock (checkRateLimit d c r).2 = clock r.
Proof.
  unfold checkRateLimit. destruct (rateLimiters r !! fd_name d); [|done].
  by case_match.
Qed.

(** [executeFunctionBody] consults [exec] only for a fallback hop: one more
    retry, same capabilities, and a retry budget that was not yet used up. *)
Lemma executeFunctionBody_ext exec1 exec2 name c r :
  (∀ n c1 r1,
      ctx_retryCount c1 = ctx_retryCount c + 1 →
      functions r1 = functions r →
      ctx_retryCount c < maxRetries (functions r) →
      exec1 n c1 r1 = exec2 n c1 r1) →
  executeFunctionBody exec1 name c r = executeFunctionBody exec2 name c r.
Proof.
  intros Hext. unfold executeFunctionBody, runHandler, getFunction.
  destruct (functions r !! name) as [d|] eqn:Hd; [|done].
  pose proof (functions_checkRateLimit d c r) as Hfs.
  destruct (checkRateLimit d c r) as [admitted r1]; simpl in Hfs.
  destruct admitted; simpl; [|done].
  destruct (ex_requiresAuth (fd_execution d) && negb (truthy (ctx_userId c))); [done|].
  destruct (race _ _) as [elapsed [v|message]]; [done|].
  destruct (truthy (ex_fallback (fd_execution d)) &&
            (ctx_retryCount c <? ex_retries (fd_execution d))) eqn:Hgo; [|done].
  apply andb_true_iff in Hgo as [_ Hlt]. apply Z.ltb_lt in Hlt.
  unfold executeFallback, getFunction.
  destruct (functions (elapse elapsed r1) !! _); [|done].
  rewrite Hext; [done|done|by simpl|].
  pose proof (maxRetries_lookup _ _ _ Hd). lia.
Qed.

Lemma executeFunctionFuel_total fuel name c r :
  (hops c r ≤ fuel)%nat → is_Some (executeFunctionFuel fuel name c r).
Proof.
  revert name c r. induction fuel as [|fuel IH]; intros name c r Hfuel.
  { unfold hops in Hfuel. lia. }
  simpl. unfold executeFunctionBody, runHandler, getFunction.
  destruct (functions r !! name) as [d|] eqn:Hd; [|done].
  pose proof (functions_checkRateLimit d c r) as Hfs.
  destruct (checkRateLimit d c r) as [admitted r1]; simpl in Hfs.
  destruct admitted; simpl; [|done].
  destruct (ex_requiresAuth (fd_execution d) && negb (truthy (ctx_userId c))); [done|].
  destruct (race _ _) as [elapsed [v|message]]; [done|].
  destruct (truthy (ex_fallback (fd_execution d)) &&
            (ctx_retryCount c <? ex_retries (fd_execution d))) eqn:Hgo; [|done].
  apply andb_true_iff in Hgo as [_ Hlt]. apply Z.ltb_lt in Hlt.
  unfold executeFallback, getFunction.
  destruct (functions (elapse elapsed r1) !! _); [|by destruct (alloc _ _)].
  destruct (IH (default "" (ex_fallback (fd_execution d)))
               (noteFallback (default "" (ex_fallback (fd_execution d))) c)
               (elapse elapsed r1)) as [[[r2 c2] [a|e]] ->].
  - pose proof (maxRetries_lookup _ _ _ Hd). unfold hops in *. simpl.
    rewrite Hfs. lia.
  - done.
  - by destruct (alloc _ _).
Qed.

Lemma executeFunctionFuel_mono fuel fuel' name c r run :
  executeFunctionFuel fuel name c r = Some run → (fuel ≤ fuel')%nat →
  executeFunctionFuel fuel' name c r = Some run.
Proof.
  revert fuel' name c r run.
  induction fuel as [|fuel IH]; intros fuel' name c r run Hrun Hle; [done|].
  destruct fuel' as [|fuel']; [lia|]. simpl in *.
  revert Hrun. unfold executeFunctionBody, runHandler.
  destruct (getFunction name r) as [d|]; [|done].
  destruct (checkRateLimit d c r) as [admitted r1].
  destruct (negb admitted); [done|].
  destruct (ex_requiresAuth (fd_execution d) && negb (truthy (ctx_userId c))); [done|].
  destruct (race _ _) as [elapsed [v|message]]; [done|].
  destruct (truthy (ex_fallback (fd_execution d)) &&
            (ctx_retryCount c <? ex_retries (fd_execution d))); [|done].
  unfold executeFallback.
  destruct (getFunction _ (elapse elapsed r1)); [|done].
  destruct (executeFunctionFuel fuel _ _ _) as [run1|] eqn:Hinner; [|done].
  by rewrite (IH fuel' _ _ _ run1 Hinner); [|lia].
Qed.

Lemma executeFunction_fuel fuel name c r :
  (hops c r ≤ fuel)%nat →
  executeFunctionFuel fuel name c r = Some (executeFunction name c r).
Proof.
  intros Hfuel. unfold executeFunction.
  destruct (executeFunctionFuel_total (hops c r) name c r) as [run Hrun]; [done|].
  rewrite Hrun. simpl. by eapply executeFunctionFuel_mono.
Qed.

(** [executeFunction] satisfies the recursive equation of the source. *)
Lemma executeFunction_unfold name c r :
  executeFunctionBody (λ n c1 r1, Some (executeFunction n c1 r1)) name c r
  = Some (executeFunction name c r).
Proof.
  rewrite <- (executeFunction_fuel (hops c r) name c r); [|done].
  unfold hops at 1. simpl. apply executeFunctionBody_ext.
  intros n c1 r1 Hc Hfs Hlt. symmetry. apply executeFunction_fuel.
  unfold hops. rewrite Hfs, Hc. lia.
Qed.

(** *** One activation, case by case *)

Lemma executeFunction_notFound name c r :
  getFunction name r = None →
  executeFunction name c r = (r, c, Thrown (NotFound name)).
Proof.
  intros Hd. pose proof (executeFunction_unfold name c r) as E.
  unfold executeFunctionBody in E. rewrite Hd in E. congruence.
Qed.

Lemma executeFunction_rateLimited name c r d r1 :
  getFunction name r = Some d →
  checkRateLimit d c r = (false, r1) →
  executeFunction name c r = (r1, c, Thrown (RateLimitExceeded name)).
Proof.
  intros Hd Hrl. pose proof (executeFunction_unfold name c r) as E.
  unfold executeFunctionBody in E. rewrite Hd, Hrl in E. simpl in E. congruence.
Qed.

Lemma executeFunction_authRequired name c r d r1 :
  getFunction name r = Some d →
  checkRateLimit d c r = (true, r1) →
  ex_requiresAuth (fd_execution d) && negb (truthy (ctx_userId c)) = true →
  executeFunction name c r = (r1, c, Thrown (AuthRequired name)).
Proof.
  intros Hd Hrl Hauth. pose proof (executeFunction_unfold name c r) as E.
  unfold executeFunctionBody in E. rewrite Hd, Hrl in E. simpl in E.
  rewrite Hauth in E. congruence.
Qed.

(** Once the three checks have passed, the handler runs against the timer. *)
Lemma executeFunction_admitted name c r d r1 :
  getFunction name r = Some d →
  checkRateLimit d c r = (true, r1) →
  ex_requiresAuth (fd_execution d) && negb (truthy (ctx_userId c)) = false →
  runHandler (λ n c1 r2, Some (executeFunction n c1 r2)) name d c r1
  = Some (executeFunction name c r).
Proof.
  intros Hd Hrl Hauth. pose proof (executeFunction_unfold name c r) as E.
  unfold executeFunctionBody in E. rewrite Hd, Hrl in E. simpl in E.
  by rewrite Hauth in E.
Qed.

Lemma complete_spec name c x r :
  ∃ r', complete name c x r = (r', c, Returned (length (heap r))) ∧
        heap r' = heap r ++ [x] ∧ functions r' = functions r ∧
        rateLimiters r' = rateLimiters r ∧ clock r' = clock r.
Proof. unfold complete. simpl. eauto 10. Qed.

(** A result that [executeFunction] returns is an object of the heap. *)
Lemma executeFunctionFuel_returned fuel name c r r' c' a :
  executeFunctionFuel fuel name c r = Some (r', c', Returned a) →
  ∃ x, heap r' !! a = Some x ∧ wellFormed x.
Proof.
  revert name c r r' c' a.
  induction fuel as [|fuel IH]; intros name c r r' c' a; [done|]. simpl.
  unfold executeFunctionBody, runHandler.
  destruct (getFunction name r) as [d|]; [|done].
  destruct (checkRateLimit d c r) as [admitted r1].
  destruct (negb admitted); [done|].
  destruct (ex_requiresAuth (fd_execution d) && negb (truthy (ctx_userId c))); [done|].
  destruct (race _ _) as [elapsed [v|message]].
  { intros [= <- <- <-]. eexists. split; [by apply list_lookup_middle|done]. }
  assert (∀ r0, ∃ x, (heap r0 ++ [failureResult message]) !! length (heap r0) = Some x
                     ∧ wellFormed x) as Hfail.
  { intros r0. eexists. split; [by apply list_lookup_middle|]. by intros _; eexists. }
  destruct (truthy (ex_fallback (fd_execution d)) &&
            (ctx_retryCount c <? ex_retries (fd_execution d))).
  2:{ intros [= <- <- <-]. simpl. apply (Hfail (elapse elapsed r1)). }
  unfold executeFallback.
  destruct (getFunction _ (elapse elapsed r1)).
  2:{ intros [= <- <- <-]. simpl. apply (Hfail (elapse elapsed r1)). }
  destruct (executeFunctionFuel fuel _ _ _) as [[[r2 c2] [b|e]]|] eqn:Hinner; [| |done].
  - intros [= <- <- <-]. destruct (IH _ _ _ _ _ _ Hinner) as (x & Hx & Hwf).
    exists (setFallbackUsed (Some (default "" (ex_fallback (fd_execution d)))) x).
    split; [|done]. simpl. by rewrite list_lookup_alter_eq, Hx.
  - intros [= <- <- <-]. simpl. apply (Hfail r2).
Qed.

Lemma executeFunction_returned name c r r' c' a :
  executeFunction name c r = (r', c', Returned a) →
  ∃ x, heap r' !! a = Some x ∧ wellFormed x.
Proof.
  intros E. eapply (executeFunctionFuel_returned (hops c r) name c r).
  by rewrite executeFunction_fuel, E.
Qed.

(** Past the three checks nothing is raised. *)
Lemma executeFunction_returns name c r d r1 :
  getFunction name r = Some d →
  checkRateLimit d c r = (true, r1) →
  ex_requiresAuth (fd_execution d) && negb (truthy (ctx_userId c)) = false →
  ∃ r' c' a, executeFunction name c r = (r', c', Returned a).
Proof.
  intros Hd Hrl Hauth.
  pose proof (executeFunction_admitted _ _ _ _ _ Hd Hrl Hauth) as E.
  unfold runHandler in E.
  destruct (race _ _) as [elapsed [v|message]].
  { injection E as <-. unfold complete. simpl. eauto. }
  destruct (truthy (ex_fallback (fd_execution d)) &&
            (ctx_retryCount c <? ex_retries (fd_execution d))).
  2:{ injection E as <-. unfold complete. simpl. eauto. }
  unfold executeFallback in E.
  destruct (getFunction _ (elapse elapsed r1)).
  2:{ injection E as <-. simpl. eauto. }
  destruct (executeFunction _ _ (elapse elapsed r1)) as [[r2 c2] [b|e]];
    injection E as <-; simpl; eauto.
Qed.

(** *** Invariants of an execution *)

Lemma race_elapsed h ms : 0 ≤ (race h ms).1.
Proof.
  unfold race, timesOut, timerDelay.
  destruct h; repeat case_match; simpl; lia.
Qed.

Section Invariant.
Variable I : FunctionRegistry → Prop.
Hypothesis I_check : ∀ d c r, I r → I (checkRateLimit d c r).2.
Hypothesis I_elapse : ∀ ms r, 0 ≤ ms → I r → I (elapse ms r).
Hypothesis I_frame : ∀ r r',
  functions r' = functions r → rateLimiters r' = rateLimiters r →
  clock r' = clock r → I r → I r'.

Lemma runHandler_invariant exec name d c r run :
  (∀ n c1 r1 run1, I r1 → exec n c1 r1 = Some run1 → I run1.1.1) →
  I r → runHandler exec name d c r = Some run → I run.1.1.
Proof.
  intros Hexec Hr. unfold runHandler.
  pose proof (race_elapsed (fd_handler d (ctx_parameters c) c)
                (ex_timeout (fd_execution d))) as Hms.
  destruct (race _ _) as [elapsed settled]. simpl in Hms.
  pose proof (I_elapse elapsed r Hms Hr) as Hr1.
  assert (∀ x r0, I r0 → I (complete name c x r0).1.1) as Hcomplete.
  { intros x r0 H0. eapply I_frame; [..|exact H0]; done. }
  assert (∀ x r0, I r0 → I (alloc x r0).2) as Halloc.
  { intros x r0 H0. eapply I_frame; [..|exact H0]; done. }
  destruct settled as [v|message].
  { intros [= <-]. by apply (Hcomplete _ (elapse elapsed r)). }
  destruct (truthy (ex_fallback (fd_execution d)) &&
            (ctx_retryCount c <? ex_retries (fd_execution d))).
  2:{ intros [= <-]. by apply (Hcomplete _ (elapse elapsed r)). }
  unfold executeFallback.
  destruct (getFunction _ (elapse elapsed r)).
  2:{ intros [= <-]. by apply (Halloc _ (elapse elapsed r)). }
  destruct (exec _ _ _) as [[[r2 c2] [b|e]]|] eqn:Hinner; [| |done].
  - intros [= <-]. simpl. eapply I_frame; [..|exact (Hexec _ _ _ _ Hr1 Hinner)]; done.
  - intros [= <-]. apply (Halloc _ r2). exact (Hexec _ _ _ _ Hr1 Hinner).
Qed.

Lemma executeFunctionFuel_invariant fuel name c r run :
  I r → executeFunctionFuel fuel name c r = Some run → I run.1.1.
Proof.
  revert name c r run.
  induction fuel as [|fuel IH]; intros name c r run Hr; [done|]. simpl.
  unfold executeFunctionBody.
  destruct (getFunction name r) as [d|]; [|by intros [= <-]].
  pose proof (I_check d c r Hr) as Hr1.
  destruct (checkRateLimit d c r) as [admitted r1]. simpl in Hr1.
  destruct (negb admitted); [by intros [= <-]|].
  destruct (ex_requiresAuth (fd_execution d) && negb (truthy (ctx_userId c)));
    [by intros [= <-]|].
  apply runHandler_invariant; [|done]. intros n c1 r2 run1. apply IH.
Qed.

Lemma executeFunction_invariant name c r :
  I r → I (executeFunction name c r).1.1.
Proof.
  intros Hr. eapply (executeFunctionFuel_invariant (hops c r)); [done|].
  by apply executeFunction_fuel.
Qed.
End Invariant.

Lemma functions_executeFunction name c r :
  functions (executeFunction name c r).1.1 = functions r.
Proof.
  apply (executeFunction_invariant (λ r0, functions r0 = functions r)); try done.
  - intros d c0 r0 <-. apply functions_checkRateLimit.
  - intros r0 r' -> _ _. done.
Qed.

Lemma clock_executeFunction name c r :
  clock r ≤ clock (executeFunction name c r).1.1.
Proof.
  apply (executeFunction_invariant (λ r0, clock r ≤ clock r0)); try done.
  - intros d c0 r0 H. by rewrite clock_checkRateLimit.
  - intros ms r0 Hms H. simpl. lia.
  - intros r0 r' _ _ -> H. done.
Qed.

Lemma holdsSlot_checkRateLimit name key since limit window d c r :
  holdsSlot name key since limit window r →
  holdsSlot name key since limit window (checkRateLimit d c r).2.
Proof.
  intros (Hclock & limiter & times & t & Hl & Hlimit & Hwindow & Hk & Ht & Hle).
  unfold checkRateLimit.
  destruct (rateLimiters r !! fd_name d) as [limiter'|] eqn:Hl';
    [|by split; eauto 10].
  case_match; [by split; eauto 10|].
  split; [done|]. simpl.
  destruct (decide (fd_name d = name)) as [Hname|Hname].
  - rewrite Hname in *. rewrite lookup_insert_eq.
    assert (limiter' = limiter) as -> by congruence.
    destruct (decide (userKey d c = key)) as [Hkey|Hkey].
    + eexists _, _, (clock r). split; [done|]. simpl.
      rewrite Hkey, lookup_insert_eq. repeat split; try done.
      apply elem_of_app. right. by apply list_elem_of_singleton.
    + eexists _, times, t. split; [done|]. simpl.
      rewrite lookup_insert_ne; done.
  - exists limiter, times, t. rewrite lookup_insert_ne; done.
Qed.

Lemma holdsSlot_executeFunction name key since limit window n c r :
  holdsSlot name key since limit window r →
  holdsSlot name key since limit window (executeFunction n c r).1.1.
Proof.
  apply executeFunction_invariant.
  - intros. by apply holdsSlot_checkRateLimit.
  - intros ms r0 Hms (Hclock & H). split; [simpl; lia|done].
  - intros r0 r' _ Hl Hc (Hclock & H). unfold holdsSlot. by rewrite Hl, Hc.
Qed.

(** *** The rate limiter *)

Lemma prune_prune now window times :
  prune now window (prune now window times) = prune now window times.
Proof.
  unfold prune. induction times as [|t times IH]; [done|]. simpl.
  destruct (now - t <? window) eqn:Ht; simpl; [|done]. by rewrite Ht, IH.
Qed.

Lemma prune_recorded now window times :
  0 < window →
  prune now window (prune now window times ++ [now]) = prune now window times ++ [now].
Proof.
  intros Hw. unfold prune. rewrite List.filter_app.
  fold (prune now window times). fold (prune now window (prune now window times)).
  rewrite prune_prune. simpl.
  replace (now - now <? window) with true; [done|]. symmetry. apply Z.ltb_lt. lia.
Qed.

(** What [checkRateLimit] decides and writes. *)
Lemma checkRateLimit_spec d c r limiter :
  rateLimiters r !! fd_name d = Some limiter →
  let recent := recentRequests (fd_name d) (userKey d c) r in
  checkRateLimit d c r =
  if bool_decide (Z.of_nat (length recent) < lim_limit limiter)
  then (true,
        setRateLimiters
          (<[fd_name d := setRequests (<[userKey d c := recent ++ [clock r]]>
                                         (lim_requests limiter)) limiter]>
             (rateLimiters r)) r)
  else (false, r).
Proof.
  intros Hl. unfold recentRequests, checkRateLimit. rewrite Hl. simpl.
  case_bool_decide as Hlt.
  - replace (lim_limit limiter <=? _) with false; [done|].
    symmetry. apply Z.leb_gt. lia.
  - replace (lim_limit limiter <=? _) with true; [done|].
    symmetry. apply Z.leb_le. lia.
Qed.

Lemma checkRateLimit_admits d c r limiter :
  rateLimiters r !! fd_name d = Some limiter →
  Z.of_nat (length (recentRequests (fd_name d) (userKey d c) r)) < lim_limit limiter →
  ∃ r1, checkRateLimit d c r = (true, r1) ∧
        clock r1 = clock r ∧
        holdsSlot (fd_name d) (userKey d c) (clock r) (lim_limit limiter)
                  (lim_window limiter) r1 ∧
        (0 < lim_window limiter →
         recentRequests (fd_name d) (userKey d c) r1 =
         recentRequests (fd_name d) (userKey d c) r ++ [clock r]).
Proof.
  intros Hl Hlt. rewrite (checkRateLimit_spec _ _ _ _ Hl). simpl.
  rewrite bool_decide_eq_true_2 by done.
  eexists. split; [done|]. split; [done|]. split.
  - split; [simpl; lia|]. eexists _, _, (clock r). simpl.
    rewrite lookup_insert_eq. split; [done|]. simpl. rewrite lookup_insert_eq.
    repeat split; try done. apply elem_of_app. right. by apply list_elem_of_singleton.
  - intros Hw. unfold recentRequests at 1. simpl. rewrite lookup_insert_eq. simpl.
    rewrite lookup_insert_eq. simpl. unfold recentRequests. rewrite Hl.
    by apply prune_recorded.
Qed.

Lemma checkRateLimit_rejects d c r limiter :
  rateLimiters r !! fd_name d = Some limiter →
  lim_limit limiter ≤ Z.of_nat (length (recentRequests (fd_name d) (userKey d c) r)) →
  checkRateLimit d c r = (false, r).
Proof.
  intros Hl Hle. rewrite (checkRateLimit_spec _ _ _ _ Hl). simpl.
  rewrite bool_decide_eq_false_2; [done|lia].
Qed.

(** C10. A call that passes the rate-limit check and is then rejected because
    the capability requires authentication and the context has no caller still
    uses up a slot of the limiter: the admission time stamp was recorded
    before the authentication check, and it stays recorded. *)
Theorem auth_failure_consumes_slot name c r d limiter :
  getFunction name r = Some d →
  rateLimiters r !! fd_name d = Some limiter →
  0 < lim_window limiter →
  Z.of_nat (length (recentRequests (fd_name d) (userKey d c) r)) < lim_limit limiter →
  ex_requiresAuth (fd_execution d) = true →
  truthy (ctx_userId c) = false →
  ∃ r',
    executeFunction name c r = (r', c, Thrown (AuthRequired name)) ∧
    recentRequests (fd_name d) (userKey d c) r' =
    recentRequests (fd_name d) (userKey d c) r ++ [clock r].
Proof.
  intros Hd Hl Hw Hlt Hauth Huser.
  destruct (checkRateLimit_admits d c r limiter Hl Hlt) as (r1 & Hrl & _ & _ & Hrecent).
  exists r1. split; [|by apply Hrecent].
  apply (executeFunction_authRequired _ _ _ _ _ Hd Hrl). by rewrite Hauth, Huser.
Qed.

Lemma auth_failure_consumes_slot_witness :
  ∃ r',
    executeFunction "secure_function" Scenarios.anonymous Scenarios.secureRegistry
    = (r', Scenarios.anonymous, Thrown (AuthRequired "secure_function")) ∧
    recentRequests (fd_name Scenarios.secure_function)
      (userKey Scenarios.secure_function Scenarios.anonymous) r' =
    recentRequests (fd_name Scenarios.secure_function)
      (userKey Scenarios.secure_function Scenarios.anonymous) Scenarios.secureRegistry
    ++ [clock Scenarios.secureRegistry].
Proof.
  apply (auth_failure_consumes_slot "secure_function" Scenarios.anonymous
           Scenarios.secureRegistry Scenarios.secure_function
           {| lim_requests := ∅; lim_limit := 100; lim_window := 60000 |}).
  - vm_compute. reflexivity.
  - vm_compute. reflexivity.
  - simpl. lia.
  - vm_compute. reflexivity.
  - reflexivity.
  - reflexivity.
Defined.

(** C3 (as amended). Executing a name that is not registered raises the
    not-found error, with the message "Function '<name>' not found", and
    changes neither the registry nor the context.  Once a capability is found
    and has passed its rate-limit and authentication checks, nothing is
    raised: every outcome, failures of the handler, of the timer and of a
    fallback included, is a returned result object, and a result whose
    success flag is false carries an error message. *)
Theorem executeFunction_failure_delivery name c r :
  (getFunction name r = None →
   executeFunction name c r = (r, c, Thrown (NotFound name)) ∧
   errorMessage (NotFound name) = "Function '" +:+ name +:+ "' not found") ∧
  (∀ d r1,
     getFunction name r = Some d →
     checkRateLimit d c r = (true, r1) →
     ex_requiresAuth (fd_execution d) && negb (truthy (ctx_userId c)) = false →
     ∃ r' c' a x,
       executeFunction name c r = (r', c', Returned a) ∧
       heap r' !! a = Some x ∧ wellFormed x).
Proof.
  split.
  - intros Hd. split; [by apply executeFunction_notFound|done].
  - intros d r1 Hd Hrl Hauth.
    destruct (executeFunction_returns _ _ _ _ _ Hd Hrl Hauth) as (r' & c' & a & E).
    destruct (executeFunction_returned _ _ _ _ _ _ E) as (x & Hx & Hwf).
    by exists r', c', a, x.
Qed.

Lemma executeFunction_failure_delivery_witness :
  (executeFunction "unknown_function" Scenarios.testUser Registry.empty
   = (Registry.empty, Scenarios.testUser, Thrown (NotFound "unknown_function")) ∧
   errorMessage (NotFound "unknown_function")
   = "Function '" +:+ "unknown_function" +:+ "' not found") ∧
  ∃ r' c' a x,
    executeFunction "error_function" Scenarios.testUser Scenarios.errorRegistry
    = (r', c', Returned a) ∧
    heap r' !! a = Some x ∧ wellFormed x.
Proof.
  split.
  - apply (executeFunction_failure_delivery "unknown_function" Scenarios.testUser
             Registry.empty). reflexivity.
  - pose proof (executeFunction_failure_delivery "error_function" Scenarios.testUser
                  Scenarios.errorRegistry) as [_ H].
    apply (H Scenarios.error_function
             (checkRateLimit Scenarios.error_function Scenarios.testUser
                Scenarios.errorRegistry).2).
    + vm_compute. reflexivity.
    + vm_compute. reflexivity.
    + reflexivity.
Defined.

(** C3 as stated fails: for an unregistered name nothing is returned, the
    failure reaches the caller as a raised error. *)
Lemma unregistered_name_is_raised :
  ¬ ∃ a x,
      (executeFunction "unknown_function" Scenarios.testUser Registry.empty).2 = Returned a ∧
      heap (executeFunction "unknown_function" Scenarios.testUser Registry.empty).1.1 !! a
      = Some x ∧ res_success x = false ∧ is_Some (res_error x).
Proof.
  rewrite executeFunction_notFound by reflexivity. simpl.
  intros (a & x & Hret & _). discriminate Hret.
Qed.

Lemma holdsSlot_runHandler name key since limit window n d c r run :
  holdsSlot name key since limit window r →
  runHandler (λ n c1 r2, Some (executeFunction n c1 r2)) n d c r = Some run →
  holdsSlot name key since limit window run.1.1.
Proof.
  apply (runHandler_invariant (holdsSlot name key since limit window)).
  - intros ms r0 Hms (Hclock & H). split; [simpl; lia|done].
  - intros r0 r' _ Hl Hc (Hclock & H). unfold holdsSlot. by rewrite Hl, Hc.
  - intros n0 c1 r1 run1 H1 [= <-]. by apply holdsSlot_executeFunction.
Qed.

(** A slot taken since [since] is still counted at any time less than one
    window after [since]. *)
Lemma holdsSlot_recent name key since limit window r :
  holdsSlot name key since limit window r →
  clock r - since < window →
  (1 ≤ length (recentRequests name key r))%nat.
Proof.
  intros (Hclock & limiter & times & t & Hl & _ & Hw & Hk & Ht & Hle) Hin.
  unfold recentRequests. rewrite Hl, Hk. simpl.
  assert (t ∈ prune (clock r) (lim_window limiter) times) as Hkept.
  { apply list_elem_of_In, List.filter_In. split; [by apply list_elem_of_In|].
    apply Z.ltb_lt. lia. }
  destruct (prune _ _ _); [by apply elem_of_nil in Hkept|simpl; lia].
Qed.

(** *** Timeouts and fallbacks *)



(** A failing handler without a fallback hop: the failure result is
    recorded and returned as it is. *)
(** A recorded result is the newest entry of its history. *)
Lemma recordExecution_newest name a r :
  ∃ older, default [] (executionHistory (recordExecution name a r) !! name) = older ++ [a].
Proof.
  unfold recordExecution. simpl. rewrite lookup_insert_eq. simpl.
  destruct (default [] (executionHistory r !! name)) as [|b older].
  - by exists [].
  - case_match; [by exists older|by exists (b :: older)].
Qed.



(** A failing handler with a fallback hop. *)
Lemma executeFunction_fallback_hop name c r d r1 elapsed message f :
  getFunction name r = Some d →
  checkRateLimit d c r = (true, r1) →
  ex_requiresAuth (fd_execution d) && negb (truthy (ctx_userId c)) = false →
  race (fd_handler d (ctx_parameters c) c) (ex_timeout (fd_execution d))
  = (elapsed, inr message) →
  ex_fallback (fd_execution d) = Some f →
  truthy (Some f) = true →
  ctx_retryCount c < ex_retries (fd_execution d) →
  executeFallback (λ n c1 r2, Some (executeFunction n c1 r2)) d c
    (failureResult message) (elapse elapsed r1)
  = Some (executeFunction name c r).
Proof.
  intros Hd Hrl Hauth Hrace Hf Htruthy Hlt.
  pose proof (executeFunction_admitted _ _ _ _ _ Hd Hrl Hauth) as E.
  unfold runHandler in E. rewrite Hrace, Hf, Htruthy in E.
  replace (ctx_retryCount c <? ex_retries (fd_execution d)) with true in E; [done|].
  symmetry. by apply Z.ltb_lt.
Qed.




Lemma executeFunction_success name c r d r1 elapsed v :
  getFunction name r = Some d →
  checkRateLimit d c r = (true, r1) →
  ex_requiresAuth (fd_execution d) && negb (truthy (ctx_userId c)) = false →
  race (fd_handler d (ctx_parameters c) c) (ex_timeout (fd_execution d))
  = (elapsed, inl v) →
  executeFunction name c r = complete name c (successResult d c elapsed v) (elapse elapsed r1).
Proof.
  intros Hd Hrl Hauth Hrace.
  pose proof (executeFunction_admitted _ _ _ _ _ Hd Hrl Hauth) as E.
  unfold runHandler in E. rewrite Hrace in E. congruence.
Qed.




End RegistryFacts.



Module ProviderFacts.
Import Types Config Providers RouterScenarios.

(** *** Traces *)

Lemma attempts_updateCircuitBreakerState key st m :
  attempts (updateCircuitBreakerState key st m) = attempts m.
Proof. done. Qed.

Lemma attempts_updateCircuitBreaker p ok m :
  attempts (updateCircuitBreaker p ok m) = attempts m.
Proof. unfold updateCircuitBreaker. by repeat case_match. Qed.

Lemma attempts_callProvider adapters p request m :
  attempts (callProvider adapters p request m).1 = attempts m ++ [p].
Proof. unfold callProvider. by repeat case_match. Qed.

Lemma attempts_afterCall p ok m :
  attempts (if enableCircuitBreaker (config m) then updateCircuitBreaker p ok m else m)
  = attempts m.
Proof. case_match; [apply attempts_updateCircuitBreaker|done]. Qed.

(** The loop over the fallback chain attempts the chain from its head, in
    order, and stops at the first provider that answers. *)
Lemma tryFallbacks_attempts adapters provider request startTime chain m :
  let run := tryFallbacks adapters provider request startTime chain m in
  (run.2 = None → attempts run.1 = attempts m ++ chain) ∧
  (∀ response, run.2 = Some response →
     ∃ k q, chain !! k = Some q ∧
            attempts run.1 = attempts m ++ take (S k) chain ∧
            providerUsed (rs_metadata response) = Some q ∧
            fallbackUsed (rs_metadata response) = true).
Proof.
  revert m. induction chain as [|q chain IH]; intros m; simpl.
  { split; [by rewrite app_nil_r|done]. }
  pose proof (attempts_callProvider adapters q request m) as Hq.
  destruct (callProvider adapters q request m) as [m1 [response|e]]; simpl in Hq.
  - simpl. split; [done|]. intros ? [= <-]. exists O, q.
    rewrite attempts_afterCall, Hq. simpl. by rewrite take_0.
  - specialize (IH (if enableCircuitBreaker (config m1)
                    then updateCircuitBreaker q false m1 else m1)).
    rewrite attempts_afterCall, Hq in IH. destruct IH as [IHnone IHsome].
    split.
    + intros Hnone. rewrite (IHnone Hnone). by rewrite <- app_assoc.
    + intros response Hsome.
      destruct (IHsome response Hsome) as (k & q' & Hk & Hattempts & Hused).
      exists (S k), q'. split; [done|]. rewrite Hattempts.
      by rewrite <- app_assoc.
Qed.







(** *** The circuit breaker of the primary provider *)

Lemma selectProvider_gpt4 m :
  providers m = initializeProviders apiKey →
  selectProvider "gpt-4" noOptions m = inl ("openai", "gpt-4", []).
Proof.
  intros Hp. unfold selectProvider, findProviderForModel. rewrite Hp.
  vm_compute. reflexivity.
Qed.

(** One call whose primary provider, OpenAI, fails: the adapter was invoked
    and the circuit-breaker store was not written. *)
Lemma call_primary_failure m :
  providers m = initializeProviders apiKey →
  config m = defaultConfig →
  breakers m !! "openai" = None →
  let run := call failing (ask "gpt-4") noOptions m in
  providers run.1 = providers m ∧ config run.1 = config m ∧
  breakers run.1 = breakers m ∧
  adapterCalls run.1 = adapterCalls m ++ ["openai"] ∧
  run.2 = inr (AllProvidersFailed "gpt-4").
Proof.
  intros Hp Hc Hb run. subst run. unfold call.
  change (rq_model (ask "gpt-4")) with "gpt-4".
  rewrite (selectProvider_gpt4 m Hp). unfold callProvider.
  assert (providersGet "openai" (noteAttempt "openai" m)
          = Some {| pv_name := "OpenAI"; pv_apiKey := apiKey "openai";
                    pv_models := ["gpt-4"; "gpt-4-turbo"; "gpt-3.5-turbo"];
                    pv_fallbackPriority := 1; pv_enabled := true |}) as ->.
  { unfold providersGet. simpl. rewrite Hp. vm_compute. reflexivity. }
  unfold getCircuitBreakerState, liveHash. simpl. rewrite Hb, Hc. simpl. done.
Qed.

(** C2, on the code.  However often the primary provider fails in a row,
    its circuit never opens: after [n] calls that OpenAI, as primary
    provider, failed, its adapter has been invoked [n] times and its breaker
    state is still closed with a failure count of 0. *)
Theorem primary_circuit_never_opens n :
  adapterCalls (repeatCall n failing (ask "gpt-4") noOptions (newManager apiKey 0))
  = repeat "openai" n ∧
  getCircuitBreakerState "openai"
    (repeatCall n failing (ask "gpt-4") noOptions (newManager apiKey 0))
  = {| status := Closed; failureCount := 0; lastFailureTime := None;
       nextAttemptTime := None |}.
Proof.
  assert (∀ m0,
            providers m0 = initializeProviders apiKey →
            config m0 = defaultConfig →
            breakers m0 !! "openai" = None →
            adapterCalls (repeatCall n failing (ask "gpt-4") noOptions m0)
            = adapterCalls m0 ++ repeat "openai" n ∧
            breakers (repeatCall n failing (ask "gpt-4") noOptions m0) !! "openai"
            = None) as Hgen.
  { induction n as [|n IH]; intros m0 Hp Hc Hb; simpl.
    { split; [by rewrite app_nil_r|done]. }
    destruct (call_primary_failure m0 Hp Hc Hb) as (Hp1 & Hc1 & Hb1 & Ha1 & _).
    destruct (IH (call failing (ask "gpt-4") noOptions m0).1) as [Ha Hb2].
    - by rewrite Hp1.
    - by rewrite Hc1.
    - by rewrite Hb1.
    - split; [|done]. rewrite Ha, Ha1. by rewrite <- app_assoc. }
  destruct (Hgen (newManager apiKey 0)) as [Ha Hb]; try done.
  split; [exact Ha|].
  unfold getCircuitBreakerState, liveHash. by rewrite Hb.
Qed.

(** The sibling path: as a fallback provider OpenAI does open.  On the free
    plan, after five failed calls for a Perplexity model its circuit is open,
    and the next two calls do not reach its adapter. *)
Lemma fallback_circuit_opens :
  status (getCircuitBreakerState "openai"
            (repeatCall 5 failing (ask "llama-3.1-70b-instruct") (onPlan "free")
               (newManager apiKey 0))) = Open ∧
  filter (λ p, p = "openai")
    (adapterCalls (repeatCall 7 failing (ask "llama-3.1-70b-instruct") (onPlan "free")
                     (newManager apiKey 0)))
  = filter (λ p, p = "openai")
      (adapterCalls (repeatCall 5 failing (ask "llama-3.1-70b-instruct") (onPlan "free")
                       (newManager apiKey 0))).
Proof. vm_compute. split; reflexivity. Qed.

End ProviderFacts.

Module AdapterFacts.
Import Types Config Adapter.

Section RetryLoop.
Context {T : Type}.
Variable operation : nat → T + Failure.
Variable jitter : nat → Z.
Variables maxRetries baseDelay : Z.

(** The loop from attempt [a] on, when attempt [k] is the first to succeed. *)
Lemma retryLoop_success n a lastError waited k v :
  Z.of_nat a + Z.of_nat n = maxRetries + 1 →
  (a ≤ k)%nat → Z.of_nat k ≤ maxRetries →
  operation k = inl v →
  (∀ j, (a ≤ j < k)%nat → ∃ e, operation j = inr e) →
  retryLoop operation jitter maxRetries baseDelay n a lastError waited
  = {| outcome := inl v; invocations := S k;
       delays := waited ++ (backoff jitter baseDelay <$> seq a (k - a)) |}.
Proof.
  revert a lastError waited.
  induction n as [|n IH]; intros a lastError waited Hn Hak Hk Hv Hfail; [lia|].
  simpl. replace (Z.of_nat a <=? maxRetries) with true
    by (symmetry; apply Z.leb_le; lia).
  destruct (decide (a = k)) as [->|Hne].
  { rewrite Hv, Nat.sub_diag. simpl. by rewrite app_nil_r. }
  destruct (Hfail a) as [e He]; [lia|]. rewrite He.
  replace (Z.of_nat a =? maxRetries) with false
    by (symmetry; apply Z.eqb_neq; lia).
  rewrite (IH (S a)); [|lia|lia|done|done|intros j Hj; apply Hfail; lia].
  f_equal. rewrite <- app_assoc. f_equal.
  replace (k - a)%nat with (S (k - S a)) by lia. done.
Qed.

(** The loop from attempt [a] on, when no attempt succeeds. *)
Lemma retryLoop_exhausted n a lastError waited :
  Z.of_nat a + Z.of_nat n = maxRetries + 1 → (0 < n)%nat →
  (∀ j, (a ≤ j)%nat → Z.of_nat j ≤ maxRetries → ∃ e, operation j = inr e) →
  ∃ e, operation (Z.to_nat maxRetries) = inr e ∧
       retryLoop operation jitter maxRetries baseDelay n a lastError waited
       = {| outcome := inr (Some e); invocations := S (Z.to_nat maxRetries);
            delays := waited ++ (backoff jitter baseDelay
                                   <$> seq a (Z.to_nat maxRetries - a)) |}.
Proof.
  revert a lastError waited.
  induction n as [|n IH]; intros a lastError waited Hn Hpos Hfail; [lia|].
  simpl. replace (Z.of_nat a <=? maxRetries) with true
    by (symmetry; apply Z.leb_le; lia).
  destruct (Hfail a) as [e He]; [lia|lia|]. rewrite He.
  destruct (Z.of_nat a =? maxRetries) eqn:Hlast.
  - apply Z.eqb_eq in Hlast. exists e.
    replace (Z.to_nat maxRetries) with a by lia. split; [done|].
    rewrite Nat.sub_diag. simpl. by rewrite app_nil_r.
  - apply Z.eqb_neq in Hlast.
    destruct (IH (S a) (Some e) (waited ++ [baseDelay * 2 ^ Z.of_nat a + jitter a]))
      as (e' & He' & ->); [lia|lia|intros j Hj; apply Hfail; lia|].
    exists e'. split; [done|]. f_equal. rewrite <- app_assoc. f_equal.
    replace (Z.to_nat maxRetries - a)%nat with (S (Z.to_nat maxRetries - S a)) by lia.
    done.
Qed.
End RetryLoop.

(** C8 (as amended). Within one adapter call, a request that fails the
    adapter's own validation is rejected without any attempt.  Otherwise the
    operation is invoked up to [maxRetries + 1] times: it stops at the first
    attempt that succeeds, and every failed attempt before the last one,
    whatever the kind of its failure (authentication and validation failures
    of the upstream included), is followed by a wait of
    [baseDelay * 2^attempt] plus the jitter, which is below a second, and by
    another attempt; when all [maxRetries + 1] attempts fail the error of the
    last one is raised. *)
Theorem withRetry_retries_every_failure {T : Type} (operation : nat → T + Failure)
    (jitter : nat → Z) (maxRetries baseDelay : Z) :
  0 ≤ maxRetries →
  (∀ n, 0 ≤ jitter n < 1000) →
  let run := withRetry operation jitter maxRetries baseDelay in
  (∀ k v,
     Z.of_nat k ≤ maxRetries → operation k = inl v →
     (∀ j, (j < k)%nat → ∃ e, operation j = inr e) →
     outcome run = inl v ∧ invocations run = S k ∧
     delays run = (backoff jitter baseDelay <$> seq 0 k)) ∧
  ((∀ j, Z.of_nat j ≤ maxRetries → ∃ e, operation j = inr e) →
   ∃ e, operation (Z.to_nat maxRetries) = inr e ∧
        outcome run = inr (Some e) ∧
        invocations run = S (Z.to_nat maxRetries) ∧
        delays run = (backoff jitter baseDelay <$> seq 0 (Z.to_nat maxRetries))) ∧
  (∀ n, baseDelay * 2 ^ Z.of_nat n ≤ backoff jitter baseDelay n
        < baseDelay * 2 ^ Z.of_nat n + 1000) ∧
  (∀ cfg client request retries,
     validateRequest cfg request = false →
     Adapter.call cfg client jitter request retries = (inr InvalidRequest, O, [])).
Proof.
  intros Hmax Hjitter run. subst run. unfold withRetry.
  split; [|split; [|split]].
  - intros k v Hk Hv Hbefore.
    rewrite (retryLoop_success operation jitter maxRetries baseDelay _ 0 None [] k v);
      [|lia|lia|done|done|intros j Hj; apply Hbefore; lia].
    simpl. by rewrite Nat.sub_0_r.
  - intros Hfail.
    destruct (retryLoop_exhausted operation jitter maxRetries baseDelay
                (Z.to_nat (maxRetries + 1)) 0 None []) as (e & He & ->);
      [lia|lia|intros j _ Hj; by apply Hfail|].
    exists e. simpl. by rewrite Nat.sub_0_r.
  - intros n. unfold backoff. specialize (Hjitter n). lia.
  - intros cfg client request retries Hinvalid. unfold Adapter.call.
    by rewrite Hinvalid.
Qed.

Lemma withRetry_retries_every_failure_witness :
  outcome (withRetry AdapterScenarios.rejectsOnce AdapterScenarios.noJitter 3 1000)
  = inl AdapterScenarios.answer ∧
  invocations (withRetry AdapterScenarios.rejectsOnce AdapterScenarios.noJitter 3 1000)
  = 2%nat ∧
  delays (withRetry AdapterScenarios.rejectsOnce AdapterScenarios.noJitter 3 1000)
  = (backoff AdapterScenarios.noJitter 1000 <$> seq 0 1).
Proof.
  pose proof (withRetry_retries_every_failure AdapterScenarios.rejectsOnce
                AdapterScenarios.noJitter 3 1000) as H.
  destruct H as (H & _).
  - lia.
  - intros n. unfold AdapterScenarios.noJitter. lia.
  - apply (H 1%nat AdapterScenarios.answer).
    + lia.
    + reflexivity.
    + intros j Hj. exists AuthFailure. by replace j with O by lia.
Defined.

(** C8 as stated fails: an authentication failure of the upstream is not
    terminal.  The adapter call waits a second and invokes the operation
    again. *)
Lemma auth_failure_is_retried :
  AdapterScenarios.rejectsOnce 0 = inr AuthFailure ∧
  Adapter.call AdapterScenarios.openai (λ _, AdapterScenarios.rejectsOnce)
    AdapterScenarios.noJitter (RouterScenarios.ask "gpt-4") (Some 3)
  = (inl AdapterScenarios.answer, 2%nat, [1000]) ∧
  (Adapter.call AdapterScenarios.openai (λ _, AdapterScenarios.rejectsOnce)
     AdapterScenarios.noJitter (RouterScenarios.ask "gpt-4") (Some 3)).1.2 ≠ 1%nat.
Proof. vm_compute. repeat split; discriminate. Qed.

End AdapterFacts.

Module PipelineFacts.
Import Pipeline.

Lemma runSteps_app pre post c t :
  runSteps (pre ++ post) c t =
  let p := runSteps pre c t in
  match failure p with
  | Some _ => p
  | None =>
      let q := runSteps post (context p) (now p) in
      {| context := context q; now := now q; notified := notified p ++ notified q;
         failure := failure q |}
  end.
Proof.
  revert c t. induction pre as [|f pre IH]; intros c t; simpl.
  { by destruct (runSteps post c t). }
  destruct (raised (f c)); [done|]. rewrite IH. simpl.
  destruct (failure (runSteps pre _ _)) eqn:Hfail; simpl.
  - by rewrite Hfail.
  - by rewrite <- app_assoc.
Qed.

Lemma runStages_app pipelines before later c t :
  runStages pipelines (before ++ later) c t =
  let p := runStages pipelines before c t in
  match failure p with
  | Some _ => p
  | None =>
      let q := runStages pipelines later (context p) (now p) in
      {| context := context q; now := now q; notified := notified p ++ notified q;
         failure := failure q |}
  end.
Proof.
  revert c t. induction before as [|s before IH]; intros c t; simpl.
  { by destruct (runStages pipelines later c t). }
  destruct (failure (runSteps _ _ _)); [done|]. rewrite IH. simpl.
  destruct (failure (runStages pipelines before _ _)) eqn:Hfail; simpl.
  - by rewrite Hfail.
  - by rewrite <- !app_assoc.
Qed.

(** C9 (as amended). A step that raises ends the pipeline: whatever stage
    it belongs to (the memory-update stage included) and whatever steps and
    stages would follow, [processEvent] rethrows the error of the step, after
    appending it to [context.errors] and emitting the pipeline-error
    notification.  The context is the one the failing step left, so the
    engine records no warning, and the notifications end with the start of
    the failing stage, what its steps emitted, and the error: no later step
    and no later stage is started. *)
Theorem step_failure_aborts pipelines e t before stage later pre f post error :
  stages = before ++ stage :: later →
  pipelines stage = Some (pre ++ f :: post) →
  let context0 := {| event := e; stage := INGEST; data := ∅; errors := [];
                     warnings := [];
                     metrics := {| startTime := t; stageTimes := []; totalTime := 0 |} |} in
  let p0 := runStages pipelines before context0 t in
  failure p0 = None →
  let p1 := runSteps pre (setStage stage (context p0)) (now p0) in
  failure p1 = None →
  raised (f (context p1)) = Some error →
  let run := processEvent pipelines e t in
  result run = inr error ∧
  finalContext run = pushError error (after (f (context p1))) ∧
  warnings (finalContext run) = warnings (after (f (context p1))) ∧
  notifications run =
  notified p0 ++ StageStart stage :: notified p1 ++ emits (f (context p1)) ++
  [PipelineError error].
Proof.
  intros Hstages Hsteps context0 p0 Hp0 p1 Hp1 Hraised run.
  subst run. unfold processEvent. fold context0. rewrite Hstages.
  rewrite runStages_app. cbv zeta. fold p0. rewrite Hp0. simpl.
  rewrite Hsteps. simpl. rewrite runSteps_app. cbv zeta. fold p1. rewrite Hp1.
  simpl. rewrite Hraised. simpl. repeat split.
  rewrite <- app_assoc. simpl. by rewrite <- app_assoc.
Qed.

Lemma step_failure_aborts_witness :
  result (processEvent PipelineScenarios.cacheDown PipelineScenarios.chatEvent 0)
  = inr "ECONNREFUSED" ∧
  warnings (finalContext (processEvent PipelineScenarios.cacheDown
                            PipelineScenarios.chatEvent 0)) = [] ∧
  errors (finalContext (processEvent PipelineScenarios.cacheDown
                          PipelineScenarios.chatEvent 0)) = ["ECONNREFUSED"] ∧
  StageStart RESPONSE_GENERATION
  ∉ notifications (processEvent PipelineScenarios.cacheDown PipelineScenarios.chatEvent 0).
Proof.
  pose proof (step_failure_aborts PipelineScenarios.cacheDown
                PipelineScenarios.chatEvent 0
                [INGEST; VALIDATE; CONTEXT_ANALYSIS; PERSONALITY_ROUTING;
                 FUNCTION_EXECUTION]
                MEMORY_UPDATE [RESPONSE_GENERATION; FEEDBACK_LOOP] []
                (updateShortTermMemory PipelineScenarios.redisDown)
                [PipelineScenarios.idle "updateLongTermMemory";
                 PipelineScenarios.idle "updateSemanticMemory";
                 PipelineScenarios.idle "updateEmotionalMemory"]
                "ECONNREFUSED") as H.
  destruct H as (Hresult & Hcontext & Hwarnings & Hnotified).
  - reflexivity.
  - reflexivity.
  - reflexivity.
  - reflexivity.
  - reflexivity.
  - split; [exact Hresult|].
    split; [rewrite Hwarnings; vm_compute; reflexivity|].
    split; [rewrite Hcontext; vm_compute; reflexivity|].
    rewrite Hnotified. vm_compute. intros Hin.
    repeat (apply elem_of_cons in Hin as [Hin|Hin]; [discriminate Hin|]).
    by apply elem_of_nil in Hin.
Defined.

(** C9 as stated fails: when the short-term memory write fails, the error is
    not caught.  No warning is recorded, the event is rejected with the error
    of the cache, and response generation never starts. *)
Lemma memory_write_failure_is_not_best_effort :
  ¬ (warnings (finalContext (processEvent PipelineScenarios.cacheDown
                               PipelineScenarios.chatEvent 0)) ≠ [] ∧
     ∃ response,
       result (processEvent PipelineScenarios.cacheDown PipelineScenarios.chatEvent 0)
       = inl response).
Proof.
  intros [_ [response Hresult]]. vm_compute in Hresult. discriminate Hresult.
Qed.

End PipelineFacts.


Module RouterFacts.
Import Types Config Router ChatScenarios.

(** A row object has no property [lastResetDate] and no property
    [dailyMessages]: the columns are [last_reset_date] and [daily_messages]. *)
Lemma object_properties row :
  object row !! "lastResetDate" = None ∧ object row !! "dailyMessages" = None ∧
  object row !! "last_reset_date" = Some (Text (uu_last_reset_date row)) ∧
  object row !! "daily_messages" = Some (Number (uu_daily_messages row)).
Proof. by vm_compute. Qed.

(** On a row of the table the check always takes the reset path. *)
Lemma checkUsageLimits_row userId plan s :
  checkUsageLimits userId plan s
  = ({| fallbackApplied := false; contextReduction := 1 |},
     match getUserUsage userId s with
     | Some _ => incrementUsage userId
                   {[ "dailyMessages" := Number 0; "lastResetDate" := Text (now s) ]} s
     | None => s
     end).
Proof.
  unfold checkUsageLimits. destruct (getUserUsage userId s) as [row|]; [|done].
  unfold checkUsage. destruct (object_properties row) as (-> & _). done.
Qed.





End RouterFacts.

Module ManagementFacts.
Import Registry Management RegistryFacts.

(** *** Invariants of an execution, with the caller in view *)

Section Preserved.
Variable I : FunctionRegistry → Prop.
Variable J : FunctionExecutionContext → Prop.
Hypothesis J_hop : ∀ f c, J c → J (noteFallback f c).
Hypothesis I_check : ∀ d c r, J c → I r → I (checkRateLimit d c r).2.
Hypothesis I_elapse : ∀ ms r, I r → I (elapse ms r).
Hypothesis I_heap : ∀ h r, I r → I (setHeap h r).
Hypothesis I_record : ∀ n a r, I r → I (recordExecution n a r).
Hypothesis I_emit : ∀ e r, I r → I (emit e r).

Lemma complete_preserved name c x r : I r → I (complete name c x r).1.1.
Proof.
  intros Hr. unfold complete, alloc, emitExecuted. simpl.
  by apply I_emit, I_record, I_heap.
Qed.

Lemma executeFunctionFuel_preserved fuel name c r run :
  J c → I r → executeFunctionFuel fuel name c r = Some run →
  I run.1.1 ∧ J run.1.2.
Proof.
  revert name c r run.
  induction fuel as [|fuel IH]; intros name c r run Hc Hr; [done|]. simpl.
  unfold executeFunctionBody.
  destruct (getFunction name r) as [d|]; [|by intros [= <-]].
  pose proof (I_check d c r Hc Hr) as Hr1.
  destruct (checkRateLimit d c r) as [admitted r1]. simpl in Hr1.
  destruct (negb admitted); [by intros [= <-]|].
  destruct (ex_requiresAuth (fd_execution d) && negb (truthy (ctx_userId c)));
    [by intros [= <-]|].
  unfold runHandler. destruct (race _ _) as [elapsed settled].
  pose proof (I_elapse elapsed r1 Hr1) as Hr2.
  destruct settled as [v|message].
  { intros [= <-]. split; [by apply complete_preserved|done]. }
  destruct (truthy (ex_fallback (fd_execution d)) &&
            (ctx_retryCount c <? ex_retries (fd_execution d))).
  2:{ intros [= <-]. split; [by apply complete_preserved|done]. }
  unfold executeFallback.
  destruct (getFunction _ (elapse elapsed r1)).
  2:{ intros [= <-]. split; [by apply (I_heap _ (elapse elapsed r1))|done]. }
  destruct (executeFunctionFuel fuel _ _ _) as [[[r2 c2] [b|e]]|] eqn:Hinner; [| |done].
  - destruct (IH _ _ _ _ (J_hop _ _ Hc) Hr2 Hinner) as [H2 Hc2].
    intros [= <-]. split; [by apply (I_heap _ r2)|done].
  - destruct (IH _ _ _ _ (J_hop _ _ Hc) Hr2 Hinner) as [H2 Hc2].
    intros [= <-]. split; [by apply (I_heap _ r2)|done].
Qed.

Lemma executeFunction_preserved name c r :
  J c → I r → I (executeFunction name c r).1.1 ∧ J (executeFunction name c r).1.2.
Proof.
  intros Hc Hr. eapply (executeFunctionFuel_preserved (hops c r)); [done|done|].
  by apply executeFunction_fuel.
Qed.
End Preserved.

Lemma executionHistory_registerFunction d r r' :
  registerFunction d r = inl r' →
  executionHistory r' = executionHistory r ∧ heap r' = heap r ∧ clock r' = clock r.
Proof.
  unfold registerFunction. destruct (negb (schemaParse d)); [done|].
  case_decide; [done|]. intros [= <-]. by repeat case_match.
Qed.

Lemma rateLimiters_registerFunction d r r' :
  registerFunction d r = inl r' →
  rateLimiters r' =
  <[fd_name d := {| lim_requests := ∅;
                    lim_limit := requestsPerMinute (ex_rateLimit (fd_execution d));
                    lim_window := 60000 |}]> (rateLimiters r).
Proof.
  unfold registerFunction. destruct (negb (schemaParse d)); [done|].
  case_decide; [done|]. intros [= <-]. by repeat case_match.
Qed.

Lemma functions_registerFunction d r r' :
  registerFunction d r = inl r' →
  schemaParse d = true ∧ functions r !! fd_name d = None ∧
  functions r' = <[fd_name d := d]> (functions r).
Proof.
  unfold registerFunction. destruct (schemaParse d); [|done]. simpl.
  case_decide as Hfree; [done|]. intros [= <-].
  split; [done|]. split.
  - destruct (functions r !! fd_name d) eqn:E; [|done]. destruct Hfree. by eexists.
  - by repeat case_match.
Qed.

(** X1. The execution history of a capability never grows beyond 100
    entries: the bound holds for the empty registry and is kept by every
    registration and by every execution, fallback hops included. *)
Theorem history_stays_bounded :
  historyBounded Registry.empty ∧
  (∀ d r r', historyBounded r → registerFunction d r = inl r' → historyBounded r') ∧
  (∀ name c r, historyBounded r → historyBounded (executeFunction name c r).1.1).
Proof.
  split; [|split].
  - intros name history Hlookup. cbv [Registry.empty executionHistory] in Hlookup.
    by rewrite lookup_empty in Hlookup.
  - intros d r r' Hr Hreg.
    destruct (executionHistory_registerFunction d r r' Hreg) as (Hh & _).
    unfold historyBounded. by rewrite Hh.
  - intros name c r Hr.
    apply (executeFunction_preserved historyBounded (λ _, True)); try done.
    + intros d c0 r0 _ H0. unfold checkRateLimit.
      destruct (rateLimiters r0 !! fd_name d); [|done]. by case_match.
    + intros n a r0 H0 name0 history. unfold recordExecution. simpl.
      destruct (decide (n = name0)) as [->|Hne].
      * rewrite lookup_insert_eq. intros [= <-].
        assert (length (default [] (executionHistory r0 !! name0)) ≤ 100)%nat as Hold.
        { destruct (executionHistory r0 !! name0) as [h|] eqn:E; simpl; [|lia].
          by apply (H0 name0). }
        destruct (100 <? _)%nat eqn:Hfull.
        -- destruct (default [] (executionHistory r0 !! name0) ++ [a]) as [|b l] eqn:El;
             [simpl; lia|].
           assert (length (b :: l) = S (length (default [] (executionHistory r0 !! name0))))
             as Hlen by (rewrite <- El, length_app; simpl; lia).
           simpl in *. lia.
        -- apply Nat.ltb_ge in Hfull. done.
      * rewrite lookup_insert_ne by done. apply H0.
Qed.

(** X2. No limiter ever holds, for any caller, a full time stamp more than
    its limit: the number of stamps of a list stays below the limit plus
    one (so at most the limit, when the limit is a whole number).  The bound
    holds for the empty registry and is kept by every registration and by
    every execution. *)
Theorem limiters_stay_bounded :
  limitersBounded Registry.empty ∧
  (∀ d r r', limitersBounded r → registerFunction d r = inl r' → limitersBounded r') ∧
  (∀ name c r, limitersBounded r → limitersBounded (executeFunction name c r).1.1).
Proof.
  split; [|split].
  - intros name limiter key times Hlookup.
    cbv [Registry.empty rateLimiters] in Hlookup. by rewrite lookup_empty in Hlookup.
  - intros d r r' Hr Hreg name limiter key times.
    rewrite (rateLimiters_registerFunction d r r' Hreg).
    destruct (decide (fd_name d = name)) as [->|Hne].
    + rewrite lookup_insert_eq. intros [= <-]. simpl. by rewrite lookup_empty.
    + rewrite lookup_insert_ne by done. apply Hr.
  - intros name c r Hr.
    apply (executeFunction_preserved limitersBounded (λ _, True)); try done.
    intros d c0 r0 _ H0. unfold checkRateLimit.
    destruct (rateLimiters r0 !! fd_name d) as [limiter0|] eqn:Hl; [|done].
    destruct (lim_limit limiter0 <=? _) eqn:Hfull; [done|].
    apply Z.leb_gt in Hfull.
    intros name0 limiter key times. simpl.
    destruct (decide (fd_name d = name0)) as [<-|Hne].
    + rewrite lookup_insert_eq. intros [= <-]. simpl.
      destruct (decide (userKey d c0 = key)) as [<-|Hkey].
      * rewrite lookup_insert_eq. intros [= <-]. rewrite length_app. simpl. lia.
      * rewrite lookup_insert_ne by done. by apply (H0 (fd_name d)).
    + rewrite lookup_insert_ne by done. apply H0.
Qed.

Lemma string_app_cons a (s t : string) : String a s +:+ t = String a (s +:+ t).
Proof. done. Qed.

Lemma string_app_length (s t : string) :
  String.length (s +:+ t) = (String.length s + String.length t)%nat.
Proof.
  induction s as [|a s IH]; [done|]. rewrite string_app_cons. simpl. by rewrite IH.
Qed.

(** Appending the same suffix to different strings gives different strings. *)
Lemma string_app_inv_tail (s1 s2 t : string) : s1 +:+ t = s2 +:+ t → s1 = s2.
Proof.
  revert s2. induction s1 as [|a s1 IH]; intros s2 Heq.
  - destruct s2 as [|b s2]; [done|]. exfalso.
    apply (f_equal String.length) in Heq.
    rewrite string_app_cons in Heq. simpl in Heq.
    rewrite !string_app_length in Heq. simpl in Heq. lia.
  - destruct s2 as [|b s2].
    + exfalso. apply (f_equal String.length) in Heq.
      rewrite string_app_cons in Heq. simpl in Heq.
      rewrite !string_app_length in Heq. simpl in Heq. lia.
    + rewrite !string_app_cons in Heq. injection Heq as -> Heq.
      by rewrite (IH s2 Heq).
Qed.

(** An execution for one caller writes no list of a caller whose id renders
    differently. *)
Lemma requests_of_other_callers name c r capability other :
  template other ≠ template (ctx_userId c) →
  storedRequests capability (template other +:+ ":" +:+ capability)
    (executeFunction name c r).1.1
  = storedRequests capability (template other +:+ ":" +:+ capability) r.
Proof.
  intros Hother.
  apply (executeFunction_preserved
           (λ r0, storedRequests capability (template other +:+ ":" +:+ capability) r0
                  = storedRequests capability (template other +:+ ":" +:+ capability) r)
           (λ c0, ctx_userId c0 = ctx_userId c)); try done.
  intros d c0 r0 Hc0 H0. rewrite <- H0. unfold checkRateLimit.
  destruct (rateLimiters r0 !! fd_name d) as [limiter0|] eqn:Hl; [|done].
  case_match; [done|]. unfold storedRequests. simpl.
  destruct (decide (fd_name d = capability)) as [Hname|Hname].
  - rewrite Hname in *. rewrite lookup_insert_eq, Hl. simpl.
    rewrite lookup_insert_ne; [done|]. unfold userKey. rewrite Hname, Hc0.
    intros Hkey. apply Hother. symmetry. by apply string_app_inv_tail in Hkey.
  - by rewrite lookup_insert_ne.
Qed.

Lemma userKey_inj d c c' :
  userKey d c' = userKey d c ↔ template (ctx_userId c') = template (ctx_userId c).
Proof.
  unfold userKey. split; [|by intros ->]. apply string_app_inv_tail.
Qed.

(** X3. Two callers share the quota of a capability exactly when their user
    ids render to the same string in the key of the limiter.  An execution
    for one caller, with whatever fallback hops follow, leaves the time
    stamps under the key of a caller with another key untouched; an absent
    user id renders as "undefined", so an anonymous caller and a caller named
    "undefined" have one key and share their quota. *)
Theorem caller_isolation name c r d c' :
  (userKey d c' = userKey d c ↔ template (ctx_userId c') = template (ctx_userId c)) ∧
  (userKey d c' ≠ userKey d c →
   storedRequests (fd_name d) (userKey d c') (executeFunction name c r).1.1
   = storedRequests (fd_name d) (userKey d c') r) ∧
  (ctx_userId c = None → ctx_userId c' = Some "undefined" →
   userKey d c' = userKey d c ∧
   ∀ limiter,
     rateLimiters r !! fd_name d = Some limiter →
     lim_requests limiter !! userKey d c = None → 0 < lim_limit limiter →
     storedRequests (fd_name d) (userKey d c') (checkRateLimit d c r).2
     = Some [clock r]).
Proof.
  split; [apply userKey_inj|]. split.
  - intros Hkey. apply (requests_of_other_callers name c r (fd_name d) (ctx_userId c')).
    intros Hsame. apply Hkey. by apply userKey_inj.
  - intros Hanonymous Hnamed.
    assert (userKey d c' = userKey d c) as Hkey.
    { apply userKey_inj. by rewrite Hanonymous, Hnamed. }
    split; [exact Hkey|]. intros limiter Hl Hnone Hlimit. rewrite Hkey.
    unfold checkRateLimit, storedRequests. rewrite Hl, Hnone. simpl.
    change (Z.of_nat 0) with 0.
    destruct (Z.leb_spec (lim_limit limiter) 0); [lia|]. simpl.
    rewrite lookup_insert_eq. simpl. by rewrite lookup_insert_eq.
Qed.

Lemma caller_isolation_witness :
  storedRequests (fd_name Scenarios.rate_limited_function)
    (userKey Scenarios.rate_limited_function (Scenarios.caller (Some "someone-else")))
    (executeFunction "rate_limited_function" Scenarios.testUser
       Scenarios.limitedRegistry).1.1
  = storedRequests (fd_name Scenarios.rate_limited_function)
      (userKey Scenarios.rate_limited_function (Scenarios.caller (Some "someone-else")))
      Scenarios.limitedRegistry ∧
  storedRequests (fd_name Scenarios.rate_limited_function)
    (userKey Scenarios.rate_limited_function (Scenarios.caller (Some "undefined")))
    (checkRateLimit Scenarios.rate_limited_function Scenarios.anonymous
       Scenarios.limitedRegistry).2
  = Some [clock Scenarios.limitedRegistry].
Proof.
  split.
  - pose proof (caller_isolation "rate_limited_function" Scenarios.testUser
                  Scenarios.limitedRegistry Scenarios.rate_limited_function
                  (Scenarios.caller (Some "someone-else"))) as (_ & H & _).
    apply H. vm_compute. discriminate.
  - pose proof (caller_isolation "rate_limited_function" Scenarios.anonymous
                  Scenarios.limitedRegistry Scenarios.rate_limited_function
                  (Scenarios.caller (Some "undefined"))) as (_ & _ & H).
    destruct (H eq_refl eq_refl) as [_ Hshared].
    eapply Hshared; [vm_compute; reflexivity|vm_compute; reflexivity|simpl; lia].
Defined.

(** *** Registration, removal and update *)

Lemma member_removed (x : string) (X : gset string) :
  x ∉ X → (X ∪ {[x]}) ∖ {[x]} = X.
Proof.
  intros Hx. apply set_eq. intros y.
  rewrite elem_of_difference, elem_of_union, elem_of_singleton.
  split; [by intros [[Hy|Hy] Hne]|].
  intros Hy. split; [by left|]. by intros ->.
Qed.

Lemma categories_registerFunction d r r' :
  registerFunction d r = inl r' →
  categories r' =
  <[categoryName (fd_category d) :=
      default ∅ (categories r !! categoryName (fd_category d)) ∪ {[fd_name d]}]>
    (categories r).
Proof.
  unfold registerFunction. destruct (negb (schemaParse d)); [done|].
  case_decide; [done|]. intros [= <-]. by repeat case_match.
Qed.

Lemma fallbackChains_registerFunction d r r' :
  registerFunction d r = inl r' →
  fallbackChains r' = fallbackChains r ∨
  ∃ f, fallbackChains r' = <[fd_name d := [f]]> (fallbackChains r).
Proof.
  unfold registerFunction. destruct (negb (schemaParse d)); [done|].
  case_decide; [done|]. intros [= <-].
  destruct (ex_fallback (fd_execution d)) as [f|]; [|by left].
  destruct (negb (String.eqb f "")); [right; by exists f|by left].
Qed.

(** X4. A registration that succeeds stores the definition under its name,
    gives it an empty limiter with the limit [requestsPerMinute] and a window
    of one minute, and leaves the other capabilities and limiters and all
    histories as they were; registering the same name again then fails. *)
Theorem registerFunction_registers d r r' :
  registerFunction d r = inl r' →
  getFunction (fd_name d) r' = Some d ∧
  rateLimiters r' !! fd_name d
  = Some {| lim_requests := ∅;
            lim_limit := requestsPerMinute (ex_rateLimit (fd_execution d));
            lim_window := 60000 |} ∧
  (∀ n, n ≠ fd_name d →
        getFunction n r' = getFunction n r ∧ rateLimiters r' !! n = rateLimiters r !! n) ∧
  executionHistory r' = executionHistory r ∧
  (∀ d2, fd_name d2 = fd_name d → ∃ e, registerFunction d2 r' = inr e).
Proof.
  intros Hreg.
  destruct (functions_registerFunction d r r' Hreg) as (_ & _ & Hfs).
  pose proof (rateLimiters_registerFunction d r r' Hreg) as Hls.
  destruct (executionHistory_registerFunction d r r' Hreg) as (Hh & _).
  unfold getFunction. rewrite Hfs, Hls. repeat split.
  - by rewrite lookup_insert_eq.
  - by rewrite lookup_insert_eq.
  - by rewrite lookup_insert_ne.
  - by rewrite lookup_insert_ne.
  - done.
  - intros d2 Hname. unfold registerFunction.
    destruct (negb (schemaParse d2)); [by eexists|].
    rewrite Hname, Hfs, lookup_insert_eq.
    case_decide as Hfree; [by eexists|]. destruct Hfree. by eexists.
Qed.

Lemma registerFunction_registers_witness :
  getFunction (fd_name Scenarios.rate_limited_function) Scenarios.limitedRegistry
  = Some Scenarios.rate_limited_function ∧
  rateLimiters Scenarios.limitedRegistry !! fd_name Scenarios.rate_limited_function
  = Some {| lim_requests := ∅;
            lim_limit := requestsPerMinute
                           (ex_rateLimit (fd_execution Scenarios.rate_limited_function));
            lim_window := 60000 |} ∧
  (∀ n, n ≠ fd_name Scenarios.rate_limited_function →
        getFunction n Scenarios.limitedRegistry = getFunction n Registry.empty ∧
        rateLimiters Scenarios.limitedRegistry !! n = rateLimiters Registry.empty !! n) ∧
  executionHistory Scenarios.limitedRegistry = executionHistory Registry.empty ∧
  (∀ d2, fd_name d2 = fd_name Scenarios.rate_limited_function →
         ∃ e, registerFunction d2 Scenarios.limitedRegistry = inr e).
Proof.
  apply (registerFunction_registers Scenarios.rate_limited_function Registry.empty
           Scenarios.limitedRegistry).
  vm_compute. reflexivity.
Defined.

(** X5. A capability whose limiter has a limit of zero or less can never be
    executed: every call is refused with the rate-limit error and changes
    nothing. *)
Theorem nonpositive_limit_refuses name c r d limiter :
  getFunction name r = Some d →
  rateLimiters r !! fd_name d = Some limiter →
  lim_limit limiter ≤ 0 →
  executeFunction name c r = (r, c, Thrown (RateLimitExceeded name)).
Proof.
  intros Hd Hl Hlimit. apply executeFunction_rateLimited with (d := d); [done|].
  apply checkRateLimit_rejects with (limiter := limiter); [done|lia].
Qed.

(** X6. Removing a capability that was just registered under a fresh name
    returns true, emits the event of the removal, and restores the
    capabilities, limiters, fallback links, categories, histories and result
    objects of the registry as they were before the registration. *)
Theorem unregister_after_register d r r' :
  registerFunction d r = inl r' →
  rateLimiters r !! fd_name d = None →
  fallbackChains r !! fd_name d = None →
  (∀ members, categories r !! categoryName (fd_category d) = Some members →
              (fd_name d ∉ members) ∧ members ≠ ∅) →
  ∃ r'',
    unregisterFunction (fd_name d) r' = (true, r'', [FunctionUnregistered (fd_name d)]) ∧
    functions r'' = functions r ∧ rateLimiters r'' = rateLimiters r ∧
    fallbackChains r'' = fallbackChains r ∧ categories r'' = categories r ∧
    executionHistory r'' = executionHistory r ∧ heap r'' = heap r.
Proof.
  intros Hreg Hl Hf Hcat.
  destruct (functions_registerFunction d r r' Hreg) as (_ & Hfree & Hfs).
  pose proof (rateLimiters_registerFunction d r r' Hreg) as Hls.
  pose proof (categories_registerFunction d r r' Hreg) as Hcs.
  destruct (executionHistory_registerFunction d r r' Hreg) as (Hh & Hheap & _).
  destruct (fallbackChains_registerFunction d r r' Hreg) as [Hfc|[f Hfc]].
  all: unfold unregisterFunction; rewrite Hfs, lookup_insert_eq, Hcs, lookup_insert_eq.
  all: eexists; (split; [reflexivity|]); simpl.
  all: rewrite ?Hfs, ?Hls, ?Hfc, ?Hh, ?Hheap.
  all: rewrite !delete_insert_id by done.
  all: rewrite ?delete_id by done.
  all: repeat split; try done.
  all: destruct (categories r !! categoryName (fd_category d)) as [members|] eqn:Hc;
    simpl.
  all: try (destruct (Hcat members eq_refl) as [Hnotin Hne];
            rewrite (member_removed _ _ Hnotin);
            rewrite bool_decide_eq_false_2 by done;
            rewrite insert_insert_eq; by apply insert_id).
  all: rewrite (member_removed _ ∅) by apply not_elem_of_empty.
  all: rewrite bool_decide_eq_true_2 by done; by apply delete_insert_id.
Qed.

Lemma nonpositive_limit_refuses_witness :
  executeFunction "disabled_function" Scenarios.testUser
    ManagementScenarios.disabledRegistry
  = (ManagementScenarios.disabledRegistry, Scenarios.testUser,
     Thrown (RateLimitExceeded "disabled_function")).
Proof.
  apply (nonpositive_limit_refuses "disabled_function" Scenarios.testUser
           ManagementScenarios.disabledRegistry ManagementScenarios.disabled_function
           {| lim_requests := ∅; lim_limit := 0; lim_window := 60000 |}).
  - vm_compute. reflexivity.
  - vm_compute. reflexivity.
  - simpl. lia.
Defined.

Lemma unregister_after_register_witness :
  ∃ r'',
    unregisterFunction (fd_name Scenarios.rate_limited_function) Scenarios.limitedRegistry
    = (true, r'', [FunctionUnregistered (fd_name Scenarios.rate_limited_function)]) ∧
    functions r'' = functions Registry.empty ∧
    rateLimiters r'' = rateLimiters Registry.empty ∧
    fallbackChains r'' = fallbackChains Registry.empty ∧
    categories r'' = categories Registry.empty ∧
    executionHistory r'' = executionHistory Registry.empty ∧
    heap r'' = heap Registry.empty.
Proof.
  apply (unregister_after_register Scenarios.rate_limited_function Registry.empty
           Scenarios.limitedRegistry).
  - vm_compute. reflexivity.
  - reflexivity.
  - reflexivity.
  - intros members Hmembers. vm_compute in Hmembers. discriminate Hmembers.
Defined.

(** X7. Removing a capability keeps what its executions recorded: the
    history of the name and the result objects are as before, while executing
    the name now raises the not-found error.  Removing an unknown name
    changes nothing. *)
Theorem unregister_keeps_history name r :
  getExecutionHistory name (unregisterFunction name r).1.2 = getExecutionHistory name r ∧
  (getFunction name r = None → unregisterFunction name r = (false, r, [])) ∧
  (∀ c, is_Some (getFunction name r) →
        (unregisterFunction name r).1.1 = true ∧
        executeFunction name c (unregisterFunction name r).1.2
        = ((unregisterFunction name r).1.2, c, Thrown (NotFound name))).
Proof.
  unfold unregisterFunction, getFunction.
  destruct (functions r !! name) as [d|] eqn:Hd; simpl.
  - split; [done|]. split; [done|]. intros c _. split; [done|].
    apply executeFunction_notFound. unfold getFunction. simpl.
    apply lookup_delete_eq.
  - split; [done|]. split; [done|]. by intros c [d Hd'].
Qed.

(** X8. An update replaces the stored definition and nothing else: the
    limiter built at registration stays, so unless the update renames the
    capability, a changed [rateLimit] changes no admission decision. *)
Theorem updateFunction_keeps_limiter name updates r r' events :
  updateFunction name updates r = (true, r', events) →
  rateLimiters r' = rateLimiters r ∧ fallbackChains r' = fallbackChains r ∧
  executionHistory r' = executionHistory r ∧
  ∃ existing,
    getFunction name r = Some existing ∧
    getFunction name r' = Some (merge existing updates) ∧
    (∀ n, n ≠ name → getFunction n r' = getFunction n r) ∧
    (up_name updates = None →
     ∀ c, (checkRateLimit (merge existing updates) c r').1
          = (checkRateLimit existing c r).1).
Proof.
  unfold updateFunction, getFunction.
  destruct (functions r !! name) as [existing|] eqn:Hd; [|done].
  destruct (schemaParse (merge existing updates)); [|done].
  intros [= <- <-]. simpl. repeat split.
  exists existing. split; [done|]. split; [by rewrite lookup_insert_eq|].
  split; [by intros n Hn; rewrite lookup_insert_ne|].
  intros Hname c. unfold checkRateLimit, userKey. simpl. rewrite Hname. simpl.
  destruct (rateLimiters r !! fd_name existing); [|done]. by case_match.
Qed.

Lemma updateFunction_keeps_limiter_witness :
  rateLimiters (updateFunction "rate_limited_function" ManagementScenarios.relaxed
                  Scenarios.limitedRegistry).1.2
  = rateLimiters Scenarios.limitedRegistry ∧
  fallbackChains (updateFunction "rate_limited_function" ManagementScenarios.relaxed
                    Scenarios.limitedRegistry).1.2
  = fallbackChains Scenarios.limitedRegistry ∧
  executionHistory (updateFunction "rate_limited_function" ManagementScenarios.relaxed
                      Scenarios.limitedRegistry).1.2
  = executionHistory Scenarios.limitedRegistry ∧
  ∃ existing,
    getFunction "rate_limited_function" Scenarios.limitedRegistry = Some existing ∧
    getFunction "rate_limited_function"
      (updateFunction "rate_limited_function" ManagementScenarios.relaxed
         Scenarios.limitedRegistry).1.2
    = Some (merge existing ManagementScenarios.relaxed) ∧
    (∀ n, n ≠ "rate_limited_function" →
          getFunction n (updateFunction "rate_limited_function"
                           ManagementScenarios.relaxed Scenarios.limitedRegistry).1.2
          = getFunction n Scenarios.limitedRegistry) ∧
    (up_name ManagementScenarios.relaxed = None →
     ∀ c, (checkRateLimit (merge existing ManagementScenarios.relaxed) c
             (updateFunction "rate_limited_function" ManagementScenarios.relaxed
                Scenarios.limitedRegistry).1.2).1
          = (checkRateLimit existing c Scenarios.limitedRegistry).1).
Proof.
  apply (updateFunction_keeps_limiter "rate_limited_function"
           ManagementScenarios.relaxed Scenarios.limitedRegistry
           (updateFunction "rate_limited_function" ManagementScenarios.relaxed
              Scenarios.limitedRegistry).1.2
           [FunctionUpdated "rate_limited_function"]).
  vm_compute. reflexivity.
Defined.

(** *** What an execution raises and what it records *)

Lemma checkRateLimit_refused d c r r1 :
  checkRateLimit d c r = (false, r1) → r1 = r.
Proof.
  unfold checkRateLimit. destruct (rateLimiters r !! fd_name d); [|done].
  case_match; [by intros [= <-]|done].
Qed.

Lemma checkRateLimit_frame d c r :
  heap (checkRateLimit d c r).2 = heap r ∧
  executionHistory (checkRateLimit d c r).2 = executionHistory r ∧
  emitted (checkRateLimit d c r).2 = emitted r.
Proof.
  unfold checkRateLimit. destruct (rateLimiters r !! fd_name d); [|done].
  by case_match.
Qed.

(** An execution that raises has recorded and emitted nothing. *)
Lemma thrown_frame name c r r' c' e :
  executeFunction name c r = (r', c', Thrown e) →
  c' = c ∧ heap r' = heap r ∧ executionHistory r' = executionHistory r ∧
  emitted r' = emitted r.
Proof.
  intros E.
  destruct (getFunction name r) as [d|] eqn:Hd.
  2:{ rewrite (executeFunction_notFound _ _ _ Hd) in E. by injection E as <- <- <-. }
  pose proof (checkRateLimit_frame d c r) as Hframe.
  destruct (checkRateLimit d c r) as [[|] r1] eqn:Hrl; simpl in Hframe.
  2:{ rewrite (executeFunction_rateLimited _ _ _ _ _ Hd Hrl) in E.
      by injection E as <- <- <-. }
  destruct (ex_requiresAuth (fd_execution d) && negb (truthy (ctx_userId c))) eqn:Hauth.
  - rewrite (executeFunction_authRequired _ _ _ _ _ Hd Hrl Hauth) in E.
    by injection E as <- <- <-.
  - destruct (executeFunction_returns _ _ _ _ _ Hd Hrl Hauth) as (r2 & c2 & a & E2).
    rewrite E2 in E. discriminate E.
Qed.

(** X9. [executeFunction] raises only for the capability it was asked to
    execute, and only one of three errors: not found and rate limit exceeded,
    which leave registry and context untouched, and authentication required,
    which leaves the registry as the limiter check left it.  Nothing that goes
    wrong in a fallback is ever raised. *)
Theorem raised_errors name c r r' c' e :
  executeFunction name c r = (r', c', Thrown e) →
  c' = c ∧
  ((e = NotFound name ∧ getFunction name r = None ∧ r' = r) ∨
   (e = RateLimitExceeded name ∧ is_Some (getFunction name r) ∧ r' = r) ∨
   (∃ d, e = AuthRequired name ∧ getFunction name r = Some d ∧
         ex_requiresAuth (fd_execution d) = true ∧ truthy (ctx_userId c) = false ∧
         r' = (checkRateLimit d c r).2)).
Proof.
  intros E.
  destruct (getFunction name r) as [d|] eqn:Hd.
  2:{ rewrite (executeFunction_notFound _ _ _ Hd) in E. injection E as <- <- <-.
      split; [done|]. by left. }
  destruct (checkRateLimit d c r) as [[|] r1] eqn:Hrl.
  2:{ rewrite (executeFunction_rateLimited _ _ _ _ _ Hd Hrl) in E.
      injection E as <- <- <-. apply checkRateLimit_refused in Hrl as ->.
      split; [done|]. right. left. by eauto. }
  destruct (ex_requiresAuth (fd_execution d) && negb (truthy (ctx_userId c))) eqn:Hauth.
  - rewrite (executeFunction_authRequired _ _ _ _ _ Hd Hrl Hauth) in E.
    injection E as <- <- <-. split; [done|]. right. right. exists d.
    apply andb_true_iff in Hauth as [Hreq Huser]. apply negb_true_iff in Huser.
    by rewrite Hrl.
  - destruct (executeFunction_returns _ _ _ _ _ Hd Hrl Hauth) as (r2 & c2 & a & E2).
    rewrite E2 in E. discriminate E.
Qed.

Lemma raised_errors_witness :
  Scenarios.anonymous = Scenarios.anonymous ∧
  ((AuthRequired "secure_function" = NotFound "secure_function" ∧
    getFunction "secure_function" Scenarios.secureRegistry = None ∧
    (executeFunction "secure_function" Scenarios.anonymous Scenarios.secureRegistry).1.1
    = Scenarios.secureRegistry) ∨
   (AuthRequired "secure_function" = RateLimitExceeded "secure_function" ∧
    is_Some (getFunction "secure_function" Scenarios.secureRegistry) ∧
    (executeFunction "secure_function" Scenarios.anonymous Scenarios.secureRegistry).1.1
    = Scenarios.secureRegistry) ∨
   (∃ d, AuthRequired "secure_function" = AuthRequired "secure_function" ∧
         getFunction "secure_function" Scenarios.secureRegistry = Some d ∧
         ex_requiresAuth (fd_execution d) = true ∧
         truthy (ctx_userId Scenarios.anonymous) = false ∧
         (executeFunction "secure_function" Scenarios.anonymous
            Scenarios.secureRegistry).1.1
         = (checkRateLimit d Scenarios.anonymous Scenarios.secureRegistry).2)).
Proof.
  apply (raised_errors "secure_function" Scenarios.anonymous Scenarios.secureRegistry
           (executeFunction "secure_function" Scenarios.anonymous
              Scenarios.secureRegistry).1.1
           Scenarios.anonymous (AuthRequired "secure_function")).
  vm_compute. reflexivity.
Defined.

(** X10. A successful execution is recorded: the result object is new, it is
    the newest entry of the history of the capability (which
    [getExecutionHistory] returns last), no other history changes, and the
    two events of an execution are emitted after the time the handler took. *)
Theorem success_is_recorded name c r d r1 elapsed v :
  getFunction name r = Some d →
  checkRateLimit d c r = (true, r1) →
  ex_requiresAuth (fd_execution d) && negb (truthy (ctx_userId c)) = false →
  race (fd_handler d (ctx_parameters c) c) (ex_timeout (fd_execution d))
  = (elapsed, inl v) →
  ∃ r',
    executeFunction name c r = (r', c, Returned (length (heap r))) ∧
    heap r' = heap r ++ [successResult d c elapsed v] ∧
    last (getExecutionHistory name r') = Some (successResult d c elapsed v) ∧
    (∀ n, n ≠ name → executionHistory r' !! n = executionHistory r !! n) ∧
    emitted r' = emitted r ++ [FunctionExecuted name (length (heap r));
                               BehaviorTracked (ctx_userId c) name true elapsed] ∧
    clock r' = clock r + elapsed.
Proof.
  intros Hd Hrl Hauth Hrace.
  rewrite (executeFunction_success _ _ _ _ _ _ _ Hd Hrl Hauth Hrace).
  pose proof (checkRateLimit_frame d c r) as (Hheap & Hhist & Hem).
  pose proof (clock_checkRateLimit d c r) as Hclock.
  rewrite Hrl in Hheap, Hhist, Hem, Hclock. simpl in Hheap, Hhist, Hem, Hclock.
  unfold complete, alloc, emitExecuted. simpl. rewrite Hheap.
  eexists. split; [done|]. simpl. rewrite ?Hheap, ?Hem, ?Hclock. split; [done|].
  split; [|split; [|done]].
  - unfold getExecutionHistory. simpl.
    destruct (recordExecution_newest name (length (heap r))
                (setHeap (heap r ++ [successResult d c elapsed v]) (elapse elapsed r1)))
      as [older Holder].
    simpl in Holder. rewrite Holder, omap_app. simpl.
    rewrite lookup_app_r; [|done]. rewrite Nat.sub_diag. simpl.
    apply last_snoc.
  - intros n Hn. rewrite lookup_insert_ne; [|done]. by rewrite Hhist.
Qed.

Lemma success_is_recorded_witness :
  ∃ r',
    executeFunction "fallback_function" Scenarios.testUser
      ManagementScenarios.successRegistry
    = (r', Scenarios.testUser, Returned (length (heap ManagementScenarios.successRegistry))) ∧
    heap r' = heap ManagementScenarios.successRegistry
              ++ [successResult Scenarios.fallback_function Scenarios.testUser 0
                    (JsString "fallback result")] ∧
    last (getExecutionHistory "fallback_function" r')
    = Some (successResult Scenarios.fallback_function Scenarios.testUser 0
              (JsString "fallback result")) ∧
    (∀ n, n ≠ "fallback_function" →
          executionHistory r' !! n
          = executionHistory ManagementScenarios.successRegistry !! n) ∧
    emitted r' = emitted ManagementScenarios.successRegistry
                 ++ [FunctionExecuted "fallback_function"
                       (length (heap ManagementScenarios.successRegistry));
                     BehaviorTracked (ctx_userId Scenarios.testUser)
                       "fallback_function" true 0] ∧
    clock r' = clock ManagementScenarios.successRegistry + 0.
Proof.
  apply (success_is_recorded "fallback_function" Scenarios.testUser
           ManagementScenarios.successRegistry Scenarios.fallback_function
           (checkRateLimit Scenarios.fallback_function Scenarios.testUser
              ManagementScenarios.successRegistry).2 0 (JsString "fallback result")).
  - vm_compute. reflexivity.
  - vm_compute. reflexivity.
  - vm_compute. reflexivity.
  - vm_compute. reflexivity.
Defined.

(** X11. A failure handed to the fallback path leaves no record.  When the
    handler fails, a hop is allowed, and the fallback is not registered or
    its execution raises, the caller gets the failure result of the
    capability as a new object, but no history gets an entry and no event is
    emitted; a fallback that raised has still used up one retry of the
    context, an unregistered one has not. *)
Theorem unanswered_fallback_is_not_recorded name c r d r1 elapsed message f :
  getFunction name r = Some d →
  checkRateLimit d c r = (true, r1) →
  ex_requiresAuth (fd_execution d) && negb (truthy (ctx_userId c)) = false →
  race (fd_handler d (ctx_parameters c) c) (ex_timeout (fd_execution d))
  = (elapsed, inr message) →
  ex_fallback (fd_execution d) = Some f →
  truthy (Some f) = true →
  ctx_retryCount c < ex_retries (fd_execution d) →
  (getFunction f r = None ∨
   ∃ r2 c2 e, executeFunction f (noteFallback f c) (elapse elapsed r1) = (r2, c2, Thrown e)) →
  ∃ r' c',
    executeFunction name c r = (r', c', Returned (length (heap r))) ∧
    heap r' = heap r ++ [failureResult message] ∧
    executionHistory r' = executionHistory r ∧
    emitted r' = emitted r ∧
    c' = match getFunction f r with Some _ => noteFallback f c | None => c end.
Proof.
  intros Hd Hrl Hauth Hrace Hf Htruthy Hlt Hfallback.
  pose proof (executeFunction_fallback_hop _ _ _ _ _ _ _ _ Hd Hrl Hauth Hrace Hf Htruthy Hlt)
    as E.
  pose proof (checkRateLimit_frame d c r) as (Hheap & Hhist & Hem).
  pose proof (functions_checkRateLimit d c r) as Hfs.
  rewrite Hrl in Hheap, Hhist, Hem, Hfs. simpl in Hheap, Hhist, Hem, Hfs.
  unfold executeFallback in E. rewrite Hf in E. simpl in E.
  assert (getFunction f (elapse elapsed r1) = getFunction f r) as Hsame.
  { unfold getFunction. simpl. by rewrite Hfs. }
  rewrite Hsame in E.
  destruct (getFunction f r) as [df|] eqn:Hdf.
  - destruct Hfallback as [|(r2 & c2 & e & Hthrown)]; [done|].
    rewrite Hthrown in E. unfold alloc in E. injection E as E. rewrite <- E.
    apply thrown_frame in Hthrown as (-> & H1 & H2 & H3).
    simpl in H1, H2, H3. rewrite Hheap in H1. rewrite Hhist in H2. rewrite Hem in H3.
    exists (setHeap (heap r2 ++ [failureResult message]) r2), (noteFallback f c).
    simpl. by rewrite H1, H2, H3.
  - unfold alloc in E. injection E as E. rewrite <- E.
    exists (setHeap (heap r1 ++ [failureResult message]) (elapse elapsed r1)), c.
    simpl. by rewrite Hheap, Hhist, Hem.
Qed.

Lemma unanswered_fallback_is_not_recorded_witness :
  ∃ r' c',
    executeFunction "primary_function" Scenarios.testUser
      ManagementScenarios.orphanRegistry
    = (r', c', Returned (length (heap ManagementScenarios.orphanRegistry))) ∧
    heap r' = heap ManagementScenarios.orphanRegistry
              ++ [failureResult "Primary function failed"] ∧
    executionHistory r' = executionHistory ManagementScenarios.orphanRegistry ∧
    emitted r' = emitted ManagementScenarios.orphanRegistry ∧
    c' = match getFunction "fallback_function" ManagementScenarios.orphanRegistry with
         | Some _ => noteFallback "fallback_function" Scenarios.testUser
         | None => Scenarios.testUser
         end.
Proof.
  apply (unanswered_fallback_is_not_recorded "primary_function" Scenarios.testUser
           ManagementScenarios.orphanRegistry Scenarios.primary_function
           (checkRateLimit Scenarios.primary_function Scenarios.testUser
              ManagementScenarios.orphanRegistry).2 0 "Primary function failed"
           "fallback_function").
  - vm_compute. reflexivity.
  - vm_compute. reflexivity.
  - vm_compute. reflexivity.
  - vm_compute. reflexivity.
  - reflexivity.
  - reflexivity.
  - simpl. lia.
  - left. vm_compute. reflexivity.
Defined.

Lemma hop_accounting_fuel fuel name c r run :
  executeFunctionFuel fuel name c r = Some run →
  ∃ added,
    ctx_fallbackChain run.1.2 = ctx_fallbackChain c ++ added ∧
    ctx_retryCount run.1.2 = ctx_retryCount c + Z.of_nat (length added) ∧
    Forall (λ f, is_Some (functions r !! f)) added ∧
    (added ≠ [] → ctx_retryCount run.1.2 ≤ maxRetries (functions r)) ∧
    ctx_userId run.1.2 = ctx_userId c ∧ ctx_parameters run.1.2 = ctx_parameters c.
Proof.
  revert name c r run.
  induction fuel as [|fuel IH]; intros name c r run; [done|]. simpl.
  assert (∃ added : list string,
            ctx_fallbackChain c = ctx_fallbackChain c ++ added ∧
            ctx_retryCount c = ctx_retryCount c + Z.of_nat (length added) ∧
            Forall (λ f, is_Some (functions r !! f)) added ∧
            (added ≠ [] → ctx_retryCount c ≤ maxRetries (functions r)) ∧
            ctx_userId c = ctx_userId c ∧ ctx_parameters c = ctx_parameters c) as Hnone.
  { exists []. rewrite app_nil_r. simpl. repeat split; [lia|done|done]. }
  unfold executeFunctionBody.
  destruct (getFunction name r) as [d|] eqn:Hd; [|by intros [= <-]].
  pose proof (functions_checkRateLimit d c r) as Hfs.
  destruct (checkRateLimit d c r) as [admitted r1]. simpl in Hfs.
  destruct (negb admitted); [by intros [= <-]|].
  destruct (ex_requiresAuth (fd_execution d) && negb (truthy (ctx_userId c)));
    [by intros [= <-]|].
  unfold runHandler. destruct (race _ _) as [elapsed [v|message]].
  { by intros [= <-]. }
  destruct (truthy (ex_fallback (fd_execution d)) &&
            (ctx_retryCount c <? ex_retries (fd_execution d))) eqn:Hhop.
  2:{ by intros [= <-]. }
  apply andb_true_iff in Hhop as [_ Hlt]. apply Z.ltb_lt in Hlt.
  pose proof (maxRetries_lookup _ _ _ Hd) as Hmax.
  unfold executeFallback.
  destruct (getFunction _ (elapse elapsed r1)) as [df|] eqn:Hdf.
  2:{ by intros [= <-]. }
  unfold getFunction in Hdf. simpl in Hdf. rewrite Hfs in Hdf.
  destruct (executeFunctionFuel fuel _ _ _) as [[[r2 c2] o]|] eqn:Hinner; [|done].
  apply IH in Hinner as (added & Hchain & Hcount & Hreg & Hbound & Huser & Hparams).
  simpl in Hchain, Hcount, Hreg, Hbound, Huser, Hparams. rewrite Hfs in Hreg, Hbound.
  assert (ctx_fallbackChain c2
          = ctx_fallbackChain c ++ default "" (ex_fallback (fd_execution d)) :: added ∧
          ctx_retryCount c2
          = ctx_retryCount c
            + Z.of_nat (length (default "" (ex_fallback (fd_execution d)) :: added)) ∧
          Forall (λ f, is_Some (functions r !! f))
            (default "" (ex_fallback (fd_execution d)) :: added) ∧
          ctx_retryCount c2 ≤ maxRetries (functions r)) as (H1 & H2 & H3 & H4).
  { split; [by rewrite Hchain, <- app_assoc|].
    split; [rewrite Hcount; simpl length; lia|].
    split; [by apply Forall_cons|].
    destruct added as [|g added]; [simpl in Hcount; lia|by apply Hbound]. }
  destruct o as [a|e]; intros [= <-]; simpl;
    by exists (default "" (ex_fallback (fd_execution d)) :: added).
Qed.

(** X12. Hops are accounted for.  Whatever an execution does, the context
    that comes back has the names of the capabilities it fell back to
    appended to [fallbackChain], each of them registered, and [retryCount]
    raised by exactly their number; a hop is taken only while [retryCount]
    is below the retry budget of the capability that failed, so after a hop
    [retryCount] is below the largest retry budget of a registered
    capability plus one.  Caller and parameters are never touched. *)
Theorem hops_are_accounted name c r :
  ∃ added,
    ctx_fallbackChain (executeFunction name c r).1.2 = ctx_fallbackChain c ++ added ∧
    ctx_retryCount (executeFunction name c r).1.2
    = ctx_retryCount c + Z.of_nat (length added) ∧
    Forall (λ f, is_Some (getFunction f r)) added ∧
    (added ≠ [] →
     ctx_retryCount (executeFunction name c r).1.2 < maxRetries (functions r) + 1) ∧
    ctx_userId (executeFunction name c r).1.2 = ctx_userId c ∧
    ctx_parameters (executeFunction name c r).1.2 = ctx_parameters c.
Proof.
  destruct (hop_accounting_fuel (hops c r) name c r (executeFunction name c r))
    as (added & H1 & H2 & H3 & H4 & H5); [by apply executeFunction_fuel|].
  destruct H5 as [H5 H6].
  exists added. split; [exact H1|]. split; [exact H2|]. split; [exact H3|].
  split; [|by split]. intros Hadded. specialize (H4 Hadded). lia.
Qed.

End ManagementFacts.

(** ** One request per window *)

Module LimiterFacts.
Import Registry Management RegistryFacts ManagementFacts.

Lemma prune_stale now window times :
  (∀ t, t ∈ times → window ≤ now - t) → prune now window times = [].
Proof.
  unfold prune. induction times as [|t times IH]; [done|]. intros Hstale. simpl.
  replace (now - t <? window) with false.
  - apply IH. intros t' Ht'. apply Hstale. by apply list_elem_of_further.
  - symmetry. apply Z.ltb_ge. apply Hstale. apply list_elem_of_here.
Qed.

Lemma prune_sublist now window times t : t ∈ prune now window times → t ∈ times.
Proof. unfold prune. rewrite !list_elem_of_In, List.filter_In. tauto. Qed.

Lemma checkRateLimit_stale d c r limiter :
  rateLimiters r !! fd_name d = Some limiter →
  0 < lim_limit limiter →
  (∀ t, t ∈ default [] (lim_requests limiter !! userKey d c) →
        lim_window limiter ≤ clock r - t) →
  (checkRateLimit d c r).1 = true.
Proof.
  intros Hl Hlimit Hstale. unfold checkRateLimit. rewrite Hl. simpl.
  rewrite (prune_stale _ _ _ Hstale). change (Z.of_nat (length [])) with 0.
  destruct (Z.leb_spec (lim_limit limiter) 0); [lia|done].
Qed.

Lemma admitted_not_refused name c r d :
  getFunction name r = Some d →
  (checkRateLimit d c r).1 = true →
  (executeFunction name c r).2 ≠ Thrown (RateLimitExceeded name).
Proof.
  intros Hd Hadmitted.
  destruct (checkRateLimit d c r) as [admitted r1] eqn:Hrl. simpl in Hadmitted. subst.
  destruct (ex_requiresAuth (fd_execution d) && negb (truthy (ctx_userId c))) eqn:Hauth.
  - by rewrite (executeFunction_authRequired _ _ _ _ _ Hd Hrl Hauth).
  - by destruct (executeFunction_returns _ _ _ _ _ Hd Hrl Hauth) as (r' & c' & a & ->).
Qed.

Lemma settled_checkRateLimit name key limit window d c r :
  settled name key limit window r → settled name key limit window (checkRateLimit d c r).2.
Proof.
  intros (limiter & Hl & Hlimit & Hwindow & Hpast). unfold checkRateLimit.
  destruct (rateLimiters r !! fd_name d) as [limiter'|] eqn:Hl'; [|by exists limiter].
  case_match; [by exists limiter|]. unfold settled. simpl.
  destruct (decide (fd_name d = name)) as [Hname|Hname].
  - rewrite Hname in *. rewrite lookup_insert_eq.
    assert (limiter' = limiter) as -> by congruence.
    eexists. split; [done|]. simpl. split; [done|]. split; [done|].
    destruct (decide (userKey d c = key)) as [Hkey|Hkey].
    + rewrite Hkey, lookup_insert_eq. simpl. intros t [Ht|Ht]%elem_of_app.
      * apply Hpast. by apply prune_sublist in Ht.
      * apply list_elem_of_singleton in Ht. lia.
    + by rewrite lookup_insert_ne.
  - exists limiter. by rewrite lookup_insert_ne.
Qed.

Lemma settled_executeFunction name key limit window n c r :
  settled name key limit window r →
  settled name key limit window (executeFunction n c r).1.1.
Proof.
  apply executeFunction_invariant.
  - intros. by apply settled_checkRateLimit.
  - intros ms r0 Hms (limiter & Hl & Hlimit & Hwindow & Hpast).
    exists limiter. repeat split; try done. intros t Ht. specialize (Hpast t Ht).
    simpl. lia.
  - intros r0 r' _ Hl Hc H. unfold settled. by rewrite Hl, Hc.
Qed.

(** C6. With a limit of one request per window of positive length, for a
    caller who has no request in the current window: the first call is admitted by the
    limiter; a second call by the same caller less than one window after the
    first was admitted is refused with the rate-limit error and changes
    nothing; a second call a full window after the first execution is
    admitted again, its old time stamps no longer counting; and a caller with
    another user id, with no request in the window either, is admitted
    whenever it calls, the quota being kept per caller.  Every decision reads
    the list stored under the key made of the caller's user id and the name
    of the capability, keeps of it the time stamps less than one window old,
    admits exactly when those are fewer than the limit, and on admission
    stores them with the current time appended. *)
Theorem one_request_per_window name c c2 c3 r d limiter delta :
  getFunction name r = Some d →
  rateLimiters r !! fd_name d = Some limiter →
  lim_limit limiter = 1 →
  0 < lim_window limiter →
  (∀ t, t ∈ default [] (lim_requests limiter
                          !! (template (ctx_userId c) +:+ ":" +:+ fd_name d)) →
        lim_window limiter ≤ clock r - t) →
  ctx_userId c2 = ctx_userId c →
  0 ≤ delta →
  ((checkRateLimit d c r).1 = true ∧
   (executeFunction name c r).2 ≠ Thrown (RateLimitExceeded name)) ∧
  (let r1 := elapse delta (executeFunction name c r).1.1 in
   clock r1 - clock r < lim_window limiter →
   executeFunction name c2 r1 = (r1, c2, Thrown (RateLimitExceeded name))) ∧
  (let r1 := elapse delta (executeFunction name c r).1.1 in
   lim_window limiter ≤ delta →
   (checkRateLimit d c2 r1).1 = true ∧
   (executeFunction name c2 r1).2 ≠ Thrown (RateLimitExceeded name)) ∧
  (let r1 := elapse delta (executeFunction name c r).1.1 in
   template (ctx_userId c3) ≠ template (ctx_userId c) →
   (∀ t, t ∈ default [] (lim_requests limiter
                           !! (template (ctx_userId c3) +:+ ":" +:+ fd_name d)) →
         lim_window limiter ≤ clock r - t) →
   (checkRateLimit d c3 r1).1 = true ∧
   (executeFunction name c3 r1).2 ≠ Thrown (RateLimitExceeded name)) ∧
  (∀ d0 c0 r0 limiter0,
     rateLimiters r0 !! fd_name d0 = Some limiter0 →
     let key := template (ctx_userId c0) +:+ ":" +:+ fd_name d0 in
     let recent := List.filter (λ t, clock r0 - t <? lim_window limiter0)
                     (default [] (lim_requests limiter0 !! key)) in
     checkRateLimit d0 c0 r0 =
     if bool_decide (Z.of_nat (length recent) < lim_limit limiter0)
     then (true,
           setRateLimiters
             (<[fd_name d0 := setRequests (<[key := recent ++ [clock r0]]>
                                              (lim_requests limiter0)) limiter0]>
                (rateLimiters r0)) r0)
     else (false, r0)).
Proof.
  intros Hd Hl Hlimit Hpositive Hstale Huser Hdelta.
  assert (recentRequests (fd_name d) (userKey d c) r = []) as Hnone.
  { unfold recentRequests. rewrite Hl. by apply prune_stale. }
  destruct (checkRateLimit_admits d c r limiter Hl) as (r1 & Hrl & Hclock & Hslot & _).
  { rewrite Hnone, Hlimit. simpl. lia. }
  rewrite Hlimit in Hslot.
  assert ((checkRateLimit d c r).1 = true) as Hadmitted by (by rewrite Hrl).
  pose proof (admitted_not_refused name c r d Hd Hadmitted) as Hfirst.
  assert (getFunction name (elapse delta (executeFunction name c r).1.1) = Some d)
    as Hd1.
  { unfold getFunction. simpl. rewrite functions_executeFunction. exact Hd. }
  assert (userKey d c2 = userKey d c) as Hkey2 by (unfold userKey; by rewrite Huser).
  pose proof (clock_executeFunction name c r) as Hlater.
  split; [done|]. split; [|split; [|split]].
  - intros r2 Hwindow.
    assert (holdsSlot (fd_name d) (userKey d c) (clock r) 1 (lim_window limiter)
              (executeFunction name c r).1.1) as Hafter.
    { destruct (ex_requiresAuth (fd_execution d) && negb (truthy (ctx_userId c)))
        eqn:Hauth.
      - by rewrite (executeFunction_authRequired _ _ _ _ _ Hd Hrl Hauth).
      - eapply holdsSlot_runHandler; [exact Hslot|]. by apply executeFunction_admitted. }
    assert (holdsSlot (fd_name d) (userKey d c) (clock r) 1 (lim_window limiter) r2)
      as Hslot2.
    { destruct Hafter as (Hc & H). split; [subst r2; simpl; lia|done]. }
    pose proof (holdsSlot_recent _ _ _ _ _ _ Hslot2) as Hcount.
    destruct Hslot2 as (_ & limiter2 & _ & _ & Hl2 & Hlimit2 & _).
    apply executeFunction_rateLimited with (d := d); [exact Hd1|].
    apply checkRateLimit_rejects with (limiter := limiter2); [done|].
    rewrite Hkey2, Hlimit2. apply Nat2Z.inj_le in Hcount; [done|lia].
  - intros r2 Hfull.
    assert (settled (fd_name d) (userKey d c) 1 (lim_window limiter)
              (executeFunction name c r).1.1) as (limiter2 & Hl2 & Hlimit2 & Hwindow2 & Hpast).
    { apply settled_executeFunction. exists limiter. repeat split; try done.
      intros t Ht. specialize (Hstale t Ht). lia. }
    assert ((checkRateLimit d c2 r2).1 = true) as Hagain.
    { apply checkRateLimit_stale with (limiter := limiter2); [done|lia|].
      rewrite Hkey2, Hwindow2. intros t Ht. specialize (Hpast t Ht).
      subst r2. simpl. lia. }
    split; [exact Hagain|]. by apply admitted_not_refused with (d := d).
  - intros r2 Hother Hstale3.
    assert (settled (fd_name d) (userKey d c) 1 (lim_window limiter)
              (executeFunction name c r).1.1) as (limiter2 & Hl2 & Hlimit2 & Hwindow2 & _).
    { apply settled_executeFunction. exists limiter. repeat split; try done.
      intros t Ht. specialize (Hstale t Ht). lia. }
    pose proof (requests_of_other_callers name c r (fd_name d) (ctx_userId c3) Hother)
      as Hsame.
    unfold storedRequests in Hsame. rewrite Hl, Hl2 in Hsame. simpl in Hsame.
    assert ((checkRateLimit d c3 r2).1 = true) as Hthird.
    { apply checkRateLimit_stale with (limiter := limiter2); [done|lia|].
      unfold userKey. rewrite Hsame, Hwindow2. intros t Ht. specialize (Hstale3 t Ht).
      subst r2. simpl. lia. }
    split; [exact Hthird|]. by apply admitted_not_refused with (d := d).
  - intros d0 c0 r0 limiter0 Hl0 key recent.
    pose proof (checkRateLimit_spec d0 c0 r0 limiter0 Hl0) as Hspec.
    unfold recentRequests in Hspec. rewrite Hl0 in Hspec. exact Hspec.
Qed.

Lemma one_request_per_window_witness :
  ((checkRateLimit Scenarios.rate_limited_function Scenarios.testUser
      Scenarios.limitedRegistry).1 = true ∧
   (executeFunction "rate_limited_function" Scenarios.testUser Scenarios.limitedRegistry).2
   ≠ Thrown (RateLimitExceeded "rate_limited_function")) ∧
  executeFunction "rate_limited_function" Scenarios.testUser
    (elapse 59999
       (executeFunction "rate_limited_function" Scenarios.testUser
          Scenarios.limitedRegistry).1.1)
  = (elapse 59999
       (executeFunction "rate_limited_function" Scenarios.testUser
          Scenarios.limitedRegistry).1.1,
     Scenarios.testUser, Thrown (RateLimitExceeded "rate_limited_function")) ∧
  (checkRateLimit Scenarios.rate_limited_function
     (Scenarios.caller (Some "someone-else"))
     (elapse 59999
        (executeFunction "rate_limited_function" Scenarios.testUser
           Scenarios.limitedRegistry).1.1)).1 = true.
Proof.
  pose proof (one_request_per_window "rate_limited_function" Scenarios.testUser
                Scenarios.testUser (Scenarios.caller (Some "someone-else"))
                Scenarios.limitedRegistry Scenarios.rate_limited_function
                {| lim_requests := ∅; lim_limit := 1; lim_window := 60000 |} 59999)
    as H.
  destruct H as (H1 & H2 & _ & H4 & _).
  - vm_compute. reflexivity.
  - vm_compute. reflexivity.
  - reflexivity.
  - simpl. lia.
  - intros t Ht. vm_compute in Ht. by apply elem_of_nil in Ht.
  - reflexivity.
  - lia.
  - split; [exact H1|]. split.
    + apply H2. vm_compute. reflexivity.
    + apply H4.
      * vm_compute. discriminate.
      * intros t Ht. vm_compute in Ht. by apply elem_of_nil in Ht.
Defined.

End LimiterFacts.

(** ** The provider manager: circuit breaker, forced provider, tagging *)

Module BreakerFacts.
Import Types Config Providers ProviderFacts.

Lemma frame_updateCircuitBreaker p ok m :
  config (updateCircuitBreaker p ok m) = config m ∧
  providers (updateCircuitBreaker p ok m) = providers m ∧
  adapterCalls (updateCircuitBreaker p ok m) = adapterCalls m ∧
  clock (updateCircuitBreaker p ok m) = clock m.
Proof. unfold updateCircuitBreaker. by repeat case_match. Qed.

Lemma frame_callProvider adapters p request m :
  config (callProvider adapters p request m).1 = config m ∧
  providers (callProvider adapters p request m).1 = providers m ∧
  clock m ≤ clock (callProvider adapters p request m).1.
Proof.
  unfold callProvider. repeat case_match; simpl; repeat split; try done; lia.
Qed.

Lemma providersGet_ext p m1 m :
  providers m1 = providers m → providersGet p m1 = providersGet p m.
Proof. unfold providersGet. by intros ->. Qed.

(** *** The circuit breaker switched off *)

Lemma callProvider_disabled adapters p request m :
  enableCircuitBreaker (config m) = false →
  breakers (callProvider adapters p request m).1 = breakers m ∧
  adapterCalls (callProvider adapters p request m).1
  = adapterCalls m ++ match providersGet p m with Some _ => [p] | None => [] end.
Proof.
  intros Hoff. unfold callProvider.
  change (providersGet p (noteAttempt p m)) with (providersGet p m).
  destruct (providersGet p m); simpl; [|by rewrite app_nil_r].
  rewrite Hoff. simpl. by destruct (adapters _ _ _).
Qed.

Lemma tryFallbacks_disabled adapters provider request start chain m :
  enableCircuitBreaker (config m) = false →
  attempts (tryFallbacks adapters provider request start chain m).1
  = attempts m
    ++ drop (length (attempts m))
         (attempts (tryFallbacks adapters provider request start chain m).1) ∧
  adapterCalls (tryFallbacks adapters provider request start chain m).1
  = adapterCalls m
    ++ List.filter (λ p, bool_decide (is_Some (providersGet p m)))
         (drop (length (attempts m))
            (attempts (tryFallbacks adapters provider request start chain m).1)) ∧
  breakers (tryFallbacks adapters provider request start chain m).1 = breakers m.
Proof.
  revert m. induction chain as [|q chain IH]; intros m Hoff; simpl.
  { rewrite drop_all. simpl. by rewrite !app_nil_r. }
  pose proof (frame_callProvider adapters q request m) as (Hc & Hp & _).
  pose proof (attempts_callProvider adapters q request m) as Ha.
  pose proof (callProvider_disabled adapters q request m Hoff) as (Hb & Hcalls).
  assert (∀ m1 : ProviderManager,
            config m1 = config m → providers m1 = providers m →
            attempts m1 = attempts m ++ [q] →
            breakers m1 = breakers m →
            adapterCalls m1
            = adapterCalls m ++ match providersGet q m with Some _ => [q] | None => [] end →
            ∀ run : ProviderManager,
              (attempts run = attempts m1 ++ drop (length (attempts m1)) (attempts run) ∧
               adapterCalls run
               = adapterCalls m1
                 ++ List.filter (λ p, bool_decide (is_Some (providersGet p m1)))
                      (drop (length (attempts m1)) (attempts run)) ∧
               breakers run = breakers m1) →
              attempts run = attempts m ++ drop (length (attempts m)) (attempts run) ∧
              adapterCalls run
              = adapterCalls m
                ++ List.filter (λ p, bool_decide (is_Some (providersGet p m)))
                     (drop (length (attempts m)) (attempts run)) ∧
              breakers run = breakers m) as Hstep.
  { intros m1 Hc1 Hp1 Ha1 Hb1 Hcalls1 run (Hr1 & Hr2 & Hr3).
    assert (drop (length (attempts m)) (attempts run)
            = q :: drop (length (attempts m1)) (attempts run)) as Hdrop.
    { rewrite Hr1 at 1. rewrite Ha1, <- app_assoc, drop_app_length. done. }
    split; [by rewrite Hdrop, Hr1 at 1; rewrite Ha1, <- app_assoc|].
    split; [|by rewrite Hr3].
    rewrite Hr2, Hcalls1, Hdrop, <- app_assoc. f_equal. simpl.
    rewrite (List.filter_ext _ (λ p, bool_decide (is_Some (providersGet p m)))).
    2:{ intros a. by rewrite (providersGet_ext a m1 m Hp1). }
    destruct (providersGet q m) as [x|]; [|done].
    by rewrite bool_decide_eq_true_2. }
  destruct (callProvider adapters q request m) as [m1 [response|e]];
    simpl in Hc, Hp, Ha, Hb, Hcalls; rewrite Hc, Hoff.
  - simpl. apply (Hstep m1); try done. rewrite drop_all. simpl.
    by rewrite !app_nil_r.
  - apply (Hstep m1); try done. apply IH. by rewrite Hc.
Qed.

(** X13. With the circuit breaker switched off in the configuration a router
    call never reads or writes the circuit-breaker store: the store is as
    before, and the adapter of every registered provider that was attempted
    was invoked. *)
Theorem disabled_breaker_is_never_written adapters request options m :
  enableCircuitBreaker (config m) = false →
  attempts (call adapters request options m).1
  = attempts m
    ++ drop (length (attempts m)) (attempts (call adapters request options m).1) ∧
  adapterCalls (call adapters request options m).1
  = adapterCalls m
    ++ List.filter (λ p, bool_decide (is_Some (providersGet p m)))
         (drop (length (attempts m)) (attempts (call adapters request options m).1)) ∧
  breakers (call adapters request options m).1 = breakers m.
Proof.
  intros Hoff.
  pose proof (tryFallbacks_disabled adapters "" request 0 [] m Hoff) as Hnone.
  unfold call.
  destruct (selectProvider (rq_model request) options m) as [[[provider model] chain]|e];
    [|exact Hnone].
  pose proof (tryFallbacks_disabled adapters provider request (clock m) (provider :: chain)
                m Hoff) as Hall.
  simpl in Hall.
  pose proof (frame_callProvider adapters provider request m) as (Hc & _ & _).
  pose proof (attempts_callProvider adapters provider request m) as Ha.
  pose proof (callProvider_disabled adapters provider request m Hoff) as (Hb & Hcalls).
  destruct (callProvider adapters provider request m) as [m1 [response|e]];
    simpl in Hc, Ha, Hb, Hcalls, Hall; rewrite Hc, Hoff in *.
  - simpl in *. exact Hall.
  - destruct (tryFallbacks adapters provider request (clock m) chain m1)
      as [m2 [response|]]; exact Hall.
Qed.

Lemma disabled_breaker_is_never_written_witness :
  attempts (call RouterScenarios.failing (RouterScenarios.ask "llama-3.1-70b-instruct")
              (RouterScenarios.onPlan "free")
              (BreakerScenarios.withoutBreaker BreakerScenarios.tripped)).1
  = attempts (BreakerScenarios.withoutBreaker BreakerScenarios.tripped)
    ++ drop (length (attempts (BreakerScenarios.withoutBreaker BreakerScenarios.tripped)))
         (attempts (call RouterScenarios.failing
                      (RouterScenarios.ask "llama-3.1-70b-instruct")
                      (RouterScenarios.onPlan "free")
                      (BreakerScenarios.withoutBreaker BreakerScenarios.tripped)).1) ∧
  adapterCalls (call RouterScenarios.failing
                  (RouterScenarios.ask "llama-3.1-70b-instruct")
                  (RouterScenarios.onPlan "free")
                  (BreakerScenarios.withoutBreaker BreakerScenarios.tripped)).1
  = adapterCalls (BreakerScenarios.withoutBreaker BreakerScenarios.tripped)
    ++ List.filter
         (λ p, bool_decide
                 (is_Some (providersGet p
                             (BreakerScenarios.withoutBreaker BreakerScenarios.tripped))))
         (drop (length (attempts (BreakerScenarios.withoutBreaker BreakerScenarios.tripped)))
            (attempts (call RouterScenarios.failing
                         (RouterScenarios.ask "llama-3.1-70b-instruct")
                         (RouterScenarios.onPlan "free")
                         (BreakerScenarios.withoutBreaker BreakerScenarios.tripped)).1)) ∧
  breakers (call RouterScenarios.failing (RouterScenarios.ask "llama-3.1-70b-instruct")
              (RouterScenarios.onPlan "free")
              (BreakerScenarios.withoutBreaker BreakerScenarios.tripped)).1
  = breakers (BreakerScenarios.withoutBreaker BreakerScenarios.tripped).
Proof.
  apply (disabled_breaker_is_never_written RouterScenarios.failing
           (RouterScenarios.ask "llama-3.1-70b-instruct") (RouterScenarios.onPlan "free")
           (BreakerScenarios.withoutBreaker BreakerScenarios.tripped)).
  reflexivity.
Defined.

(** *** Reading back what was written *)

Lemma truthyTime_nonzero t : t ≠ 0 → truthyTime (Some t) = Some t.
Proof. by destruct t. Qed.

Lemma getCircuitBreakerState_written key s m ms :
  Z.max 0 ms < 24 * 60 * 60 * 1000 →
  getCircuitBreakerState key (elapse ms (updateCircuitBreakerState key s m))
  = {| status := status s; failureCount := failureCount s;
       lastFailureTime :=
         match truthyTime (lastFailureTime s) with
         | Some t => Some t
         | None => lastFailureTime (getCircuitBreakerState key m)
         end;
       nextAttemptTime :=
         match truthyTime (nextAttemptTime s) with
         | Some t => Some t
         | None => nextAttemptTime (getCircuitBreakerState key m)
         end |}.
Proof.
  intros Hms. unfold getCircuitBreakerState at 1, liveHash, updateCircuitBreakerState.
  simpl. rewrite lookup_insert_eq. simpl.
  destruct (Z.ltb_spec (clock m + Z.max 0 ms) (clock m + 24 * 60 * 60 * 1000)); [done|lia].
Qed.

Lemma expired_state key s m ms :
  24 * 60 * 60 * 1000 ≤ Z.max 0 ms →
  getCircuitBreakerState key (elapse ms (updateCircuitBreakerState key s m)) = closedState.
Proof.
  intros Hms. unfold getCircuitBreakerState, liveHash, updateCircuitBreakerState.
  simpl. rewrite lookup_insert_eq. simpl.
  destruct (Z.ltb_spec (clock m + Z.max 0 ms) (clock m + 24 * 60 * 60 * 1000)); [lia|done].
Qed.

Lemma updateCircuitBreaker_opens p m :
  enableCircuitBreaker (config m) = true →
  threshold ≤ failureCount (getCircuitBreakerState p m) + 1 →
  updateCircuitBreaker p false m
  = updateCircuitBreakerState p
      {| status := Open; failureCount := failureCount (getCircuitBreakerState p m) + 1;
         lastFailureTime := Some (clock m);
         nextAttemptTime := Some (clock m + timeout) |} m.
Proof.
  intros Hon Hth. unfold updateCircuitBreaker. rewrite Hon. simpl.
  destruct (Z.leb_spec threshold (failureCount (getCircuitBreakerState p m) + 1));
    [done|lia].
Qed.

Lemma opened_state p m ms :
  enableCircuitBreaker (config m) = true →
  threshold ≤ failureCount (getCircuitBreakerState p m) + 1 →
  0 < clock m → Z.max 0 ms < 24 * 60 * 60 * 1000 →
  getCircuitBreakerState p (elapse ms (updateCircuitBreaker p false m))
  = {| status := Open; failureCount := failureCount (getCircuitBreakerState p m) + 1;
       lastFailureTime := Some (clock m);
       nextAttemptTime := Some (clock m + timeout) |}.
Proof.
  intros Hon Hth Hclock Hms. rewrite (updateCircuitBreaker_opens p m Hon Hth).
  rewrite (getCircuitBreakerState_written _ _ _ _ Hms). simpl status.
  simpl failureCount. simpl lastFailureTime. simpl nextAttemptTime.
  rewrite !truthyTime_nonzero; [done|unfold timeout; lia|lia].
Qed.

Lemma callProvider_blocked adapters p request m next :
  is_Some (providersGet p m) →
  enableCircuitBreaker (config m) = true →
  status (getCircuitBreakerState p m) = Open →
  nextAttemptTime (getCircuitBreakerState p m) = Some next →
  next ≠ 0 → clock m < next →
  callProvider adapters p request m = (noteAttempt p m, inr (CircuitOpen p)).
Proof.
  intros [x Hx] Hon Hopen Hnext Hnz Hlt. unfold callProvider.
  change (providersGet p (noteAttempt p m)) with (providersGet p m).
  change (getCircuitBreakerState p (noteAttempt p m)) with (getCircuitBreakerState p m).
  rewrite Hx. simpl. rewrite Hon, Hopen, Hnext, (truthyTime_nonzero _ Hnz). simpl.
  destruct (Z.ltb_spec (clock m) next); [done|lia].
Qed.

(** With the store answering: a failure that takes the count to the
    threshold opens the circuit for 60 seconds, and the first call after them
    is a probe that marks the circuit half-open. *)
Lemma cooldown_with_store adapters request p m ms :
  enableCircuitBreaker (config m) = true →
  is_Some (providersGet p m) →
  0 < clock m →
  threshold ≤ failureCount (getCircuitBreakerState p m) + 1 →
  0 ≤ ms →
  (ms < timeout →
   callProvider adapters p request (elapse ms (updateCircuitBreaker p false m))
   = (noteAttempt p (elapse ms (updateCircuitBreaker p false m)), inr (CircuitOpen p))) ∧
  (timeout ≤ ms →
   adapterCalls (callProvider adapters p request
                   (elapse ms (updateCircuitBreaker p false m))).1
   = adapterCalls m ++ [p]) ∧
  (timeout ≤ ms < 24 * 60 * 60 * 1000 →
   (λ h, status (h_state h))
     <$> breakers (callProvider adapters p request
                     (elapse ms (updateCircuitBreaker p false m))).1 !! p
   = Some HalfOpen).
Proof.
  intros Hon Hreg Hclock Hth Hms.
  pose proof (frame_updateCircuitBreaker p false m) as (Hc & Hp & Hcalls & Hclk).
  assert (enableCircuitBreaker (config (elapse ms (updateCircuitBreaker p false m))) = true)
    as Hon'.
  { simpl. by rewrite Hc. }
  assert (is_Some (providersGet p (elapse ms (updateCircuitBreaker p false m)))) as Hreg'.
  { by rewrite (providersGet_ext p (elapse ms (updateCircuitBreaker p false m)) m Hp). }
  assert (clock (elapse ms (updateCircuitBreaker p false m)) = clock m + ms) as Hnow.
  { simpl. rewrite Hclk. lia. }
  split; [|split].
  - intros Hlt.
    pose proof (opened_state p m ms Hon Hth Hclock ltac:(unfold timeout in Hlt; lia))
      as Hstate.
    apply (callProvider_blocked _ _ _ _ (clock m + timeout)); try done.
    + by rewrite Hstate.
    + by rewrite Hstate.
    + unfold timeout. lia.
    + rewrite Hnow. lia.
  - intros Hge. unfold callProvider.
    change (providersGet p (noteAttempt p ?x)) with (providersGet p x).
    destruct Hreg' as [x ->].
    change (getCircuitBreakerState p (noteAttempt p ?x))
      with (getCircuitBreakerState p x).
    change (config (noteAttempt p ?x)) with (config x).
    change (clock (noteAttempt p ?x)) with (clock x).
    rewrite Hon', Hnow.
    destruct (Z.lt_ge_cases (Z.max 0 ms) (24 * 60 * 60 * 1000)) as [Hlive|Hdead].
    + rewrite (opened_state p m ms Hon Hth Hclock Hlive).
      cbn [status nextAttemptTime isOpen andb].
      rewrite truthyTime_nonzero; [|unfold timeout; lia].
      destruct (Z.ltb_spec (clock m + ms) (clock m + timeout)); [lia|].
      simpl. destruct (adapters _ _ _); simpl; by rewrite Hcalls.
    + assert (getCircuitBreakerState p (elapse ms (updateCircuitBreaker p false m))
              = closedState) as ->.
      { rewrite (updateCircuitBreaker_opens p m Hon Hth). by apply expired_state. }
      cbn [status closedState isOpen andb].
      destruct (adapters _ _ _); simpl; by rewrite Hcalls.
  - intros [Hge Hlive]. unfold callProvider.
    change (providersGet p (noteAttempt p ?x)) with (providersGet p x).
    destruct Hreg' as [x ->].
    change (getCircuitBreakerState p (noteAttempt p ?x))
      with (getCircuitBreakerState p x).
    change (config (noteAttempt p ?x)) with (config x).
    change (clock (noteAttempt p ?x)) with (clock x).
    rewrite Hon', Hnow.
    rewrite (opened_state p m ms Hon Hth Hclock ltac:(lia)).
    cbn [status nextAttemptTime isOpen andb].
    rewrite truthyTime_nonzero; [|unfold timeout; lia].
    destruct (Z.ltb_spec (clock m + ms) (clock m + timeout)); [lia|].
    simpl. destruct (adapters _ _ _); simpl; by rewrite lookup_insert_eq.
Qed.

(** With the store answering: a fallback provider refused because its
    circuit is open is counted as failed once more. *)
Lemma refusal_with_store adapters primary request start p rest m next :
  enableCircuitBreaker (config m) = true →
  is_Some (providersGet p m) →
  status (getCircuitBreakerState p m) = Open →
  nextAttemptTime (getCircuitBreakerState p m) = Some next →
  next ≠ 0 → clock m < next → 0 < clock m →
  threshold ≤ failureCount (getCircuitBreakerState p m) + 1 →
  tryFallbacks adapters primary request start (p :: rest) m
  = tryFallbacks adapters primary request start rest
      (updateCircuitBreaker p false (noteAttempt p m)) ∧
  adapterCalls (updateCircuitBreaker p false (noteAttempt p m)) = adapterCalls m ∧
  getCircuitBreakerState p (updateCircuitBreaker p false (noteAttempt p m))
  = {| status := Open; failureCount := failureCount (getCircuitBreakerState p m) + 1;
       lastFailureTime := Some (clock m);
       nextAttemptTime := Some (clock m + timeout) |}.
Proof.
  intros Hon Hreg Hopen Hnext Hnz Hlt Hclock Hth.
  split; [|split].
  - simpl. rewrite (callProvider_blocked _ _ _ _ _ Hreg Hon Hopen Hnext Hnz Hlt).
    simpl. by rewrite Hon.
  - by destruct (frame_updateCircuitBreaker p false (noteAttempt p m)) as (_ & _ & -> & _).
  - pose proof (opened_state p (noteAttempt p m) 0 Hon Hth Hclock ltac:(lia)) as Hstate.
    unfold getCircuitBreakerState, liveHash in *. simpl in *.
    by rewrite Z.add_0_r in Hstate.
Qed.

(** *** Forced provider, tagging, providers without an adapter *)

Lemma clock_afterCall p ok m :
  clock (if enableCircuitBreaker (config m) then updateCircuitBreaker p ok m else m)
  = clock m.
Proof.
  case_match; [|done].
  by destruct (frame_updateCircuitBreaker p ok m) as (_ & _ & _ & ->).
Qed.

Lemma tryFallbacks_time adapters provider request start chain m :
  clock m ≤ clock (tryFallbacks adapters provider request start chain m).1 ∧
  ∀ response,
    (tryFallbacks adapters provider request start chain m).2 = Some response →
    processingTime (rs_metadata response)
    = clock (tryFallbacks adapters provider request start chain m).1 - start.
Proof.
  revert m. induction chain as [|q chain IH]; intros m; simpl; [done|].
  pose proof (frame_callProvider adapters q request m) as (_ & _ & Hclock).
  destruct (callProvider adapters q request m) as [m1 [response|e]]; simpl in Hclock.
  - simpl. rewrite clock_afterCall. split; [done|]. by intros ? [= <-].
  - destruct (IH (if enableCircuitBreaker (config m1)
                  then updateCircuitBreaker q false m1 else m1)) as [Hle Htime].
    rewrite clock_afterCall in Hle. split; [lia|done].
Qed.

(** X16. A response of the router is tagged with how it came about:
    [processingTime] is the time that passed during the call and is never
    negative, [providerUsed] is the provider attempted last, and
    [fallbackUsed] is false exactly when that provider was the only one
    attempted. *)
Theorem response_is_tagged adapters request options m m' response :
  call adapters request options m = (m', inl response) →
  processingTime (rs_metadata response) = clock m' - clock m ∧
  0 ≤ processingTime (rs_metadata response) ∧
  ∃ q, providerUsed (rs_metadata response) = Some q ∧
       last (attempts m') = Some q ∧
       (fallbackUsed (rs_metadata response) = false ↔ attempts m' = attempts m ++ [q]).
Proof.
  unfold call.
  destruct (selectProvider (rq_model request) options m) as [[[provider model] chain]|e];
    [|done].
  pose proof (frame_callProvider adapters provider request m) as (_ & _ & Hclock).
  pose proof (attempts_callProvider adapters provider request m) as Ha.
  destruct (callProvider adapters provider request m) as [m1 [answer|e]];
    simpl in Hclock, Ha.
  - intros [= <- <-]. simpl. rewrite clock_afterCall, attempts_afterCall, Ha.
    split; [done|]. split; [lia|]. exists provider. by rewrite last_snoc.
  - pose proof (tryFallbacks_time adapters provider request (clock m) chain m1)
      as [Hle Htime].
    pose proof (tryFallbacks_attempts adapters provider request (clock m) chain m1)
      as [_ Hsome].
    destruct (tryFallbacks adapters provider request (clock m) chain m1)
      as [m2 [answer|]]; [|done].
    intros [= <- <-]. simpl in Hle, Htime, Hsome.
    rewrite (Htime answer eq_refl). split; [done|]. split; [lia|].
    destruct (Hsome answer eq_refl) as (k & q & Hk & Hattempts & Hused & Hfallback).
    exists q. split; [done|]. rewrite Hattempts, Ha, Hfallback.
    split.
    + rewrite (take_S_r _ _ _ Hk), !app_assoc. apply last_snoc.
    + split; [done|]. intros Heq. apply (f_equal length) in Heq.
      rewrite !length_app, (take_S_r _ _ _ Hk), length_app in Heq. simpl in Heq. lia.
Qed.

Lemma response_is_tagged_witness :
  processingTime
    (rs_metadata
       (tagResponse AdapterScenarios.answer 10 false "openai" None))
  = clock (call BreakerScenarios.answering (RouterScenarios.ask "gpt-4")
             RouterScenarios.noOptions (newManager RouterScenarios.apiKey 1)).1
    - clock (newManager RouterScenarios.apiKey 1) ∧
  0 ≤ processingTime
        (rs_metadata (tagResponse AdapterScenarios.answer 10 false "openai" None)) ∧
  ∃ q, providerUsed
         (rs_metadata (tagResponse AdapterScenarios.answer 10 false "openai" None))
       = Some q ∧
       last (attempts (call BreakerScenarios.answering (RouterScenarios.ask "gpt-4")
                         RouterScenarios.noOptions
                         (newManager RouterScenarios.apiKey 1)).1) = Some q ∧
       (fallbackUsed
          (rs_metadata (tagResponse AdapterScenarios.answer 10 false "openai" None))
        = false
        ↔ attempts (call BreakerScenarios.answering (RouterScenarios.ask "gpt-4")
                      RouterScenarios.noOptions (newManager RouterScenarios.apiKey 1)).1
          = attempts (newManager RouterScenarios.apiKey 1) ++ [q]).
Proof.
  apply (response_is_tagged BreakerScenarios.answering (RouterScenarios.ask "gpt-4")
           RouterScenarios.noOptions (newManager RouterScenarios.apiKey 1)
           (call BreakerScenarios.answering (RouterScenarios.ask "gpt-4")
              RouterScenarios.noOptions (newManager RouterScenarios.apiKey 1)).1
           (tagResponse AdapterScenarios.answer 10 false "openai" None)).
  vm_compute. reflexivity.
Defined.

(** X17. A forced provider has no fallback and is not checked against the
    model.  For a known model and a forced provider, the plan's chain is
    ignored: an unregistered forced provider raises its error with no attempt
    made, a registered one is the only provider attempted, whether or not it
    serves the model, and its failure is reported as all providers having
    failed. *)
Theorem forced_provider_stands_alone adapters request options m f :
  is_Some (getModel (rq_model request)) →
  o_forceProvider options = Some f →
  f ≠ "" →
  (providersGet f m = None →
   call adapters request options m = (m, inr (ForcedProviderNotFound f))) ∧
  (is_Some (providersGet f m) →
   attempts (call adapters request options m).1 = attempts m ++ [f] ∧
   ∀ e, (call adapters request options m).2 = inr e →
        e = AllProvidersFailed (rq_model request)).
Proof.
  intros [info Hinfo] Hforce Hf. unfold call, selectProvider.
  rewrite Hinfo, Hforce.
  assert (truthy (Some f) = true) as ->.
  { unfold truthy. destruct f; [done|]. done. }
  simpl. split.
  - by intros ->.
  - intros [x ->].
    pose proof (attempts_callProvider adapters f request m) as Ha.
    destruct (callProvider adapters f request m) as [m1 [answer|e]]; simpl in Ha.
    + simpl. rewrite attempts_afterCall. done.
    + simpl. split; [done|]. by intros ? [= <-].
Qed.

Lemma forced_provider_stands_alone_witness :
  (providersGet "perplexity" (newManager RouterScenarios.apiKey 1) = None →
   call RouterScenarios.failing (RouterScenarios.ask "gpt-4")
     (BreakerScenarios.forceTo "perplexity") (newManager RouterScenarios.apiKey 1)
   = (newManager RouterScenarios.apiKey 1, inr (ForcedProviderNotFound "perplexity"))) ∧
  (is_Some (providersGet "perplexity" (newManager RouterScenarios.apiKey 1)) →
   attempts (call RouterScenarios.failing (RouterScenarios.ask "gpt-4")
               (BreakerScenarios.forceTo "perplexity")
               (newManager RouterScenarios.apiKey 1)).1
   = attempts (newManager RouterScenarios.apiKey 1) ++ ["perplexity"] ∧
   ∀ e, (call RouterScenarios.failing (RouterScenarios.ask "gpt-4")
           (BreakerScenarios.forceTo "perplexity")
           (newManager RouterScenarios.apiKey 1)).2 = inr e →
        e = AllProvidersFailed (rq_model (RouterScenarios.ask "gpt-4"))).
Proof.
  apply (forced_provider_stands_alone RouterScenarios.failing (RouterScenarios.ask "gpt-4")
           (BreakerScenarios.forceTo "perplexity") (newManager RouterScenarios.apiKey 1)
           "perplexity").
  - vm_compute. eexists. reflexivity.
  - reflexivity.
  - discriminate.
Defined.

Lemma getModel_cases id info :
  getModel id = Some info →
  (id, m_provider info)
  ∈ [ ("gpt-4", "openai"); ("gpt-4-turbo", "openai"); ("gpt-3.5-turbo", "openai");
      ("claude-3-opus", "anthropic"); ("claude-3-sonnet", "anthropic");
      ("claude-3-haiku", "anthropic");
      ("llama-3.1-70b-instruct", "perplexity");
      ("llama-3.1-8b-instruct", "perplexity");
      ("gpt-4-openrouter", "openrouter") ].
Proof.
  unfold getModel. destruct (models !! id) as [x|] eqn:Hx; [|done].
  destruct (m_enabled x); [|done]. intros [= <-].
  unfold models in Hx. apply elem_of_list_to_map_2 in Hx. simpl in Hx.
  repeat (apply elem_of_cons in Hx as [[= -> ->]|Hx];
          [simpl; repeat first [by apply list_elem_of_here|apply list_elem_of_further]|]).
  by apply elem_of_nil in Hx.
Qed.

(** No registered adapter lists a model of another provider. *)
Lemma findProviderForModel_foreign apiKey id m info :
  providers m = initializeProviders apiKey →
  getModel id = Some info →
  m_provider info ≠ "openai" →
  m_provider info ≠ "perplexity" →
  findProviderForModel id m = None.
Proof.
  intros Hp Hinfo Hopenai Hperplexity.
  unfold findProviderForModel. rewrite Hp.
  apply getModel_cases in Hinfo.
  repeat (apply elem_of_cons in Hinfo as [[= Hid Hprov]|Hinfo];
          [first [by rewrite Hprov in Hopenai
                 |by rewrite Hprov in Hperplexity
                 |rewrite Hid; vm_compute; reflexivity]|]).
  by apply elem_of_nil in Hinfo.
Qed.

(** X18. Models without an adapter.  The manager registers adapters for
    OpenAI and Perplexity only, and finds the primary provider through the
    model lists of the registered adapters.  So a model of the catalogue that
    belongs to another provider (Anthropic, OpenRouter) is refused with "no
    provider found" before any provider is attempted, whatever the plan. *)
Theorem models_without_adapter apiKey adapters request options m info :
  providers m = initializeProviders apiKey →
  getModel (rq_model request) = Some info →
  m_provider info ≠ "openai" →
  m_provider info ≠ "perplexity" →
  truthy (o_forceProvider options) = false →
  call adapters request options m = (m, inr (NoProviderForModel (rq_model request))).
Proof.
  intros Hp Hinfo Hopenai Hperplexity Hforce. unfold call, selectProvider.
  rewrite Hinfo, Hforce.
  by rewrite (findProviderForModel_foreign apiKey _ m info Hp Hinfo Hopenai Hperplexity).
Qed.

Lemma models_without_adapter_witness :
  call RouterScenarios.failing (RouterScenarios.ask "claude-3-haiku")
    (RouterScenarios.onPlan "free") (newManager RouterScenarios.apiKey 1)
  = (newManager RouterScenarios.apiKey 1,
     inr (NoProviderForModel (rq_model (RouterScenarios.ask "claude-3-haiku")))).
Proof.
  apply (models_without_adapter RouterScenarios.apiKey RouterScenarios.failing
           (RouterScenarios.ask "claude-3-haiku") (RouterScenarios.onPlan "free")
           (newManager RouterScenarios.apiKey 1)
           {| m_id := "claude-3-haiku"; m_provider := "anthropic"; m_enabled := true |}).
  - reflexivity.
  - vm_compute. reflexivity.
  - discriminate.
  - discriminate.
  - reflexivity.
Defined.

End BreakerFacts.

(** ** The adapter call as a whole *)

Module AdapterCallFacts.
Import Types Config Adapter.

Section Loop.
Context {T : Type}.
Variable operation : nat → T + Failure.
Variable jitter : nat → Z.
Variables maxRetries baseDelay : Z.

(** What the loop has done when it ends, whatever the operation does. *)
Lemma retryLoop_run n a lastError waited :
  Z.of_nat a + Z.of_nat n = maxRetries + 1 → (0 < n)%nat →
  ∃ k, (a ≤ k)%nat ∧ Z.of_nat k ≤ maxRetries ∧
       invocations (retryLoop operation jitter maxRetries baseDelay n a lastError waited)
       = S k ∧
       delays (retryLoop operation jitter maxRetries baseDelay n a lastError waited)
       = waited ++ (backoff jitter baseDelay <$> seq a (k - a)) ∧
       (∀ j, (a ≤ j < k)%nat → ∃ e, operation j = inr e) ∧
       match outcome (retryLoop operation jitter maxRetries baseDelay n a lastError waited)
       with
       | inl v => operation k = inl v
       | inr (Some e) => operation k = inr e ∧ Z.of_nat k = maxRetries
       | inr None => False
       end.
Proof.
  revert a lastError waited.
  induction n as [|n IH]; intros a lastError waited Hn Hpos; [lia|].
  simpl. replace (Z.of_nat a <=? maxRetries) with true
    by (symmetry; apply Z.leb_le; lia).
  destruct (operation a) as [v|e] eqn:Ha.
  { exists a. simpl. rewrite Nat.sub_diag, Ha. simpl. rewrite app_nil_r.
    repeat split; try done; lia. }
  destruct (Z.of_nat a =? maxRetries) eqn:Hlast.
  { apply Z.eqb_eq in Hlast. exists a. simpl. rewrite Nat.sub_diag, Ha. simpl.
    rewrite app_nil_r. repeat split; try done; lia. }
  apply Z.eqb_neq in Hlast.
  destruct (IH (S a) (Some e) (waited ++ [baseDelay * 2 ^ Z.of_nat a + jitter a]))
    as (k & Hk & Hmax & Hinv & Hdelays & Hfailed & Hout); [lia|lia|].
  exists k. split; [lia|]. split; [done|]. split; [done|].
  split; [|split; [|done]].
  - rewrite Hdelays, <- app_assoc. f_equal.
    replace (k - a)%nat with (S (k - S a)) by lia. done.
  - intros j Hj. destruct (decide (j = a)) as [->|Hne]; [by eexists|].
    apply Hfailed. lia.
Qed.
End Loop.

(** X19. A negative [retries] option is truthy, so it is not replaced by the
    default of 3: the loop of [withRetry] is not entered, the upstream is
    never contacted, and the adapter raises with no error of the upstream to
    report. *)
Theorem negative_retries_never_reach_upstream cfg client jitter request n :
  validateRequest cfg request = true →
  n < 0 →
  Adapter.call cfg client jitter request (Some n) = (inr (OperationFailed None), O, []).
Proof.
  intros Hvalid Hn. unfold Adapter.call, withRetry. rewrite Hvalid. simpl.
  destruct n as [|n|n]; [lia|lia|].
  replace (Z.to_nat (Z.neg n + 1)) with O by lia. done.
Qed.

Lemma negative_retries_never_reach_upstream_witness :
  Adapter.call AdapterScenarios.openai (λ _, AdapterScenarios.rejectsOnce)
    AdapterScenarios.noJitter (RouterScenarios.ask "gpt-4") (Some (-1))
  = (inr (OperationFailed None), O, []).
Proof.
  apply (negative_retries_never_reach_upstream AdapterScenarios.openai
           (λ _, AdapterScenarios.rejectsOnce) AdapterScenarios.noJitter
           (RouterScenarios.ask "gpt-4") (-1)).
  - vm_compute. reflexivity.
  - lia.
Defined.

(** X20. One adapter call, whatever the upstream does.  For a valid request
    and a non-negative [retries] option (absent and 0 both mean 3), the
    upstream is invoked at least once and at most [retries + 1] times; every
    invocation but the last failed and was followed by the wait of its
    attempt, so there is one wait less than there are invocations; a response
    is the one of the last invocation, and an error is raised only after
    [retries + 1] invocations. *)
Theorem adapter_call_attempts cfg client jitter request retries :
  validateRequest cfg request = true →
  0 ≤ default 0 retries →
  ∃ k,
    (Adapter.call cfg client jitter request retries).1.2 = S k ∧
    Z.of_nat k ≤ (if decide (default 0 retries = 0) then 3 else default 0 retries) ∧
    (Adapter.call cfg client jitter request retries).2
    = (backoff jitter 1000 <$> seq 0 k) ∧
    (∀ j, (j < k)%nat → ∃ e, client request j = inr e) ∧
    match (Adapter.call cfg client jitter request retries).1.1 with
    | inl response => client request k = inl response
    | inr (OperationFailed (Some e)) =>
        client request k = inr e ∧
        Z.of_nat k = (if decide (default 0 retries = 0) then 3 else default 0 retries)
    | inr _ => False
    end.
Proof.
  intros Hvalid Hretries. unfold Adapter.call. rewrite Hvalid. simpl.
  assert (match retries with Some 0 | None => 3 | Some n => n end
          = if decide (default 0 retries = 0) then 3 else default 0 retries) as ->.
  { destruct retries as [[| |]|]; done. }
  assert (0 ≤ if decide (default 0 retries = 0) then 3 else default 0 retries) as Hmax.
  { case_decide; lia. }
  revert Hmax. generalize (if decide (default 0 retries = 0) then 3 else default 0 retries).
  intros maxRetries Hmax. unfold withRetry.
  destruct (retryLoop_run (client request) jitter maxRetries 1000
              (Z.to_nat (maxRetries + 1)) 0 None [])
    as (k & _ & Hk & Hinv & Hdelays & Hfailed & Hout); [lia|lia|].
  exists k.
  destruct (outcome _) as [response|[e|]] eqn:Hrun; simpl; rewrite ?Hinv, ?Hdelays;
    simpl; rewrite ?Nat.sub_0_r; repeat split; try done; try lia;
    try (intros j Hj; apply Hfailed; lia); by destruct Hout.
Qed.

Lemma adapter_call_attempts_witness :
  ∃ k,
    (Adapter.call AdapterScenarios.openai (λ _, AdapterScenarios.rejectsOnce)
       AdapterScenarios.noJitter (RouterScenarios.ask "gpt-4") None).1.2 = S k ∧
    Z.of_nat k ≤ (if decide (default 0 None = 0) then 3 else default 0 None) ∧
    (Adapter.call AdapterScenarios.openai (λ _, AdapterScenarios.rejectsOnce)
       AdapterScenarios.noJitter (RouterScenarios.ask "gpt-4") None).2
    = (backoff AdapterScenarios.noJitter 1000 <$> seq 0 k) ∧
    (∀ j, (j < k)%nat →
          ∃ e, (λ _, AdapterScenarios.rejectsOnce) (RouterScenarios.ask "gpt-4") j
               = inr e) ∧
    match (Adapter.call AdapterScenarios.openai (λ _, AdapterScenarios.rejectsOnce)
             AdapterScenarios.noJitter (RouterScenarios.ask "gpt-4") None).1.1 with
    | inl response =>
        (λ _, AdapterScenarios.rejectsOnce) (RouterScenarios.ask "gpt-4") k = inl response
    | inr (OperationFailed (Some e)) =>
        (λ _, AdapterScenarios.rejectsOnce) (RouterScenarios.ask "gpt-4") k = inr e ∧
        Z.of_nat k = (if decide (default 0 None = 0) then 3 else default 0 None)
    | inr _ => False
    end.
Proof.
  apply (adapter_call_attempts AdapterScenarios.openai (λ _, AdapterScenarios.rejectsOnce)
           AdapterScenarios.noJitter (RouterScenarios.ask "gpt-4") None).
  - vm_compute. reflexivity.
  - simpl. lia.
Defined.

End AdapterCallFacts.

(** ** The pipeline engine: order of the stages *)

Module StageFacts.
Import Pipeline PipelineViews.

Lemma runSteps_quiet steps c t :
  (∀ step c0, step ∈ steps → List.filter isStageMark (emits (step c0)) = []) →
  List.filter isStageMark (notified (runSteps steps c t)) = [].
Proof.
  revert c t. induction steps as [|f steps IH]; intros c t Hquiet; [done|].
  simpl. pose proof (Hquiet f c ltac:(left)) as Hf.
  destruct (raised (f c)); simpl; [done|].
  rewrite List.filter_app, Hf. simpl. apply IH.
  intros step c0 Hin. apply Hquiet. by right.
Qed.

Lemma runStages_marks pipelines todo c t :
  quietSteps pipelines →
  match failure (runStages pipelines todo c t) with
  | None =>
      List.filter isStageMark (notified (runStages pipelines todo c t)) = brackets todo
  | Some _ =>
      ∃ done failing rest,
        todo = done ++ failing :: rest ∧
        List.filter isStageMark (notified (runStages pipelines todo c t))
        = brackets done ++ [StageStart failing]
  end.
Proof.
  intros Hquiet. revert c t. induction todo as [|s todo IH]; intros c t; [done|].
  simpl.
  assert (List.filter isStageMark
            (notified (runSteps (default [] (pipelines s)) (setStage s c) t)) = [])
    as Hsteps.
  { apply runSteps_quiet. intros step c0 Hin.
    destruct (pipelines s) as [steps|] eqn:Hs; [|by apply elem_of_nil in Hin].
    by apply (Hquiet s steps). }
  destruct (failure (runSteps _ _ _)) as [e|]; simpl.
  { exists [], s, todo. by rewrite Hsteps. }
  specialize (IH (recordStageTime s
                    (now (runSteps (default [] (pipelines s)) (setStage s c) t) - t)
                    (context (runSteps (default [] (pipelines s)) (setStage s c) t)))
                 (now (runSteps (default [] (pipelines s)) (setStage s c) t))).
  destruct (failure (runStages pipelines todo _ _)) as [e|].
  - destruct IH as (done & failing & rest & -> & Hmarks).
    exists (s :: done), failing, rest. split; [done|].
    rewrite List.filter_app, Hsteps. simpl. by rewrite Hmarks.
  - rewrite List.filter_app, Hsteps. simpl. by rewrite IH.
Qed.

(** X21. The engine runs the stages in their fixed order.  When no step
    emits a notification of the engine itself, the engine's notifications of
    a processed event are the start and the completion of each of the eight
    stages, in order, when the event is processed to the end; when a step
    raises, they are these pairs for the stages before the failing one, the
    start of the failing stage, and the error, which is also the last entry
    of [context.errors]. *)
Theorem stages_run_in_order pipelines e t :
  quietSteps pipelines →
  match result (processEvent pipelines e t) with
  | inl _ =>
      List.filter isStageMark (notifications (processEvent pipelines e t))
      = brackets stages
  | inr error =>
      ∃ done failing rest,
        stages = done ++ failing :: rest ∧
        List.filter isStageMark (notifications (processEvent pipelines e t))
        = brackets done ++ [StageStart failing; PipelineError error] ∧
        last (errors (finalContext (processEvent pipelines e t))) = Some error
  end.
Proof.
  intros Hquiet. unfold processEvent.
  pose proof (runStages_marks pipelines stages
                {| event := e; stage := INGEST; data := ∅; errors := []; warnings := [];
                   metrics := {| startTime := t; stageTimes := []; totalTime := 0 |} |}
                t Hquiet) as Hmarks.
  revert Hmarks. generalize stages. intros todo Hmarks.
  set (p := runStages pipelines todo _ t) in *. clearbody p.
  destruct (failure p) as [error|]; simpl.
  - destruct Hmarks as (done & failing & rest & Hstages & Hmarks).
    exists done, failing, rest. split; [done|]. split.
    + rewrite List.filter_app, Hmarks. simpl. by rewrite <- app_assoc.
    + apply last_snoc.
  - exact Hmarks.
Qed.

Lemma stages_run_in_order_witness :
  match result (processEvent PipelineScenarios.cacheDown PipelineScenarios.chatEvent 0) with
  | inl _ =>
      List.filter isStageMark
        (notifications (processEvent PipelineScenarios.cacheDown
                          PipelineScenarios.chatEvent 0))
      = brackets stages
  | inr error =>
      ∃ done failing rest,
        stages = done ++ failing :: rest ∧
        List.filter isStageMark
          (notifications (processEvent PipelineScenarios.cacheDown
                            PipelineScenarios.chatEvent 0))
        = brackets done ++ [StageStart failing; PipelineError error] ∧
        last (errors (finalContext (processEvent PipelineScenarios.cacheDown
                                      PipelineScenarios.chatEvent 0))) = Some error
  end.
Proof.
  apply (stages_run_in_order PipelineScenarios.cacheDown PipelineScenarios.chatEvent 0).
  intros s steps step c Hs Hin.
  destruct s; simpl in Hs; try discriminate Hs; injection Hs as <-;
    repeat (apply elem_of_cons in Hin as [->|Hin]; [reflexivity|]);
    by apply elem_of_nil in Hin.
Defined.

End StageFacts.

(** ** Personality scoring and model selection *)

Module SelectionFacts.
Import Types Config Router Scoring Selection.

(** X22. The personality an event is routed to.  Scoring raises only for a
    chat event whose user has no stored preferences.  Otherwise the top
    choice is: for every event that is not a chat event, [researcher], the
    first of the table, all scores being 0; for a chat event of a stressed
    user, [visheshagya]; for a chat event of a user who is not stressed and
    prefers structured learning, [shikshak], which ties with [mitra] and
    precedes it in the table; [mitra] in the remaining case. *)
Theorem top_choice_of_scoring context :
  match calculatePersonalityScore context with
  | inr _ => eventType context = "chat" ∧ userPreferences context = None
  | inl score =>
      topChoice score
      = (if String.eqb (eventType context) "chat" then
           if bool_decide (emotionalState context = Some "stressed") then "visheshagya"
           else if bool_decide (userPreferences context = Some (Some "structured"))
                then "shikshak" else "mitra"
         else "researcher") ∧
      fst <$> head (scores score) = Some (topChoice score) ∧
      length (scores score) = 4%nat
  end.
Proof.
  unfold calculatePersonalityScore.
  destruct (String.eqb (eventType context) "chat") eqn:Hchat; [|done].
  apply String.eqb_eq in Hchat.
  destruct (userPreferences context) as [learningMode|]; [|done].
  destruct (bool_decide (emotionalState context = Some "stressed")).
  - by destruct (bool_decide (learningMode = Some "structured")).
  - destruct (bool_decide_reflect (learningMode = Some "structured")) as [->|Hne].
    + done.
    + rewrite bool_decide_eq_false_2; [done|]. by intros [= ->].
Qed.

Lemma getModel_id id model : getModel id = Some model → m_id model = id.
Proof.
  unfold getModel. destruct (models !! id) as [x|] eqn:Hx; [|done].
  destruct (m_enabled x); [|done]. intros [= <-].
  unfold models in Hx. apply elem_of_list_to_map_2 in Hx. simpl in Hx.
  repeat (apply elem_of_cons in Hx as [[= -> ->]|Hx]; [done|]).
  by apply elem_of_nil in Hx.
Qed.

(** What holds of every personality of the table. *)
Lemma getPersonality_table id personality :
  getPersonality id = Some personality →
  ps_id personality = id ∧ ("chat" ∉ ps_allowedTasks personality) ∧
  (id, ps_defaultModel personality)
  ∈ [("researcher", "gpt-4-turbo"); ("visheshagya", "claude-3-sonnet");
     ("shikshak", "claude-3-haiku"); ("mitra", "gpt-3.5-turbo")].
Proof.
  unfold getPersonality. destruct (personalities !! id) as [x|] eqn:Hx; [|done].
  destruct (ps_enabled x); [|done]. intros [= <-].
  unfold personalities in Hx. apply elem_of_list_to_map_2 in Hx.
  repeat (apply elem_of_cons in Hx as [[= -> ->]|Hx];
          [simpl; split; [done|]; split;
           [intros Hin; apply (bool_decide_eq_true_2 _) in Hin; vm_compute in Hin;
            discriminate Hin
           |repeat first [by apply list_elem_of_here|apply list_elem_of_further]]|]).
  by apply elem_of_nil in Hx.
Qed.

Lemma getRecommendedModel_default getTask features sortModels task id personality planId :
  getPersonality id = Some personality →
  getRecommendedModel getTask features sortModels task (ps_id personality) planId = None ∨
  getRecommendedModel getTask features sortModels task (ps_id personality) planId
  = Some (ps_defaultModel personality).
Proof.
  intros Hp. destruct (getPersonality_table _ _ Hp) as (Hid & _ & _).
  unfold getRecommendedModel. rewrite Hid, Hp.
  destruct (getTask task) as [t|]; [|by left]. simpl.
  destruct (getModel (ps_defaultModel personality)) as [model|] eqn:Hmodel; [|by left].
  destruct (suits features t model); [|by left].
  right. by rewrite (getModel_id _ _ Hmodel).
Qed.

Lemma selectModel_spec getTask features sortModels task id personality plan forcedModel :
  getPersonality id = Some personality →
  selectModel getTask features sortModels task personality plan forcedModel
  = if truthy forcedModel && bool_decide (is_Some (getModel (default "" forcedModel)))
       && bool_decide (task ∈ ps_allowedTasks personality)
    then default "" forcedModel else ps_defaultModel personality.
Proof.
  intros Hp. unfold selectModel.
  assert ((if truthy (getRecommendedModel getTask features sortModels task
                        (ps_id personality) (p_id plan))
           then default "" (getRecommendedModel getTask features sortModels task
                              (ps_id personality) (p_id plan))
           else ps_defaultModel personality) = ps_defaultModel personality) as Hrec.
  { destruct (getRecommendedModel_default getTask features sortModels task id personality
                (p_id plan) Hp) as [-> | ->]; [done|].
    simpl. by destruct (ps_defaultModel personality). }
  destruct (truthy forcedModel) eqn:Hforced; cbn [andb]; [|exact Hrec].
  destruct (getModel (default "" forcedModel)) as [model|] eqn:Hmodel.
  - rewrite (bool_decide_eq_true_2 (is_Some (Some model))) by (by exists model).
    cbn [andb].
    destruct (bool_decide (task ∈ ps_allowedTasks personality)); [|exact Hrec].
    by destruct forcedModel.
  - rewrite (bool_decide_eq_false_2 (is_Some None)) by (by intros [x Hx]).
    exact Hrec.
Qed.

(** X23. Task and plan never influence the model.  For a personality of the
    table, whatever the tasks table and the capabilities of the models are,
    [selectModel] returns the model the client forces, when that is a model
    of the catalogue and the task is allowed for the personality, and
    otherwise the default model of the personality: the recommendation is
    that default model or nothing, since the list it would choose from is
    always empty. *)
Theorem selected_model getTask features sortModels task id personality plan forcedModel :
  getPersonality id = Some personality →
  selectModel getTask features sortModels task personality plan forcedModel
  = (if truthy forcedModel && bool_decide (is_Some (getModel (default "" forcedModel)))
        && bool_decide (task ∈ ps_allowedTasks personality)
     then default "" forcedModel else ps_defaultModel personality) ∧
  (getRecommendedModel getTask features sortModels task (ps_id personality) (p_id plan)
   = None ∨
   getRecommendedModel getTask features sortModels task (ps_id personality) (p_id plan)
   = Some (ps_defaultModel personality)).
Proof.
  intros Hp. split; [by apply (selectModel_spec _ _ _ _ id)|].
  by apply (getRecommendedModel_default _ _ _ _ id).
Qed.

Lemma selected_model_witness :
  selectModel SelectionScenarios.plainTask SelectionScenarios.noFeatures (λ l, l)
    "teaching" SelectionScenarios.shikshak SelectionScenarios.freePlan (Some "gpt-4")
  = (if truthy (Some "gpt-4") && bool_decide (is_Some (getModel (default "" (Some "gpt-4"))))
        && bool_decide ("teaching" ∈ ps_allowedTasks SelectionScenarios.shikshak)
     then default "" (Some "gpt-4") else ps_defaultModel SelectionScenarios.shikshak) ∧
  (getRecommendedModel SelectionScenarios.plainTask SelectionScenarios.noFeatures (λ l, l)
     "teaching" (ps_id SelectionScenarios.shikshak) (p_id SelectionScenarios.freePlan)
   = None ∨
   getRecommendedModel SelectionScenarios.plainTask SelectionScenarios.noFeatures (λ l, l)
     "teaching" (ps_id SelectionScenarios.shikshak) (p_id SelectionScenarios.freePlan)
   = Some (ps_defaultModel SelectionScenarios.shikshak)).
Proof.
  apply (selected_model SelectionScenarios.plainTask SelectionScenarios.noFeatures
           (λ l, l) "teaching" "shikshak" SelectionScenarios.shikshak
           SelectionScenarios.freePlan (Some "gpt-4")).
  vm_compute. reflexivity.
Defined.

(** X24. Two personalities cannot be served.  The default models of
    [visheshagya] and [shikshak] are Anthropic models, and the manager has no
    adapter for Anthropic: unless the client forces another model, the
    provider call for a message to one of them is refused with "no provider
    found" before any provider is attempted, whatever the task and the plan
    are. *)
Theorem personalities_without_provider apiKey adapters getTask features sortModels
    task id personality plan messages maxTokens options m :
  Providers.providers m = Providers.initializeProviders apiKey →
  getPersonality id = Some personality →
  id = "visheshagya" ∨ id = "shikshak" →
  truthy (Providers.o_forceProvider options) = false →
  Providers.call adapters
    {| rq_model := selectModel getTask features sortModels task personality plan None;
       rq_messages := messages; rq_maxTokens := maxTokens |} options m
  = (m, inr (Providers.NoProviderForModel (ps_defaultModel personality))).
Proof.
  intros Hm Hp Hid Hforce.
  rewrite (selectModel_spec _ _ _ _ id _ _ _ Hp). simpl.
  destruct (getPersonality_table _ _ Hp) as (_ & _ & Hdefault).
  assert (∃ info, getModel (ps_defaultModel personality) = Some info ∧
                  m_provider info = "anthropic") as (info & Hinfo & Hprovider).
  { repeat (apply elem_of_cons in Hdefault as [[= Hname ->]|Hdefault];
            [first [by destruct Hid as [Hid|Hid]; rewrite Hid in Hname
                   |by eexists]|]).
    by apply elem_of_nil in Hdefault. }
  unfold Providers.call, Providers.selectProvider. simpl rq_model.
  rewrite Hinfo, Hforce.
  rewrite (BreakerFacts.findProviderForModel_foreign apiKey _ m info Hm Hinfo);
    [done|by rewrite Hprovider|by rewrite Hprovider].
Qed.

Lemma personalities_without_provider_witness :
  Providers.call RouterScenarios.failing
    {| rq_model := selectModel SelectionScenarios.plainTask SelectionScenarios.noFeatures
                     (λ l, l) "teaching" SelectionScenarios.shikshak
                     SelectionScenarios.freePlan None;
       rq_messages := []; rq_maxTokens := 3500 |}
    (RouterScenarios.onPlan "free") (Providers.newManager RouterScenarios.apiKey 1)
  = (Providers.newManager RouterScenarios.apiKey 1,
     inr (Providers.NoProviderForModel (ps_defaultModel SelectionScenarios.shikshak))).
Proof.
  apply (personalities_without_provider RouterScenarios.apiKey RouterScenarios.failing
           SelectionScenarios.plainTask SelectionScenarios.noFeatures (λ l, l)
           "teaching" "shikshak" SelectionScenarios.shikshak SelectionScenarios.freePlan
           [] 3500 (RouterScenarios.onPlan "free")
           (Providers.newManager RouterScenarios.apiKey 1)).
  - reflexivity.
  - vm_compute. reflexivity.
  - by right.
  - reflexivity.
Defined.

(** *** The first steps of [routeMessage] *)

(** X25. A request that names no task is never answered: the task defaults
    to "chat", which no personality of the table allows.  With a known
    user, plan and personality the error is that the personality does not
    support the task "chat". *)
Theorem default_task_is_rejected request s :
  truthy (r_task request) = false →
  (∀ run, routeMessageContext request s ≠ inl run) ∧
  (∀ user, profiles s !! r_userId request = Some user →
           is_Some (getPlan (u_plan user)) →
           is_Some (getPersonality (r_personalityId request)) →
           routeMessageContext request s
           = inr (TaskNotSupported (r_personalityId request) "chat")).
Proof.
  intros Htask.
  assert (∀ user plan personality,
            profiles s !! r_userId request = Some user →
            getPlan (u_plan user) = Some plan →
            getPersonality (r_personalityId request) = Some personality →
            routeMessageContext request s
            = inr (TaskNotSupported (r_personalityId request) "chat")) as Hrejected.
  { intros user plan personality Hu Hplan Hp. unfold routeMessageContext.
    rewrite Hu, Hplan, Hp, Htask.
    destruct (getPersonality_table _ _ Hp) as (_ & Hchat & _).
    by rewrite bool_decide_eq_false_2. }
  split.
  - intros run Hrun. unfold routeMessageContext in Hrun.
    destruct (profiles s !! r_userId request) as [user|] eqn:Hu; [|done].
    destruct (getPlan (u_plan user)) as [plan|] eqn:Hplan; [|done].
    destruct (getPersonality (r_personalityId request)) as [personality|] eqn:Hp; [|done].
    rewrite Htask in Hrun.
    destruct (getPersonality_table _ _ Hp) as (_ & Hchat & _).
    by rewrite bool_decide_eq_false_2 in Hrun.
  - intros user Hu [plan Hplan] [personality Hp]. by eapply Hrejected.
Qed.

Lemma default_task_is_rejected_witness :
  (∀ run, routeMessageContext SelectionScenarios.taskless
            (ChatScenarios.storesWith 0) ≠ inl run) ∧
  (∀ user, profiles (ChatScenarios.storesWith 0)
             !! r_userId SelectionScenarios.taskless = Some user →
           is_Some (getPlan (u_plan user)) →
           is_Some (getPersonality (r_personalityId SelectionScenarios.taskless)) →
           routeMessageContext SelectionScenarios.taskless
             (ChatScenarios.storesWith 0)
           = inr (TaskNotSupported (r_personalityId SelectionScenarios.taskless) "chat")).
Proof.
  apply (default_task_is_rejected SelectionScenarios.taskless
           (ChatScenarios.storesWith 0)).
  reflexivity.
Defined.

(** The reset row that [checkUsageLimits] sends. *)
Lemma incrementUsage_reset userId s :
  upserts (incrementUsage userId
             {[ "dailyMessages" := Number 0; "lastResetDate" := Text (now s) ]} s)
  = upserts s ++ [ {[ "user_id" := Text userId; "dailyMessages" := Number 0;
                      "lastResetDate" := Text (now s);
                      "updated_at" := Text (now s) ]} ].
Proof.
  unfold incrementUsage, send. simpl. by f_equal.
Qed.

(** The ways through the body of the check. *)
Lemma checkUsage_cases usage userId plan s :
  (fallbackApplied (checkUsage usage userId plan s).1 = true ∧
   checkUsage usage userId plan s
   = ({| fallbackApplied := true;
         contextReduction := p_contextReductionFactor plan |}, s) ∧
   ∃ v, usage !! "lastResetDate" = Some v ∧ truthyValue v = true ∧
        dateString s v = today s ∧
        atLeast s (usage !! "dailyMessages") (p_dailyMessageLimit plan) = true) ∨
  ((checkUsage usage userId plan s).1
   = {| fallbackApplied := false; contextReduction := 1 |} ∧
   ¬ ∃ v, usage !! "lastResetDate" = Some v ∧ truthyValue v = true ∧
          dateString s v = today s ∧
          atLeast s (usage !! "dailyMessages") (p_dailyMessageLimit plan) = true).
Proof.
  unfold checkUsage.
  destruct (usage !! "lastResetDate") as [v|] eqn:Hv.
  2:{ right. split; [done|]. by intros (v & [=] & _). }
  destruct (truthyValue v) eqn:Htruthy.
  2:{ right. split; [done|]. intros (v' & [= <-] & Ht & _). congruence. }
  case_bool_decide as Hday; simpl.
  - injection Hday as Hday.
    destruct (atLeast s (usage !! "dailyMessages") (p_dailyMessageLimit plan)) eqn:Hcount.
    + left. split; [done|]. split; [done|]. by exists v.
    + right. split; [done|]. intros (v' & [= <-] & _ & _ & Hc). congruence.
  - right. split; [done|]. intros (v' & [= <-] & _ & Hd & _). apply Hday. by rewrite Hd.
Qed.

(** X26. The usage check on the rows of the table, and on an object as the
    check expects it.  A row of [user_usage] has the columns
    [last_reset_date] and [daily_messages]; the check reads the properties
    [lastResetDate] and [dailyMessages], which the row object does not have.
    So for every user and plan the check answers no fallback and a reduction
    of 1; it leaves what the stores hold as it is, and when the lookup finds
    the row of the user it sends one row to the table, with [user_id],
    [dailyMessages] 0, [lastResetDate] and [updated_at]; when the lookup
    fails it sends nothing.  On an object that does carry the properties, the
    body of the check reports the fallback exactly when [lastResetDate] is
    of today and [dailyMessages] has reached the daily limit of the plan,
    then with the reduction factor of the plan and without sending anything,
    and otherwise answers no fallback and a reduction of 1. *)
Theorem usage_check userId plan s :
  (checkUsageLimits userId plan s).1
  = {| fallbackApplied := false; contextReduction := 1 |} ∧
  (profiles (checkUsageLimits userId plan s).2 = profiles s ∧
   usage (checkUsageLimits userId plan s).2 = usage s) ∧
  upserts (checkUsageLimits userId plan s).2
  = upserts s ++
    match getUserUsage userId s with
    | Some _ => [ {[ "user_id" := Text userId; "dailyMessages" := Number 0;
                     "lastResetDate" := Text (now s);
                     "updated_at" := Text (now s) ]} ]
    | None => []
    end ∧
  (∀ row, object row !! "lastResetDate" = None ∧ object row !! "dailyMessages" = None ∧
          object row !! "last_reset_date" = Some (Text (uu_last_reset_date row)) ∧
          object row !! "daily_messages" = Some (Number (uu_daily_messages row))) ∧
  (∀ object,
     (fallbackApplied (checkUsage object userId plan s).1 = true ↔
      ∃ v, object !! "lastResetDate" = Some v ∧ truthyValue v = true ∧
           dateString s v = today s ∧
           atLeast s (object !! "dailyMessages") (p_dailyMessageLimit plan) = true) ∧
     (fallbackApplied (checkUsage object userId plan s).1 = true →
      checkUsage object userId plan s
      = ({| fallbackApplied := true;
            contextReduction := p_contextReductionFactor plan |}, s)) ∧
     (fallbackApplied (checkUsage object userId plan s).1 = false →
      contextReduction (checkUsage object userId plan s).1 = 1%Q)) ∧
  (∀ n limit, atLeast s (Some (Number n)) limit = true ↔ limit ≤ n) ∧
  (∀ limit, atLeast s None limit = false).
Proof.
  split; [by rewrite RouterFacts.checkUsageLimits_row|].
  split; [rewrite RouterFacts.checkUsageLimits_row; simpl;
          by destruct (getUserUsage userId s)|].
  split.
  { rewrite RouterFacts.checkUsageLimits_row. simpl.
    destruct (getUserUsage userId s); [apply incrementUsage_reset|by rewrite app_nil_r]. }
  split; [apply RouterFacts.object_properties|].
  split; [|split; [intros n limit; simpl; apply Z.leb_le|done]].
  intros object.
  destruct (checkUsage_cases object userId plan s)
    as [(Happlied & Hrun & Hwhy)|(Hrun & Hwhy)].
  - split; [done|]. split; [done|]. by rewrite Happlied.
  - rewrite Hrun. simpl. split; [|done]. split; [done|]. intros H. by destruct Hwhy.
Qed.

(** X27. The shape of the assembled context.  It opens with the system
    prompt of the personality and closes with the message of the request;
    between them stands the history, asked for with the context size of the
    plan.  The memory store is consulted only when the plan has memory and
    the user has not opted out, and memories that are found are put as one
    more system message right after the system prompt. *)
Theorem context_shape request personality plan user s :
  head (buildContext request personality plan user s).1
  = Some {| role := "system"; content := ps_systemPrompt personality |} ∧
  last (buildContext request personality plan user s).1
  = Some {| role := "user"; content := r_message request |} ∧
  (p_memoryEnabled plan && negb (u_memoryOptOut user) = false →
   (buildContext request personality plan user s).2 = []) ∧
  ((buildContext request personality plan user s).2 = [] →
   (buildContext request personality plan user s).1
   = {| role := "system"; content := ps_systemPrompt personality |}
     :: (if truthy (r_conversationId request)
         then getConversationHistory s (default "" (r_conversationId request))
                (p_contextSize plan)
         else [])
     ++ [{| role := "user"; content := r_message request |}]) ∧
  ((buildContext request personality plan user s).2 ≠ [] →
   ∃ memoryContext,
     role memoryContext = "system" ∧
     (buildContext request personality plan user s).1
     = {| role := "system"; content := ps_systemPrompt personality |}
       :: memoryContext
       :: (if truthy (r_conversationId request)
           then getConversationHistory s (default "" (r_conversationId request))
                  (p_contextSize plan)
           else [])
       ++ [{| role := "user"; content := r_message request |}]).
Proof.
  unfold buildContext.
  generalize (if truthy (r_conversationId request)
              then getConversationHistory s (default "" (r_conversationId request))
                     (p_contextSize plan)
              else []).
  intros history.
  assert (∀ (x y : ChatMessage) l, last (x :: l ++ [y]) = Some y) as Hlast.
  { intros x y l. rewrite app_comm_cons. apply last_snoc. }
  destruct (p_memoryEnabled plan && negb (u_memoryOptOut user)).
  - destruct (getRelevantMemories s (r_message request) (u_id user)) as [|memory memories].
    + split; [done|]. split; [apply Hlast|]. done.
    + split; [done|]. split; [apply (Hlast _ _ (_ :: history))|].
      split; [done|]. split; [done|]. intros _.
      eexists. split; [|reflexivity]. reflexivity.
  - split; [done|]. split; [apply Hlast|]. done.
Qed.

End SelectionFacts.

(** ** The category index *)

Module DiscoveryFacts.
Import Registry Management Discovery RegistryFacts ManagementFacts.

Lemma index_executeFunction name c r :
  categories (executeFunction name c r).1.1 = categories r ∧
  functions (executeFunction name c r).1.1 = functions r.
Proof.
  split; [|apply functions_executeFunction].
  apply (executeFunction_preserved (λ r0, categories r0 = categories r) (λ _, True));
    try done.
  intros d c0 r0 _ <-. unfold checkRateLimit.
  destruct (rateLimiters r0 !! fd_name d); [|done]. by case_match.
Qed.

Lemma indexExact_registerFunction d r r' :
  indexExact r → registerFunction d r = inl r' → indexExact r'.
Proof.
  intros [Hmember Hregistered] Hreg.
  destruct (functions_registerFunction d r r' Hreg) as (_ & Hfresh & Hfs).
  pose proof (categories_registerFunction d r r' Hreg) as Hcs.
  split.
  - intros category members name. rewrite Hcs, Hfs.
    destruct (decide (categoryName (fd_category d) = category)) as [<-|Hcat].
    + rewrite lookup_insert_eq. intros [= <-] [Hold| ->%elem_of_singleton]%elem_of_union.
      * destruct (categories r !! categoryName (fd_category d)) as [old|] eqn:Hlookup;
          [|by apply elem_of_empty in Hold].
        destruct (Hmember _ _ _ Hlookup Hold) as (d' & Hd' & Hcat').
        exists d'. split; [|done]. rewrite lookup_insert_ne; [done|].
        intros <-. by rewrite Hfresh in Hd'.
      * exists d. by rewrite lookup_insert_eq.
    + rewrite lookup_insert_ne by done. intros Hlookup Hin.
      destruct (Hmember _ _ _ Hlookup Hin) as (d' & Hd' & Hcat').
      exists d'. split; [|done]. rewrite lookup_insert_ne; [done|].
      intros <-. by rewrite Hfresh in Hd'.
  - intros name d'. rewrite Hcs, Hfs.
    destruct (decide (fd_name d = name)) as [<-|Hname].
    + rewrite lookup_insert_eq. intros [= <-]. rewrite lookup_insert_eq.
      eexists. split; [done|]. apply elem_of_union. right. by apply elem_of_singleton.
    + rewrite lookup_insert_ne by done. intros Hd'.
      destruct (Hregistered _ _ Hd') as (members & Hlookup & Hin).
      destruct (decide (categoryName (fd_category d) = categoryName (fd_category d')))
        as [Hcat|Hcat].
      * rewrite <- Hcat in *. rewrite lookup_insert_eq, Hlookup. simpl.
        eexists. split; [done|]. apply elem_of_union. by left.
      * rewrite lookup_insert_ne by done. by exists members.
Qed.

Lemma indexExact_unregisterFunction name r :
  indexExact r → indexExact (unregisterFunction name r).1.2.
Proof.
  intros [Hmember Hregistered]. unfold unregisterFunction.
  destruct (functions r !! name) as [functionDef|] eqn:Hdef; [|done]. simpl.
  destruct (Hregistered _ _ Hdef) as (members & Hlookup & Hin). rewrite Hlookup.
  split; simpl.
  - intros category members' x Hlookup' Hx.
    assert (categories r !! category = Some members' ∧ category ≠ categoryName (fd_category functionDef)
            ∨ (category = categoryName (fd_category functionDef) ∧ x ∈ members ∧ x ≠ name))
      as [[Hold Hcat]|(-> & Hold & Hne)].
    { destruct (decide (category = categoryName (fd_category functionDef))) as [->|Hcat].
      - right. split; [done|]. case_bool_decide as Hempty.
        + by rewrite lookup_delete_eq in Hlookup'.
        + rewrite lookup_insert_eq in Hlookup'. injection Hlookup' as <-.
          apply elem_of_difference in Hx as [Hx Hne]. split; [done|].
          intros ->. apply Hne. by apply elem_of_singleton.
      - left. split; [|done]. case_bool_decide.
        + by rewrite lookup_delete_ne in Hlookup'.
        + by rewrite lookup_insert_ne in Hlookup'. }
    + destruct (Hmember _ _ _ Hold Hx) as (d & Hd & Hcat').
      exists d. split; [|done]. rewrite lookup_delete_ne; [done|].
      intros <-. rewrite Hdef in Hd. injection Hd as <-. done.
    + destruct (Hmember _ _ _ Hlookup Hold) as (d & Hd & Hcat').
      exists d. split; [|done]. by rewrite lookup_delete_ne.
  - intros x d Hd.
    destruct (decide (name = x)) as [->|Hne]; [by rewrite lookup_delete_eq in Hd|].
    rewrite lookup_delete_ne in Hd by done.
    destruct (Hregistered _ _ Hd) as (members' & Hlookup' & Hx).
    destruct (decide (categoryName (fd_category functionDef) = categoryName (fd_category d)))
      as [Hcat|Hcat].
    + rewrite <- Hcat in *. rewrite Hlookup in Hlookup'. injection Hlookup' as <-.
      assert (x ∈ members ∖ {[name]}) as Hstill.
      { apply elem_of_difference. split; [done|]. intros Hx'%elem_of_singleton. done. }
      rewrite bool_decide_eq_false_2.
      * rewrite lookup_insert_eq. by eexists.
      * intros Hempty. rewrite Hempty in Hstill. by apply elem_of_empty in Hstill.
    + case_bool_decide.
      * rewrite lookup_delete_ne by done. by exists members'.
      * rewrite lookup_insert_ne by done. by exists members'.
Qed.

(** X28. The category index stays exact, except under updates.  That the
    set of each category holds exactly the names of the registered
    capabilities of the category is true of a new registry and is kept by
    every registration, every removal and every execution; in such a
    registry [getFunctionsByCategory] returns exactly the registered
    definitions of the category.  An update that changes the category of a
    capability breaks it: the index is not written. *)
Theorem category_index_is_exact :
  indexExact Registry.empty ∧
  (∀ d r r', indexExact r → registerFunction d r = inl r' → indexExact r') ∧
  (∀ name r, indexExact r → indexExact (unregisterFunction name r).1.2) ∧
  (∀ name c r, indexExact r → indexExact (executeFunction name c r).1.1) ∧
  (∀ category d r,
     indexExact r →
     d ∈ getFunctionsByCategory category r ↔
     ∃ name, functions r !! name = Some d ∧ categoryName (fd_category d) = category) ∧
  (indexExact Scenarios.limitedRegistry ∧
   ¬ indexExact (updateFunction "rate_limited_function" recategorised
                   Scenarios.limitedRegistry).1.2).
Proof.
  assert (indexExact Registry.empty) as Hempty.
  { split.
    - intros category members name Hlookup. cbv [Registry.empty categories] in Hlookup.
      by rewrite lookup_empty in Hlookup.
    - intros name d Hlookup. cbv [Registry.empty functions] in Hlookup.
      by rewrite lookup_empty in Hlookup. }
  split; [exact Hempty|].
  split; [exact indexExact_registerFunction|].
  split; [exact indexExact_unregisterFunction|].
  split; [|split; [|split]].
  - intros name c r [Hmember Hregistered].
    destruct (index_executeFunction name c r) as [Hcs Hfs].
    split.
    + intros category members x. rewrite Hcs, Hfs. apply Hmember.
    + intros x d. rewrite Hcs, Hfs. apply Hregistered.
  - intros category d r [Hmember Hregistered]. unfold getFunctionsByCategory. split.
    + destruct (categories r !! category) as [members|] eqn:Hlookup;
        [|by intros Hin%elem_of_nil].
      intros (name & Hname & Hd)%list_elem_of_omap.
      apply elem_of_elements in Hname.
      destruct (Hmember _ _ _ Hlookup Hname) as (d' & Hd' & Hcat).
      exists name. rewrite Hd' in Hd. injection Hd as <-. done.
    + intros (name & Hd & <-).
      destruct (Hregistered _ _ Hd) as (members & -> & Hin).
      apply list_elem_of_omap. exists name. split; [|done]. by apply elem_of_elements.
  - apply (indexExact_registerFunction Scenarios.rate_limited_function Registry.empty);
      [exact Hempty|]. vm_compute. reflexivity.
  - intros [Hmember _].
    destruct (Hmember "utility" {[ "rate_limited_function" ]} "rate_limited_function")
      as (d & Hd & Hcat).
    + vm_compute. reflexivity.
    + by apply elem_of_singleton.
    + assert (fd_category d = Analysis) as Hmoved.
      { cbv [updateFunction] in Hd. vm_compute in Hd. by injection Hd as <-. }
      rewrite Hmoved in Hcat. discriminate Hcat.
Qed.

End DiscoveryFacts.

(** ** A response closes the circuit *)

Module RecoveryFacts.
Import Types Config Providers ProviderFacts BreakerFacts.

Lemma getCircuitBreakerState_now key m :
  getCircuitBreakerState key (elapse 0 m) = getCircuitBreakerState key m.
Proof.
  unfold getCircuitBreakerState, liveHash. simpl. by rewrite Z.add_0_r.
Qed.

Lemma updateCircuitBreaker_closes p m :
  enableCircuitBreaker (config m) = true →
  status (getCircuitBreakerState p (updateCircuitBreaker p true m)) = Closed ∧
  failureCount (getCircuitBreakerState p (updateCircuitBreaker p true m)) = 0.
Proof.
  intros Hon. unfold updateCircuitBreaker. rewrite Hon. simpl.
  rewrite <- !(getCircuitBreakerState_now p (updateCircuitBreakerState p _ m)).
  by rewrite getCircuitBreakerState_written.
Qed.

End RecoveryFacts.

(** ** The circuit breaker and the failures of its store *)

Module OutageFacts.
Import Types Config Providers ProviderFacts BreakerFacts RecoveryFacts.

Lemma getCircuitBreakerState_up reachable key m :
  reachable (clock m) = true →
  Outage.getCircuitBreakerState reachable key m = getCircuitBreakerState key m.
Proof. intros Hup. unfold Outage.getCircuitBreakerState. by rewrite Hup. Qed.

Lemma updateCircuitBreaker_up reachable p ok m :
  reachable (clock m) = true →
  Outage.updateCircuitBreaker reachable p ok m = updateCircuitBreaker p ok m.
Proof.
  intros Hup. unfold Outage.updateCircuitBreaker, updateCircuitBreaker,
    Outage.updateCircuitBreakerState, Outage.getCircuitBreakerState.
  by rewrite Hup.
Qed.

Lemma updateCircuitBreaker_down reachable p ok m :
  reachable (clock m) = false → Outage.updateCircuitBreaker reachable p ok m = m.
Proof.
  intros Hdown. unfold Outage.updateCircuitBreaker, Outage.updateCircuitBreakerState.
  rewrite Hdown. by repeat case_match.
Qed.

Lemma callProvider_up reachable adapters p request m :
  reachable (clock m) = true →
  Outage.callProvider reachable adapters p request m = callProvider adapters p request m.
Proof.
  intros Hup. unfold Outage.callProvider, callProvider,
    Outage.updateCircuitBreakerState, Outage.getCircuitBreakerState.
  change (clock (noteAttempt p m)) with (clock m). by rewrite Hup.
Qed.

(** With the store down, a registered provider is called whatever the store
    holds for it, and nothing is written. *)
Lemma callProvider_down reachable adapters p request m :
  reachable (clock m) = false →
  Outage.callProvider reachable adapters p request m
  = match providersGet p m with
    | None => (noteAttempt p m, inr (ProviderNotFound p))
    | Some _ =>
        match adapters p request (clock m) with
        | Responds after response =>
            (elapse after (noteAdapterCall p (noteAttempt p m)), inl response)
        | Fails after message =>
            (elapse after (noteAdapterCall p (noteAttempt p m)),
             inr (AdapterFailed message))
        end
    end.
Proof.
  intros Hdown. unfold Outage.callProvider, Outage.getCircuitBreakerState.
  change (clock (noteAttempt p m)) with (clock m).
  change (providersGet p (noteAttempt p m)) with (providersGet p m).
  rewrite Hdown. destruct (providersGet p m); [|done].
  by destruct (enableCircuitBreaker (config (noteAttempt p m))).
Qed.

Lemma breakers_callProvider_down reachable adapters p request m :
  reachable (clock m) = false →
  breakers (Outage.callProvider reachable adapters p request m).1 = breakers m.
Proof.
  intros Hdown. rewrite (callProvider_down _ _ _ _ _ Hdown).
  destruct (providersGet p m); [|done]. by destruct (adapters p request (clock m)).
Qed.

Lemma frame_callProvider_outage reachable adapters p request m :
  config (Outage.callProvider reachable adapters p request m).1 = config m ∧
  providers (Outage.callProvider reachable adapters p request m).1 = providers m ∧
  clock m ≤ clock (Outage.callProvider reachable adapters p request m).1.
Proof.
  destruct (reachable (clock m)) eqn:Hr.
  - rewrite (callProvider_up _ _ _ _ _ Hr). apply frame_callProvider.
  - rewrite (callProvider_down _ _ _ _ _ Hr).
    destruct (providersGet p m); [|done].
    destruct (adapters p request (clock m)); simpl; repeat split; lia.
Qed.

Lemma frame_updateCircuitBreaker_outage reachable p ok m :
  config (Outage.updateCircuitBreaker reachable p ok m) = config m ∧
  providers (Outage.updateCircuitBreaker reachable p ok m) = providers m ∧
  adapterCalls (Outage.updateCircuitBreaker reachable p ok m) = adapterCalls m ∧
  clock (Outage.updateCircuitBreaker reachable p ok m) = clock m.
Proof.
  destruct (reachable (clock m)) eqn:Hr.
  - rewrite (updateCircuitBreaker_up _ _ _ _ Hr). apply frame_updateCircuitBreaker.
  - by rewrite (updateCircuitBreaker_down _ _ _ _ Hr).
Qed.

(** A response of the fallback loop: the provider that answered, and the
    state the loop ends in. *)
Lemma tryFallbacks_closes reachable adapters provider request start chain m :
  enableCircuitBreaker (config m) = true →
  ∀ response,
    (Outage.tryFallbacks reachable adapters provider request start chain m).2
    = Some response →
    ∃ q, providerUsed (rs_metadata response) = Some q ∧
         (reachable (clock (Outage.tryFallbacks reachable adapters provider request
                              start chain m).1) = true →
          status (getCircuitBreakerState q
                    (Outage.tryFallbacks reachable adapters provider request
                       start chain m).1) = Closed ∧
          failureCount (getCircuitBreakerState q
                          (Outage.tryFallbacks reachable adapters provider request
                             start chain m).1) = 0).
Proof.
  revert m. induction chain as [|q chain IH]; intros m Hon response; [done|]. simpl.
  pose proof (frame_callProvider_outage reachable adapters q request m) as (Hc & _ & _).
  destruct (Outage.callProvider reachable adapters q request m) as [m1 [answer|e]];
    simpl in Hc; rewrite Hc, Hon.
  - simpl. intros [= <-]. exists q. split; [done|]. intros Hup.
    destruct (frame_updateCircuitBreaker_outage reachable q true m1)
      as (_ & _ & _ & Hclock).
    rewrite Hclock in Hup. rewrite (updateCircuitBreaker_up _ _ _ _ Hup).
    apply updateCircuitBreaker_closes. by rewrite Hc.
  - apply IH. destruct (frame_updateCircuitBreaker_outage reachable q false m1) as (-> & _).
    by rewrite Hc.
Qed.

(** While the store is down nothing is written to it. *)
Lemma tryFallbacks_down reachable adapters provider request start chain m :
  (∀ t, reachable t = false) →
  breakers (Outage.tryFallbacks reachable adapters provider request start chain m).1
  = breakers m.
Proof.
  intros Hdown. revert m. induction chain as [|q chain IH]; intros m; [done|]. simpl.
  rewrite (callProvider_down _ _ _ _ _ (Hdown (clock m))).
  destruct (providersGet q m).
  - destruct (adapters q request (clock m)); simpl.
    + by rewrite (updateCircuitBreaker_down _ _ _ _ (Hdown _)), Tauto.if_same.
    + rewrite (updateCircuitBreaker_down _ _ _ _ (Hdown _)), Tauto.if_same.
      by rewrite IH.
  - simpl. rewrite (updateCircuitBreaker_down _ _ _ _ (Hdown _)), Tauto.if_same.
    by rewrite IH.
Qed.

(** X14. Opening and cooldown.  When the store answers, a failure recorded
    for a provider whose count thereby reaches the threshold of 5 opens its
    circuit.  A call of the provider made while the store answers is then
    refused without invoking its adapter for the next 60 seconds; from 60
    seconds on the adapter is invoked again, and that probe marks the circuit
    half-open.  A call made while the store does not answer is not refused,
    not even within the 60 seconds: the read reports a closed circuit, the
    adapter is invoked and nothing is written. *)
Theorem open_circuit_blocks_for_cooldown reachable adapters request p m ms :
  enableCircuitBreaker (config m) = true →
  is_Some (providersGet p m) →
  0 < clock m →
  reachable (clock m) = true →
  threshold ≤ failureCount (getCircuitBreakerState p m) + 1 →
  0 ≤ ms →
  (reachable (clock m + ms) = true →
   (ms < timeout →
    Outage.callProvider reachable adapters p request
      (elapse ms (Outage.updateCircuitBreaker reachable p false m))
    = (noteAttempt p (elapse ms (Outage.updateCircuitBreaker reachable p false m)),
       inr (CircuitOpen p))) ∧
   (timeout ≤ ms →
    adapterCalls (Outage.callProvider reachable adapters p request
                    (elapse ms (Outage.updateCircuitBreaker reachable p false m))).1
    = adapterCalls m ++ [p]) ∧
   (timeout ≤ ms < 24 * 60 * 60 * 1000 →
    (λ h, status (h_state h))
      <$> breakers (Outage.callProvider reachable adapters p request
                      (elapse ms (Outage.updateCircuitBreaker reachable p false m))).1
          !! p
    = Some HalfOpen)) ∧
  (reachable (clock m + ms) = false →
   adapterCalls (Outage.callProvider reachable adapters p request
                   (elapse ms (Outage.updateCircuitBreaker reachable p false m))).1
   = adapterCalls m ++ [p] ∧
   breakers (Outage.callProvider reachable adapters p request
               (elapse ms (Outage.updateCircuitBreaker reachable p false m))).1
   = breakers (Outage.updateCircuitBreaker reachable p false m)).
Proof.
  intros Hon Hreg Hclock Hup Hth Hms.
  rewrite (updateCircuitBreaker_up _ _ _ _ Hup).
  pose proof (frame_updateCircuitBreaker p false m) as (Hc & Hp & Hcalls & Hclk).
  assert (clock (elapse ms (updateCircuitBreaker p false m)) = clock m + ms) as Hnow.
  { simpl. rewrite Hclk. lia. }
  split.
  - intros Hup'. rewrite callProvider_up by (by rewrite Hnow).
    by apply cooldown_with_store.
  - intros Hdown. rewrite callProvider_down by (by rewrite Hnow).
    rewrite (providersGet_ext p (elapse ms (updateCircuitBreaker p false m)) m Hp).
    destruct Hreg as [x ->].
    destruct (adapters p request _); simpl; by rewrite Hcalls.
Qed.

Lemma open_circuit_blocks_for_cooldown_witness :
  Outage.callProvider (Outage.until 100000) RouterScenarios.failing "openai"
    (RouterScenarios.ask "gpt-4")
    (elapse 1000 (Outage.updateCircuitBreaker (Outage.until 100000) "openai" false
                    BreakerScenarios.strained))
  = (noteAttempt "openai"
       (elapse 1000 (Outage.updateCircuitBreaker (Outage.until 100000) "openai" false
                       BreakerScenarios.strained)),
     inr (CircuitOpen "openai")) ∧
  adapterCalls
    (Outage.callProvider (Outage.until (clock BreakerScenarios.strained + 1000))
       RouterScenarios.failing "openai" (RouterScenarios.ask "gpt-4")
       (elapse 1000 (Outage.updateCircuitBreaker
                       (Outage.until (clock BreakerScenarios.strained + 1000))
                       "openai" false BreakerScenarios.strained))).1
  = adapterCalls BreakerScenarios.strained ++ ["openai"].
Proof.
  split.
  - pose proof (open_circuit_blocks_for_cooldown (Outage.until 100000)
                  RouterScenarios.failing (RouterScenarios.ask "gpt-4") "openai"
                  BreakerScenarios.strained 1000) as H.
    destruct H as [H _].
    + reflexivity.
    + vm_compute. eexists. reflexivity.
    + vm_compute. reflexivity.
    + vm_compute. reflexivity.
    + vm_compute. discriminate.
    + lia.
    + destruct H as [H _]; [vm_compute; reflexivity|]. apply H. vm_compute. reflexivity.
  - pose proof (open_circuit_blocks_for_cooldown
                  (Outage.until (clock BreakerScenarios.strained + 1000))
                  RouterScenarios.failing (RouterScenarios.ask "gpt-4") "openai"
                  BreakerScenarios.strained 1000) as H.
    destruct H as [_ H].
    + reflexivity.
    + vm_compute. eexists. reflexivity.
    + vm_compute. reflexivity.
    + vm_compute. reflexivity.
    + vm_compute. discriminate.
    + lia.
    + destruct H as [H _]; [vm_compute; reflexivity|]. exact H.
Defined.

(** X15. A refusal extends the cooldown.  In the loop over the fallback
    chain, while the store answers, a provider refused because its circuit is
    open counts as one more failure: its adapter is not invoked, and the time
    of its next attempt moves to 60 seconds after the refusal.  While the
    store does not answer the provider is not refused: its adapter is
    invoked. *)
Theorem refused_fallback_extends_cooldown reachable adapters primary request start
    p rest m next :
  enableCircuitBreaker (config m) = true →
  is_Some (providersGet p m) →
  status (getCircuitBreakerState p m) = Open →
  nextAttemptTime (getCircuitBreakerState p m) = Some next →
  next ≠ 0 → clock m < next → 0 < clock m →
  threshold ≤ failureCount (getCircuitBreakerState p m) + 1 →
  (reachable (clock m) = true →
   Outage.tryFallbacks reachable adapters primary request start (p :: rest) m
   = Outage.tryFallbacks reachable adapters primary request start rest
       (Outage.updateCircuitBreaker reachable p false (noteAttempt p m)) ∧
   adapterCalls (Outage.updateCircuitBreaker reachable p false (noteAttempt p m))
   = adapterCalls m ∧
   getCircuitBreakerState p
     (Outage.updateCircuitBreaker reachable p false (noteAttempt p m))
   = {| status := Open; failureCount := failureCount (getCircuitBreakerState p m) + 1;
        lastFailureTime := Some (clock m);
        nextAttemptTime := Some (clock m + timeout) |}) ∧
  (reachable (clock m) = false →
   adapterCalls (Outage.callProvider reachable adapters p request m).1
   = adapterCalls m ++ [p] ∧
   (Outage.callProvider reachable adapters p request m).2 ≠ inr (CircuitOpen p)).
Proof.
  intros Hon Hreg Hopen Hnext Hnz Hlt Hclock Hth. split.
  - intros Hup.
    destruct (refusal_with_store adapters primary request start p rest m next
                Hon Hreg Hopen Hnext Hnz Hlt Hclock Hth) as (_ & Hcalls & Hstate).
    rewrite (updateCircuitBreaker_up reachable p false (noteAttempt p m)) by done.
    split; [|by split]. simpl.
    rewrite (callProvider_up _ _ _ _ _ Hup).
    rewrite (callProvider_blocked _ _ _ _ _ Hreg Hon Hopen Hnext Hnz Hlt).
    simpl. rewrite Hon. by rewrite (updateCircuitBreaker_up reachable p false (noteAttempt p m)).
  - intros Hdown. rewrite (callProvider_down _ _ _ _ _ Hdown).
    destruct Hreg as [x ->]. by destruct (adapters p request (clock m)).
Qed.

Lemma refused_fallback_extends_cooldown_witness :
  Outage.tryFallbacks Outage.always RouterScenarios.failing "perplexity"
    (RouterScenarios.ask "gpt-4") 0 ["openai"] BreakerScenarios.tripped
  = Outage.tryFallbacks Outage.always RouterScenarios.failing "perplexity"
      (RouterScenarios.ask "gpt-4") 0 []
      (Outage.updateCircuitBreaker Outage.always "openai" false
         (noteAttempt "openai" BreakerScenarios.tripped)) ∧
  adapterCalls (Outage.callProvider Outage.never RouterScenarios.failing "openai"
                  (RouterScenarios.ask "gpt-4") BreakerScenarios.tripped).1
  = adapterCalls BreakerScenarios.tripped ++ ["openai"].
Proof.
  split.
  - pose proof (refused_fallback_extends_cooldown Outage.always RouterScenarios.failing
                  "perplexity" (RouterScenarios.ask "gpt-4") 0 "openai" []
                  BreakerScenarios.tripped
                  (default 0 (nextAttemptTime (getCircuitBreakerState "openai"
                                                 BreakerScenarios.tripped)))) as H.
    destruct H as [H _].
    + reflexivity.
    + vm_compute. eexists. reflexivity.
    + vm_compute. reflexivity.
    + vm_compute. reflexivity.
    + vm_compute. discriminate.
    + vm_compute. reflexivity.
    + vm_compute. reflexivity.
    + vm_compute. discriminate.
    + destruct H as [H _]; [reflexivity|exact H].
  - pose proof (refused_fallback_extends_cooldown Outage.never RouterScenarios.failing
                  "perplexity" (RouterScenarios.ask "gpt-4") 0 "openai" []
                  BreakerScenarios.tripped
                  (default 0 (nextAttemptTime (getCircuitBreakerState "openai"
                                                 BreakerScenarios.tripped)))) as H.
    destruct H as [_ H].
    + reflexivity.
    + vm_compute. eexists. reflexivity.
    + vm_compute. reflexivity.
    + vm_compute. reflexivity.
    + vm_compute. discriminate.
    + vm_compute. reflexivity.
    + vm_compute. reflexivity.
    + vm_compute. discriminate.
    + destruct H as [H _]; [reflexivity|exact H].
Defined.

(** X29. A response closes the circuit.  With the circuit breaker on,
    whenever the router returns a response while the store answers, the
    circuit of the provider that answered, primary or fallback, is closed
    with a failure count of 0 when the call returns, whatever its state was
    before.  When the store never answers, the call leaves the store as it
    was. *)
Theorem response_closes_circuit reachable adapters request options m m' response :
  enableCircuitBreaker (config m) = true →
  Outage.call reachable adapters request options m = (m', inl response) →
  (∃ q, providerUsed (rs_metadata response) = Some q ∧
        (reachable (clock m') = true →
         status (getCircuitBreakerState q m') = Closed ∧
         failureCount (getCircuitBreakerState q m') = 0)) ∧
  ((∀ t, reachable t = false) → breakers m' = breakers m).
Proof.
  intros Hon. unfold Outage.call.
  destruct (selectProvider (rq_model request) options m) as [[[provider model] chain]|e];
    [|done].
  pose proof (frame_callProvider_outage reachable adapters provider request m)
    as (Hc & _ & _).
  pose proof (breakers_callProvider_down reachable adapters provider request m) as Hdown1.
  destruct (Outage.callProvider reachable adapters provider request m)
    as [m1 [answer|e]]; simpl in Hc, Hdown1.
  - rewrite Hc, Hon. intros [= <- <-]. split.
    + exists provider. split; [done|]. intros Hup.
      destruct (frame_updateCircuitBreaker_outage reachable provider true m1)
        as (_ & _ & _ & Hclock).
      rewrite Hclock in Hup. rewrite (updateCircuitBreaker_up _ _ _ _ Hup).
      apply updateCircuitBreaker_closes. by rewrite Hc.
    + intros Hnever. rewrite (updateCircuitBreaker_down _ _ _ _ (Hnever _)).
      exact (Hdown1 (Hnever _)).
  - pose proof (tryFallbacks_closes reachable adapters provider request (clock m) chain m1
                  ltac:(by rewrite Hc)) as Hclosed.
    pose proof (tryFallbacks_down reachable adapters provider request (clock m) chain m1)
      as Hkept.
    destruct (Outage.tryFallbacks reachable adapters provider request (clock m) chain m1)
      as [m2 [answer|]]; [|done].
    intros [= <- <-]. split; [by apply Hclosed|].
    intros Hnever. simpl in Hkept. rewrite (Hkept Hnever).
    exact (Hdown1 (Hnever _)).
Qed.

Lemma response_closes_circuit_witness :
  ∃ q, providerUsed (rs_metadata (tagResponse AdapterScenarios.answer 20 true "openai"
                                    (Some "Primary provider perplexity failed")))
       = Some q ∧
       (Outage.always
          (clock (Outage.call Outage.always BreakerScenarios.onlyOpenAI
                    (RouterScenarios.ask "llama-3.1-70b-instruct")
                    (RouterScenarios.onPlan "free") BreakerScenarios.strained).1) = true →
        status (getCircuitBreakerState q
                  (Outage.call Outage.always BreakerScenarios.onlyOpenAI
                     (RouterScenarios.ask "llama-3.1-70b-instruct")
                     (RouterScenarios.onPlan "free") BreakerScenarios.strained).1) = Closed ∧
        failureCount (getCircuitBreakerState q
                        (Outage.call Outage.always BreakerScenarios.onlyOpenAI
                           (RouterScenarios.ask "llama-3.1-70b-instruct")
                           (RouterScenarios.onPlan "free") BreakerScenarios.strained).1) = 0).
Proof.
  pose proof (response_closes_circuit Outage.always
                BreakerScenarios.onlyOpenAI
                (RouterScenarios.ask "llama-3.1-70b-instruct")
                (RouterScenarios.onPlan "free") BreakerScenarios.strained
                (Outage.call Outage.always BreakerScenarios.onlyOpenAI
                   (RouterScenarios.ask "llama-3.1-70b-instruct")
                   (RouterScenarios.onPlan "free") BreakerScenarios.strained).1
                (tagResponse AdapterScenarios.answer 20 true "openai"
                   (Some "Primary provider perplexity failed"))) as H.
  destruct H as [H _].
  - reflexivity.
  - vm_compute. reflexivity.
  - exact H.
Defined.

End OutageFacts.

(** ** The request gate *)

Module RequestLimitFacts.
Import RequestLimit.

Lemma serve_counts clientIp w times redis n :
  reachable redis = true →
  (∀ t, t ∈ times → t `div` 60000 = w) →
  (∀ t, t ∈ times →
        current (("rate_limit:" +:+ clientIp) +:+ ":" +:+ pretty w) t redis = n) →
  serve clientIp times redis
  = (λ i, 100 <? n + Z.of_nat i + 1) <$> seq 0 (length times).
Proof.
  revert redis n. induction times as [|now rest IH]; intros redis n Hup Hwindow Hcount;
    [done|].
  simpl. unfold gate, incrementRateLimit. rewrite Hup. simpl.
  rewrite (Hwindow now) by (by left). rewrite (Hcount now) by (by left).
  f_equal; [f_equal; lia|].
  rewrite (IH _ (n + 1)).
  - rewrite <- (fmap_S_seq 0), <- list_fmap_compose. apply list_fmap_ext.
    intros i x _. simpl. f_equal. lia.
  - done.
  - intros t Ht. apply Hwindow. by right.
  - intros t Ht. unfold current. simpl. rewrite lookup_insert_eq. simpl.
    pose proof (Hwindow now ltac:(by left)) as Hnow.
    pose proof (Hwindow t ltac:(by right)) as Hlater.
    pose proof (Z.div_mod now 60000 ltac:(lia)) as Hdiv.
    pose proof (Z.mod_pos_bound now 60000 ltac:(lia)) as Hmod.
    pose proof (Z.div_mod t 60000 ltac:(lia)) as Hdiv'.
    pose proof (Z.mod_pos_bound t 60000 ltac:(lia)) as Hmod'.
    rewrite Hnow in Hdiv. rewrite Hlater in Hdiv'.
    change (- (Z.opp 60000 `div` 1000) * 1000) with 60000.
    destruct (Z.ltb_spec t (now + 60000)); [done|lia].
Qed.

(** X30. The request gate of the chat route counts per client and minute.
    When the store holds no counter for the client in a minute, of the
    requests the client makes in that minute, in whatever order their times
    are, exactly the first 100 pass the gate and every later one is answered
    with the rate-limit status: the expiry of the counter never falls inside
    its minute.  When the store is not reachable, every request passes. *)
Theorem gate_admits_hundred_per_minute clientIp w times redis :
  (∀ t, t ∈ times → t `div` 60000 = w) →
  (reachable redis = true →
   keys redis !! (("rate_limit:" +:+ clientIp) +:+ ":" +:+ pretty w) = None →
   serve clientIp times redis
   = (λ i, bool_decide (100 ≤ i)%nat) <$> seq 0 (length times)) ∧
  (reachable redis = false →
   serve clientIp times redis = replicate (length times) false).
Proof.
  intros Hwindow. split.
  - intros Hup Hnone.
    rewrite (serve_counts clientIp w times redis 0 Hup Hwindow).
    + apply list_fmap_ext. intros i x _. simpl.
      destruct (Z.ltb_spec 100 (0 + Z.of_nat x + 1)).
      * by rewrite bool_decide_eq_true_2 by lia.
      * by rewrite bool_decide_eq_false_2 by lia.
    + intros t _. unfold current. by rewrite Hnone.
  - intros Hdown. clear Hwindow. induction times as [|now rest IH]; [done|].
    simpl. unfold gate, incrementRateLimit. rewrite Hdown. simpl. by rewrite IH.
Qed.

Lemma gate_admits_hundred_per_minute_witness :
  (reachable fresh = true →
   keys fresh !! (("rate_limit:" +:+ "10.0.0.1") +:+ ":" +:+ pretty 7) = None →
   serve "10.0.0.1" [420000; 420001; 479999] fresh
   = (λ i, bool_decide (100 ≤ i)%nat) <$> seq 0 (length [420000; 420001; 479999])) ∧
  (reachable fresh = false →
   serve "10.0.0.1" [420000; 420001; 479999] fresh
   = replicate (length [420000; 420001; 479999]) false).
Proof.
  apply (gate_admits_hundred_per_minute "10.0.0.1" 7 [420000; 420001; 479999] fresh).
  intros t Ht.
  repeat (apply elem_of_cons in Ht as [->|Ht]; [reflexivity|]).
  by apply elem_of_nil in Ht.
Defined.

End RequestLimitFacts.
